(** * MComix event handling: scroll / page-flip controller

    A shallow embedding of [mcomix/event.py]: the [EventHandler] state
    (debounce counter, protection flag, last-axis memory), the page-flip
    protector, the smart-scroll engine, the wheel and key routers, and the
    cursor-warp helper [_valwarp]; further on, the event coalescing of
    [_get_latest_event_of_same_type], the pointer handlers, and the
    command line tokenizer of [mcomix/openwith.py].

    Conventions.
    - Python integers are [Z].  The preference ['smart scroll percentage']
      is a Python float, that is an IEEE 754 binary64 number, and is
      carried as such ([float]).  [int(size * distance)] converts the
      integer to binary64, multiplies with one rounding to nearest (ties
      to even) and truncates the rounded product toward zero:
      [int(800 * 0.29)] is 231 and [int(1000 * 0.7)] is 700.  Python
      raises where the product is infinite or not a number, which takes a
      preference that is not a finite number or a size beyond the range of
      binary64; the handlers are modelled for finite products.
    - The main window is an external collaborator.  It is an interface
      ([Window]) over an abstract window state; every call of one of its
      mutating methods is appended to a call log, so that statements about
      "which calls were issued, in which order" can be made.
    - [assert False] is an explicit outcome, [AssertionError].
    - Of the handler's attributes only the three the scrolling logic uses
      are kept; the pointer positions of the drag code are not part of
      any method embedded here.  Pointer coordinates given to [_valwarp]
      are integers. *)

From Stdlib Require Import ZArith List Bool Floats Lia.
From Stdlib Require Strings.Ascii Strings.String Strings.Byte.
Import ListNotations.
Local Open Scope Z_scope.

(** A decimal float literal stands for the nearest binary64 number, as it
    does in Python. *)
Local Set Warnings "-inexact-float".

(** ** Arguments and calls of the window collaborator *)

(** The [bound] argument of [window.scroll]: ['first'] or ['second']. *)
Inductive subpage : Type := first | second.

(** The [horiz] keyword of [window.scroll_to_fixed]. *)
Inductive horiz : Type :=
| h_left | h_middle | h_right
| startfirst | endfirst | startsecond | endsecond.

(** The [vert] keyword of [window.scroll_to_fixed]. *)
Inductive vert : Type := top | v_middle | bottom.

(** One entry of the call log. *)
Inductive call : Type :=
| Scroll (x y : Z) (bound : option subpage)
| ScrollToFixed (h : option horiz) (v : option vert)
| NextPage
| PreviousPage
| SetForceSingleStep (b : bool)
| EmitStopByName.

(** The window as the handler uses it.  Queries read the window state,
    methods return their result together with the next window state. *)
Class Window (W : Type) : Type := {
  scroll : Z -> Z -> option subpage -> W -> bool * W;
  scroll_to_fixed : option horiz -> option vert -> W -> bool * W;
  next_page : W -> W;
  previous_page : W -> W;
  displayed_double : W -> bool;
  is_on_first_page : W -> bool;
  is_manga_mode : W -> bool;
  get_visible_area_size : W -> Z * Z;
  is_scrollable_vertically : W -> bool
}.

(** ** Preferences read by the handler *)

Record Prefs : Type := {
  smart_scroll : bool;
  invert_smart_scroll : bool;
  smart_scroll_percentage : float;
  flip_with_wheel : bool;
  number_of_key_presses_before_page_turn : Z;
  number_of_pixels_to_scroll_per_mouse_wheel_event : Z;
  number_of_pixels_to_scroll_per_key_event : Z
}.

(** ** State of [EventHandler] *)

Record EventHandler : Type := {
  _extra_scroll_events : Z;
  _scroll_protection : bool;
  _last_scroll_was_direction_1 : bool
}.

(** [EventHandler.__init__]. *)
Definition init : EventHandler :=
  {| _extra_scroll_events := 0;
     _scroll_protection := false;
     _last_scroll_was_direction_1 := false |}.

(** ** Python helpers *)

(** [float(n)], the conversion that [n * x] applies to an integer operand
    when the other one is a float: the binary64 number nearest to [n]
    (ties to even), [n] itself when [|n| <= 2^53]. *)
Definition float_of_int (n : Z) : float :=
  SF2Prim (binary_normalize prec emax n 0 false).

(** [int(x)] for a float [x]: the integer part, truncated toward zero.
    A finite binary64 number is [(-1)^s * m * 2^e].  ([int] raises on an
    infinity and on a NaN; see the conventions.) *)
Definition int_of_float (x : float) : Z :=
  match Prim2SF x with
  | S754_finite s m e =>
      let magnitude :=
        match e with
        | Zneg p => Z.shiftr (Zpos m) (Zpos p)
        | _ => Z.shiftl (Zpos m) e
        end in
      if s then - magnitude else magnitude
  | S754_zero _ => 0
  | S754_infinity _ | S754_nan => 0
  end.

(** [int(size * distance)] for an integer [size] and a float [distance]:
    the binary64 product, rounded once, then truncated. *)
Definition int_mul (size : Z) (distance : float) : Z :=
  int_of_float (PrimFloat.mul (float_of_int size) distance).

(** Truth value of a Python integer. *)
Definition truthy (n : Z) : bool := negb (n =? 0).

(** [c and a or b] for a boolean [c] and integers [a], [b]. *)
Definition and_or (c : bool) (a b : Z) : Z :=
  if c && truthy a then a else b.

(** ** Cursor warp *)

(** [_valwarp(cur, maxval, minval=0, tolerance=3, extra=2)]. *)
Definition _valwarp (cur maxval minval tolerance extra : Z) : Z :=
  if cur <? minval + tolerance then
    let overmove := minval + tolerance - cur in
    maxval - tolerance - overmove - extra
  else if (maxval - cur) <? tolerance then
    let overmove := tolerance - (maxval - cur) in
    minval + tolerance + overmove + extra
  else cur.

(** The call with the default keyword arguments, as [mouse_move_event]
    issues it ([minval=0] is passed, [tolerance] and [extra] default). *)
Definition _valwarp_default (cur maxval : Z) : Z := _valwarp cur maxval 0 3 2.

(** A warp occurs when one of the two border tests of [_valwarp] fires. *)
Definition warps (cur maxval minval tolerance : Z) : bool :=
  (cur <? minval + tolerance) || ((maxval - cur) <? tolerance).

(** ** The handler monad: state, call log, assertion failure *)

Section Monad.

Context {W : Type}.

Record World : Type := {
  handler : EventHandler;
  window : W;
  calls : list call
}.

Inductive outcome (A : Type) : Type :=
| Done (a : A) (w : World)
| AssertionError (w : World).
Arguments Done {A} a w.
Arguments AssertionError {A} w.

Definition M (A : Type) : Type := World -> outcome A.

Definition ret {A} (a : A) : M A := fun w => Done a w.

Definition bind {A B} (m : M A) (k : A -> M B) : M B :=
  fun w => match m w with
           | Done a w' => k a w'
           | AssertionError w' => AssertionError w'
           end.

Definition assert_False {A} : M A := fun w => AssertionError w.

(** Reads and writes of the handler's attributes. *)
Definition get {A} (f : EventHandler -> A) : M A :=
  fun w => Done (f (handler w)) w.

(** A query of the window (an attribute or a side-effect free getter). *)
Definition ask {A} (q : W -> A) : M A :=
  fun w => Done (q (window w)) w.

Definition set_extra_scroll_events (n : Z) : M unit :=
  fun w => Done tt
    {| handler := {| _extra_scroll_events := n;
                     _scroll_protection := _scroll_protection (handler w);
                     _last_scroll_was_direction_1 :=
                       _last_scroll_was_direction_1 (handler w) |};
       window := window w; calls := calls w |}.

Definition set_scroll_protection (b : bool) : M unit :=
  fun w => Done tt
    {| handler := {| _extra_scroll_events := _extra_scroll_events (handler w);
                     _scroll_protection := b;
                     _last_scroll_was_direction_1 :=
                       _last_scroll_was_direction_1 (handler w) |};
       window := window w; calls := calls w |}.

Definition set_last_scroll_was_direction_1 (b : bool) : M unit :=
  fun w => Done tt
    {| handler := {| _extra_scroll_events := _extra_scroll_events (handler w);
                     _scroll_protection := _scroll_protection (handler w);
                     _last_scroll_was_direction_1 := b |};
       window := window w; calls := calls w |}.

(** Methods of collaborators the window owns ([imagehandler], the signal
    machinery): they are logged and leave the modelled window state alone. *)
Definition window_log (c : call) : M unit :=
  fun w => Done tt {| handler := handler w; window := window w;
                      calls := calls w ++ [c] |}.

End Monad.

Arguments World W : clear implicits.
Arguments outcome W A : clear implicits.
Arguments M W A : clear implicits.
Arguments Done {W A} a w.
Arguments AssertionError {W A} w.

Notation "x <- m ;; k" := (bind m (fun x => k))
  (at level 61, m at next level, right associativity).
Notation "m ;; k" := (bind m (fun _ => k))
  (at level 61, right associativity).

(** ** The handler's methods *)

Section Handler.

Context {W : Type} `{Window W}.

(** Calls of the window's methods; each one is logged. *)
Definition window_scroll (x y : Z) (bound : option subpage) : M W bool :=
  fun w => let '(r, win) := scroll x y bound (window w) in
           Done r {| handler := handler w; window := win;
                     calls := calls w ++ [Scroll x y bound] |}.

Definition window_scroll_to_fixed (h : option horiz) (v : option vert)
  : M W bool :=
  fun w => let '(r, win) := scroll_to_fixed h v (window w) in
           Done r {| handler := handler w; window := win;
                     calls := calls w ++ [ScrollToFixed h v] |}.

Definition window_next_page : M W unit :=
  fun w => Done tt {| handler := handler w; window := next_page (window w);
                      calls := calls w ++ [NextPage] |}.

Definition window_previous_page : M W unit :=
  fun w => Done tt {| handler := handler w;
                      window := previous_page (window w);
                      calls := calls w ++ [PreviousPage] |}.

(** *** The page-flip protector *)

Variable prefs : Prefs.

(** The guard of the "flip now" branch of [_next_page_with_protection]. *)
Definition next_flip_now (w : World W) : bool :=
  negb (_scroll_protection (handler w))
  || (_extra_scroll_events (handler w)
        >=? number_of_key_presses_before_page_turn prefs - 1)
  || negb (is_scrollable_vertically (window w)).

(** The guard of the "flip now" branch of
    [_previous_page_with_protection]. *)
Definition previous_flip_now (w : World W) : bool :=
  negb (_scroll_protection (handler w))
  || (_extra_scroll_events (handler w)
        <=? - number_of_key_presses_before_page_turn prefs + 1)
  || negb (is_scrollable_vertically (window w)).

Definition _next_page_with_protection : M W bool :=
  if negb (flip_with_wheel prefs) then
    set_extra_scroll_events 0 ;;
    ret false
  else
    fun w =>
      if next_flip_now w then
        (set_extra_scroll_events 0 ;;
         window_next_page ;;
         ret true) w
      else if _scroll_protection (handler w) then
        (extra <- get _extra_scroll_events ;;
         set_extra_scroll_events (Z.max 1 (extra + 1)) ;;
         ret false) w
      else
        (* This path should not be reached. *)
        assert_False w.

Definition _previous_page_with_protection : M W bool :=
  if negb (flip_with_wheel prefs) then
    set_extra_scroll_events 0 ;;
    ret false
  else
    fun w =>
      if previous_flip_now w then
        (set_extra_scroll_events 0 ;;
         window_previous_page ;;
         ret true) w
      else if _scroll_protection (handler w) then
        (extra <- get _extra_scroll_events ;;
         set_extra_scroll_events (Z.min (-1) (extra - 1)) ;;
         ret false) w
      else
        (* This path should not be reached. *)
        assert_False w.

(** *** Plain scrolling with flipping *)

(** [_scroll_with_flipping(x, y)]: [True] if able to scroll without
    flipping, [False] if a new page was flipped to. *)
Definition _scroll_with_flipping (x y : Z) : M W bool :=
  set_scroll_protection true ;;
  set_last_scroll_was_direction_1 false ;;
  scrolled <- window_scroll x y None ;;
  if scrolled then
    set_extra_scroll_events 0 ;;
    ret true
  else
    manga <- ask is_manga_mode ;;
    let forwards_scroll :=
      (y >? 0) || (manga && (x <? 0)) || (negb manga && (x >? 0)) in
    if forwards_scroll then
      flipped <- _next_page_with_protection ;;
      ret (negb flipped)
    else
      flipped <- _previous_page_with_protection ;;
      ret (negb flipped).

Definition _scroll_down : M W unit :=
  _scroll_with_flipping 0 (number_of_pixels_to_scroll_per_key_event prefs) ;;
  ret tt.

Definition _scroll_up : M W unit :=
  _scroll_with_flipping 0 (- number_of_pixels_to_scroll_per_key_event prefs) ;;
  ret tt.

Definition _scroll_right : M W unit :=
  _scroll_with_flipping (number_of_pixels_to_scroll_per_key_event prefs) 0 ;;
  ret tt.

Definition _scroll_left : M W unit :=
  _scroll_with_flipping (- number_of_pixels_to_scroll_per_key_event prefs) 0 ;;
  ret tt.

(** *** Smart scrolling *)

(** The four local step variables of [_smart_scroll_down] and
    [_smart_scroll_up]. *)
Record steps : Type := {
  x_step_small : Z;
  y_step_small : Z;
  x_step_large : Z;
  y_step_large : Z
}.

(** Step computation, the text both smart-scroll methods start with
    (from [if small_step is None:] to the end of the
    [if prefs['invert smart scroll']:] block).  The two tuple assignments of
    the invert block are evaluated in order: the second one reads the
    already exchanged [x_step_small]. *)
Definition step_sizes (width height : Z) (small_step : option Z) : steps :=
  let distance := smart_scroll_percentage prefs in
  match small_step with
  | None =>
      {| x_step_small := int_mul width distance;
         y_step_small := int_mul height distance;
         x_step_large := int_mul width distance;
         y_step_large := int_mul height distance |}
  | Some small_step =>
      let x_small := small_step in
      let y_small := small_step in
      let x_large := int_mul width distance in
      let y_large := int_mul height distance in
      if invert_smart_scroll prefs then
        let '(x_small', y_small') := (y_small, x_small) in
        let '(x_large', y_large') := (y_large, x_small') in
        {| x_step_small := x_small'; y_step_small := y_small';
           x_step_large := x_large'; y_step_large := y_large' |}
      else
        {| x_step_small := x_small; y_step_small := y_small;
           x_step_large := x_large; y_step_large := y_large |}
  end.

(** [if self._window.is_manga_mode: x_step_small *= -1; x_step_large *= -1]. *)
Definition manga_steps (is_manga : bool) (s : steps) : steps :=
  if is_manga then
    {| x_step_small := x_step_small s * -1;
       y_step_small := y_step_small s;
       x_step_large := x_step_large s * -1;
       y_step_large := y_step_large s |}
  else s.

(** The steps as they stand when the scrolling proper starts. *)
Definition smart_steps (small_step : option Z) : M W steps :=
  size <- ask get_visible_area_size ;;
  manga <- ask is_manga_mode ;;
  ret (manga_steps manga (step_sizes (fst size) (snd size) small_step)).

Definition _smart_scroll_down (small_step : option Z) : M W unit :=
  st <- smart_steps small_step ;;
  if negb (smart_scroll prefs) then
    scrolled <- window_scroll 0 (y_step_small st) None ;;
    (if negb scrolled then _next_page_with_protection ;; ret tt
     else ret tt)
  else
    double <- ask displayed_double ;;
    if double then
      on_first <- ask is_on_first_page ;;
      if on_first then
        last_scroll <- get _last_scroll_was_direction_1 ;;
        r <- window_scroll (x_step_small st) 0 (Some first) ;;
        set_last_scroll_was_direction_1 r ;;
        if negb r then
          let scroll_size :=
            and_or last_scroll (y_step_large st) (y_step_small st) in
          scrolled <- window_scroll 0 scroll_size None ;;
          if negb scrolled then
            fixed <- window_scroll_to_fixed (Some startsecond) None ;;
            (if negb fixed then _next_page_with_protection ;; ret tt
             else window_scroll_to_fixed None (Some top) ;; ret tt)
          else
            window_scroll_to_fixed (Some startfirst) None ;; ret tt
        else ret tt
      else
        last_scroll <- get _last_scroll_was_direction_1 ;;
        r <- window_scroll (x_step_small st) 0 (Some second) ;;
        set_last_scroll_was_direction_1 r ;;
        if negb r then
          let scroll_size :=
            and_or last_scroll (y_step_large st) (y_step_small st) in
          scrolled <- window_scroll 0 scroll_size None ;;
          (if negb scrolled then _next_page_with_protection ;; ret tt
           else window_scroll_to_fixed (Some startsecond) None ;; ret tt)
        else ret tt
    else
      if negb (invert_smart_scroll prefs) then
        last_scroll <- get _last_scroll_was_direction_1 ;;
        r <- window_scroll (x_step_small st) 0 None ;;
        set_last_scroll_was_direction_1 r ;;
        if negb r then
          let scroll_size :=
            and_or last_scroll (y_step_large st) (y_step_small st) in
          scrolled <- window_scroll 0 scroll_size None ;;
          (if negb scrolled then _next_page_with_protection ;; ret tt
           else window_scroll_to_fixed (Some startfirst) None ;; ret tt)
        else ret tt
      else
        last_scroll <- get _last_scroll_was_direction_1 ;;
        r <- window_scroll 0 (y_step_small st) None ;;
        set_last_scroll_was_direction_1 r ;;
        if negb r then
          let scroll_size :=
            and_or last_scroll (x_step_large st) (x_step_small st) in
          scrolled <- window_scroll scroll_size 0 None ;;
          (if negb scrolled then _next_page_with_protection ;; ret tt
           else window_scroll_to_fixed (Some startsecond) (Some top) ;;
                ret tt)
        else ret tt.

Definition _smart_scroll_up (small_step : option Z) : M W unit :=
  st <- smart_steps small_step ;;
  if negb (smart_scroll prefs) then
    scrolled <- window_scroll 0 (- y_step_small st) None ;;
    (if negb scrolled then _previous_page_with_protection ;; ret tt
     else ret tt)
  else
    double <- ask displayed_double ;;
    if double then
      on_first <- ask is_on_first_page ;;
      if on_first then
        last_scroll <- get _last_scroll_was_direction_1 ;;
        r <- window_scroll (- x_step_small st) 0 (Some first) ;;
        set_last_scroll_was_direction_1 r ;;
        if negb r then
          let scroll_size :=
            and_or last_scroll (y_step_large st) (y_step_small st) in
          scrolled <- window_scroll 0 (- scroll_size) None ;;
          (if negb scrolled then _previous_page_with_protection ;; ret tt
           else window_scroll_to_fixed (Some endfirst) None ;; ret tt)
        else ret tt
      else
        last_scroll <- get _last_scroll_was_direction_1 ;;
        r <- window_scroll (- x_step_small st) 0 (Some second) ;;
        set_last_scroll_was_direction_1 r ;;
        if negb r then
          let scroll_size :=
            and_or last_scroll (y_step_large st) (y_step_small st) in
          scrolled <- window_scroll 0 (- scroll_size) None ;;
          if negb scrolled then
            fixed <- window_scroll_to_fixed (Some endfirst) None ;;
            (if negb fixed then _previous_page_with_protection ;; ret tt
             else window_scroll_to_fixed None (Some bottom) ;; ret tt)
          else
            window_scroll_to_fixed (Some endsecond) None ;; ret tt
        else ret tt
    else
      if negb (invert_smart_scroll prefs) then
        last_scroll <- get _last_scroll_was_direction_1 ;;
        r <- window_scroll (- x_step_small st) 0 None ;;
        set_last_scroll_was_direction_1 r ;;
        if negb r then
          let scroll_size :=
            and_or last_scroll (y_step_large st) (y_step_small st) in
          scrolled <- window_scroll 0 (- scroll_size) None ;;
          (if negb scrolled then _previous_page_with_protection ;; ret tt
           else window_scroll_to_fixed (Some endfirst) None ;; ret tt)
        else ret tt
      else
        last_scroll <- get _last_scroll_was_direction_1 ;;
        r <- window_scroll 0 (- y_step_small st) None ;;
        set_last_scroll_was_direction_1 r ;;
        if negb r then
          let scroll_size :=
            and_or last_scroll (x_step_large st) (x_step_small st) in
          scrolled <- window_scroll (- scroll_size) 0 None ;;
          (if negb scrolled then _previous_page_with_protection ;; ret tt
           else window_scroll_to_fixed (Some startfirst) (Some bottom) ;;
                ret tt)
        else ret tt.

(** *** Wheel events *)

(** [event.direction] of a GDK scroll event. *)
Inductive scroll_direction : Type :=
| SCROLL_UP | SCROLL_DOWN | SCROLL_LEFT | SCROLL_RIGHT.

(** What [scroll_wheel_event] reads of its event: whether
    ['GDK_BUTTON2_MASK'] is in [event.state.value_names], and the
    direction. *)
Record scroll_event : Type := {
  button2_mask : bool;
  direction : scroll_direction
}.

Definition scroll_wheel_event (event : scroll_event) : M W unit :=
  if button2_mask event then ret tt
  else
    set_scroll_protection true ;;
    let pixels := number_of_pixels_to_scroll_per_mouse_wheel_event prefs in
    match direction event with
    | SCROLL_UP =>
        if smart_scroll prefs then _smart_scroll_up (Some pixels)
        else _scroll_with_flipping 0 (- pixels) ;; ret tt
    | SCROLL_DOWN =>
        if smart_scroll prefs then _smart_scroll_down (Some pixels)
        else _scroll_with_flipping 0 pixels ;; ret tt
    | SCROLL_RIGHT =>
        manga <- ask is_manga_mode ;;
        if negb manga then window_next_page
        else _previous_page_with_protection ;; ret tt
    | SCROLL_LEFT =>
        manga <- ask is_manga_mode ;;
        if negb manga then _previous_page_with_protection ;; ret tt
        else window_next_page
    end.

(** *** Key presses *)

(** The callbacks [register_key_events] hooks up.  The keybinding manager
    itself (module [keybindings]) is outside this file; a key event
    carries the callback the manager resolves for its
    [(keyval, state)], if any. *)
Inductive callback : Type :=
| cb_previous_page
| cb_next_page
| cb_scroll_to_fixed (h : horiz) (v : vert)
| cb_escape_event
| cb_toggle_fullscreen
| cb_zoom_in
| cb_zoom_out
| cb_zoom_original
| cb_scroll_down
| cb_scroll_up
| cb_scroll_right
| cb_scroll_left
| cb_smart_scroll_down
| cb_smart_scroll_up
| cb_show_info_panel
| cb_execute_command.

(** Running a registered callback.  The callbacks that act on the action
    group, the OSD panel or external commands touch neither the handler's
    attributes nor the logged window methods. *)
Definition run_callback (cb : callback) : M W unit :=
  match cb with
  | cb_previous_page => window_previous_page
  | cb_next_page => window_next_page
  | cb_scroll_to_fixed h v =>
      window_scroll_to_fixed (Some h) (Some v) ;; ret tt
  | cb_scroll_down => _scroll_down
  | cb_scroll_up => _scroll_up
  | cb_scroll_right => _scroll_right
  | cb_scroll_left => _scroll_left
  | cb_smart_scroll_down => _smart_scroll_down None
  | cb_smart_scroll_up => _smart_scroll_up None
  | cb_escape_event | cb_toggle_fullscreen | cb_zoom_in | cb_zoom_out
  | cb_zoom_original | cb_show_info_panel | cb_execute_command => ret tt
  end.

(** What [key_press_event] reads of its event: the callback bound to the
    key, whether the key is [Control_L] or [Control_R], and whether it is
    one of the keys whose signal is killed. *)
Record key_event : Type := {
  binding : option callback;
  is_control : bool;
  kills_signal : bool
}.

(** [manager.execute((event.keyval, event.state))]. *)
Definition manager_execute (event : key_event) : M W unit :=
  match binding event with
  | Some cb => run_callback cb
  | None => ret tt
  end.

(** [key_press_event]: returns [Some true] for [return True] and [None]
    when the method falls off its end. *)
Definition key_press_event (event : key_event) : M W (option bool) :=
  (* This is set on demand by callback functions *)
  set_scroll_protection false ;;
  manager_execute event ;;
  (if is_control event then window_log (SetForceSingleStep true)
   else ret tt) ;;
  if kills_signal event then
    window_log EmitStopByName ;;
    ret (Some true)
  else ret None.


End Handler.

(** ** A scripted window

    A window whose queries are fixed fields and whose [scroll] and
    [scroll_to_fixed] answer with the next boolean of a script (and [False]
    once the script is used up).  Whatever a real window answers during one
    run of a handler is some script, so a statement for all scripts is a
    statement for all windows' answers. *)

Record Scripted : Type := {
  manga : bool;
  double : bool;
  on_first : bool;
  area : Z * Z;
  scrollable_vertically : bool;
  answers : list bool
}.

Definition next_answer (s : Scripted) : bool * Scripted :=
  match answers s with
  | [] => (false, s)
  | a :: rest =>
      (a, {| manga := manga s; double := double s; on_first := on_first s;
             area := area s; scrollable_vertically := scrollable_vertically s;
             answers := rest |})
  end.

#[export] Instance Scripted_Window : Window Scripted := {
  scroll := fun _ _ _ s => next_answer s;
  scroll_to_fixed := fun _ _ s => next_answer s;
  next_page := fun s => s;
  previous_page := fun s => s;
  displayed_double := double;
  is_on_first_page := on_first;
  is_manga_mode := manga;
  get_visible_area_size := area;
  is_scrollable_vertically := scrollable_vertically
}.

(** The same scripted window with the reading order set. *)
Definition with_manga (b : bool) (s : Scripted) : Scripted :=
  {| manga := b; double := double s; on_first := on_first s;
     area := area s; scrollable_vertically := scrollable_vertically s;
     answers := answers s |}.

(** The world a handler call starts from. *)
Definition start {W} (h : EventHandler) (win : W) : World W :=
  {| handler := h; window := win; calls := [] |}.

(** Projections of an outcome. *)
Definition final {W A} (o : outcome W A) : World W :=
  match o with Done _ w => w | AssertionError w => w end.

Definition result {W A} (o : outcome W A) : option A :=
  match o with Done a _ => Some a | AssertionError _ => None end.

(** Mirror image of a call: horizontal deltas negated. *)
Definition mirror (c : call) : call :=
  match c with
  | Scroll x y b => Scroll (- x) y b
  | other => other
  end.

(** Number of [NextPage] / [PreviousPage] / [ScrollToFixed] entries. *)
Definition is_next_page (c : call) : bool :=
  match c with NextPage => true | _ => false end.
Definition is_previous_page (c : call) : bool :=
  match c with PreviousPage => true | _ => false end.
Definition is_scroll_to_fixed (c : call) : bool :=
  match c with ScrollToFixed _ _ => true | _ => false end.

Definition count (f : call -> bool) (l : list call) : nat :=
  length (filter f l).

(** The world with the debounce counter replaced. *)
Definition with_extra {W} (n : Z) (w : World W) : World W :=
  final (set_extra_scroll_events n w).

(** The world after a forward / backward flip: counter reset, the window's
    page method called and logged. *)
Definition flipped_next {W} `{Window W} (w : World W) : World W :=
  final ((set_extra_scroll_events 0 ;; window_next_page) w).

Definition flipped_previous {W} `{Window W} (w : World W) : World W :=
  final ((set_extra_scroll_events 0 ;; window_previous_page) w).

(** [n] calls in a row of a flip operation, with the list of the returned
    flags. *)
Fixpoint attempts {W} (m : M W bool) (n : nat) : M W (list bool) :=
  match n with
  | O => ret []
  | S k => b <- m ;; bs <- attempts m k ;; ret (b :: bs)
  end.

(** The world with the protection flag replaced. *)
Definition with_protection {W} (b : bool) (w : World W) : World W :=
  final (set_scroll_protection b w).

(** The callbacks that go through [_scroll_with_flipping], which sets the
    protection flag. *)
Definition sets_protection (cb : callback) : bool :=
  match cb with
  | cb_scroll_down | cb_scroll_up | cb_scroll_right | cb_scroll_left => true
  | _ => false
  end.

(** The flag a key press leaves behind, by the callback bound to the key. *)
Definition protection_after_key (event : key_event) : bool :=
  match binding event with
  | Some cb => sets_protection cb
  | None => false
  end.

(** Which horizontal wheel direction advances: right when reading
    left-to-right, left in manga mode. *)
Definition advances (d : scroll_direction) (is_manga : bool) : bool :=
  match d with
  | SCROLL_RIGHT => negb is_manga
  | SCROLL_LEFT => is_manga
  | SCROLL_UP | SCROLL_DOWN => false
  end.

Definition horizontal (d : scroll_direction) : bool :=
  match d with
  | SCROLL_RIGHT | SCROLL_LEFT => true
  | SCROLL_UP | SCROLL_DOWN => false
  end.

(** Concrete preferences and windows used in examples. *)
Definition prefs0 : Prefs :=
  {| smart_scroll := true; invert_smart_scroll := false;
     smart_scroll_percentage := 0.5%float; flip_with_wheel := true;
     number_of_key_presses_before_page_turn := 3;
     number_of_pixels_to_scroll_per_mouse_wheel_event := 40;
     number_of_pixels_to_scroll_per_key_event := 40 |}.

Definition prefs_no_flip : Prefs :=
  {| smart_scroll := true; invert_smart_scroll := false;
     smart_scroll_percentage := 0.5%float; flip_with_wheel := false;
     number_of_key_presses_before_page_turn := 3;
     number_of_pixels_to_scroll_per_mouse_wheel_event := 40;
     number_of_pixels_to_scroll_per_key_event := 40 |}.

(** A scroll fraction that is not exact in binary. *)
Definition prefs_29 : Prefs :=
  {| smart_scroll := true; invert_smart_scroll := false;
     smart_scroll_percentage := 0.29%float; flip_with_wheel := true;
     number_of_key_presses_before_page_turn := 3;
     number_of_pixels_to_scroll_per_mouse_wheel_event := 40;
     number_of_pixels_to_scroll_per_key_event := 40 |}.

Definition prefs_invert : Prefs :=
  {| smart_scroll := true; invert_smart_scroll := true;
     smart_scroll_percentage := 0.5%float; flip_with_wheel := true;
     number_of_key_presses_before_page_turn := 3;
     number_of_pixels_to_scroll_per_mouse_wheel_event := 40;
     number_of_pixels_to_scroll_per_key_event := 40 |}.

(** A single page in an 800x600 viewport, left-to-right reading, taller
    than the viewport; every scroll is refused. *)
Definition win0 : Scripted :=
  {| manga := false; double := false; on_first := true; area := (800, 600);
     scrollable_vertically := true; answers := [] |}.

(** The same with a page that fits the viewport vertically. *)
Definition win_fits : Scripted :=
  {| manga := false; double := false; on_first := true; area := (800, 600);
     scrollable_vertically := false; answers := [] |}.

(** A handler in the middle of a protected gesture. *)
Definition protected (n : Z) : EventHandler :=
  {| _extra_scroll_events := n;
     _scroll_protection := true;
     _last_scroll_was_direction_1 := false |}.

(** Whether [_next_page_with_protection] flips, from the handler's
    attributes and the window's answer about vertical scrolling. *)
Definition flips_forward (prefs : Prefs) (h : EventHandler)
    (scrollable : bool) : bool :=
  flip_with_wheel prefs
  && (negb (_scroll_protection h)
      || (_extra_scroll_events h
            >=? number_of_key_presses_before_page_turn prefs - 1)
      || negb scrollable).

(** Events used in examples. *)
Definition space_key : key_event :=
  {| binding := Some cb_smart_scroll_down;
     is_control := false; kills_signal := true |}.

Definition wheel_left : scroll_event :=
  {| button2_mask := false; direction := SCROLL_LEFT |}.

Definition wheel_right : scroll_event :=
  {| button2_mask := false; direction := SCROLL_RIGHT |}.

Definition wheel_down : scroll_event :=
  {| button2_mask := false; direction := SCROLL_DOWN |}.

(** * External commands ([mcomix/openwith.py])

    Python unicode strings are lists of characters; the texts of the
    exceptions are strings.  The functions of [os.path] and the getters of
    the window's file and image handlers are parameters. *)

Module OpenWith.

Import Ascii String.

Definition text : Type := list ascii.

(** [OpenWithException(msg)]. *)
Inductive OpenWithException : Type :=
| Exception (msg : string).

(** The exceptions [_commandline_to_arguments] raises itself. *)
Definition incomplete_escape : OpenWithException :=
  Exception "Incomplete escape sequence".
Definition incomplete_quotation : OpenWithException :=
  Exception "Incomplete quotation".

(** The characters the command line syntax knows. *)
Definition percent : ascii := "%"%char.
Definition space : ascii := " "%char.
Definition dquote : ascii := Eval cbv in ascii_of_nat 34.
Definition backslash : ascii := Eval cbv in ascii_of_nat 92.

(** A command string as [OpenWithCommand.__init__] may receive it: a byte
    string ([str]) or a unicode string. *)
Inductive py_string : Type :=
| Str (bytes : list Byte.byte)
| Unicode (t : text).

Record OpenWithCommand : Type := {
  label : text;
  command : text
}.

Definition get_label (cmd : OpenWithCommand) : text := label cmd.
Definition get_command (cmd : OpenWithCommand) : text := command cmd.

(** What [_expand_variable] reads of the window:
    [filehandler.archive_type is None], [filehandler.get_base_filename()],
    [imagehandler.get_page_filename()], [filehandler.get_path_to_base()]
    and [imagehandler.get_path_to_page()]. *)
Record Files : Type := {
  archive_type_is_None : bool;
  get_base_filename : text;
  get_page_filename : text;
  get_path_to_base : text;
  get_path_to_page : text
}.

(** The state of the loop of [_commandline_to_arguments]. *)
Record tokens : Type := {
  result : list text;
  buf : text;
  quote : bool;
  escape : bool
}.

Definition start_tokens : tokens :=
  {| result := []; buf := []; quote := false; escape := false |}.

Section Commands.

(** [str.decode('utf-8')], [os.path.sep], [os.path.basename],
    [os.path.dirname] and [os.path.expandvars]. *)
Variable decode_utf8 : list Byte.byte -> text.
Variable sep : text.
Variable basename : text -> text.
Variable dirname : text -> text.
Variable expandvars : text -> text.

(** [OpenWithCommand.__init__]. *)
Definition init (label : text) (command : py_string) : OpenWithCommand :=
  match command with
  | Str bytes => {| label := label; command := decode_utf8 bytes |}
  | Unicode t => {| label := label; command := t |}
  end.

(** [OpenWithManager.set_commands]: the new value of
    [prefs['openwith commands']]. *)
Definition set_commands (cmds : list OpenWithCommand)
  : list (text * py_string) :=
  map (fun cmd => (get_label cmd, Unicode (get_command cmd))) cmds.

(** [OpenWithManager.get_commands], from the value of
    [prefs['openwith commands']]. *)
Definition get_commands (stored : list (text * py_string))
  : list OpenWithCommand :=
  map (fun '(label, command) => init label command) stored.

Variable window : Files.

Definition _expand_variable (identifier : ascii)
  : OpenWithException + text :=
  if (identifier =? "/")%char then inr sep
  else if (identifier =? "a")%char then
    if archive_type_is_None window then
      inl (Exception "Not inside an archive")
    else inr (get_base_filename window)
  else if (identifier =? "f")%char then inr (get_page_filename window)
  else if (identifier =? "w")%char then
    if archive_type_is_None window then
      inr (basename (get_path_to_base window))
    else inr (basename (dirname (get_path_to_base window)))
  else if (identifier =? "A")%char then inr (get_path_to_base window)
  else if (identifier =? "D")%char then inr (get_path_to_base window)
  else if (identifier =? "F")%char then inr (get_path_to_page window)
  else if (identifier =? "W")%char then
    if archive_type_is_None window then inr (get_path_to_base window)
    else inr (dirname (get_path_to_base window))
  else inl (Exception "Invalid escape sequence").

(** One turn of the [for c in line] loop. *)
Definition step (st : tokens) (c : ascii) : OpenWithException + tokens :=
  if escape st then
    if (c =? percent)%char || (c =? dquote)%char then
      inr {| result := result st; buf := buf st ++ [c];
             quote := quote st; escape := false |}
    else
      match _expand_variable c with
      | inl e => inl e
      | inr v => inr {| result := result st; buf := buf st ++ v;
                        quote := quote st; escape := false |}
      end
  else if (c =? space)%char then
    if quote st then
      inr {| result := result st; buf := buf st ++ [c];
             quote := quote st; escape := escape st |}
    else if negb (List.length (buf st) =? 0)%nat then
      inr {| result := result st ++ [buf st]; buf := [];
             quote := quote st; escape := escape st |}
    else inr st
  else if (c =? dquote)%char then
    if quote st then
      inr {| result := result st ++ [buf st]; buf := [];
             quote := false; escape := escape st |}
    else
      inr {| result := result st; buf := buf st;
             quote := true; escape := escape st |}
  else if (c =? percent)%char then
    inr {| result := result st; buf := buf st;
           quote := quote st; escape := true |}
  else
    inr {| result := result st; buf := buf st ++ [c];
           quote := quote st; escape := escape st |}.

(** The loop over the characters of the line; an exception ends it. *)
Fixpoint loop (line : text) (st : tokens) : OpenWithException + tokens :=
  match line with
  | [] => inr st
  | c :: rest =>
      match step st c with
      | inl e => inl e
      | inr st' => loop rest st'
      end
  end.

Definition _commandline_to_arguments (line : text)
  : OpenWithException + list text :=
  match loop line start_tokens with
  | inl e => inl e
  | inr st =>
      if escape st then inl incomplete_escape
      else if quote st then inl incomplete_quotation
      else if negb (List.length (buf st) =? 0)%nat then
        inr (result st ++ [buf st])
      else inr (result st)
  end.

(** [OpenWithCommand.parse]. *)
Definition parse (cmd : OpenWithCommand) : OpenWithException + list text :=
  let command := expandvars (get_command cmd) in
  _commandline_to_arguments command.

End Commands.

(** [arg.replace(u'"', u'\\"')]. *)
Definition replace_quotes (arg : text) : text :=
  flat_map (fun c => if (c =? dquote)%char then [backslash; dquote] else [c])
    arg.

(** [u" " in arg]. *)
Definition has_space (arg : text) : bool :=
  existsb (fun c => (c =? space)%char) arg.

(** The local function [quote_if_necessary] of [_test_command]. *)
Definition quote_if_necessary (arg : text) : text :=
  if has_space arg then [dquote] ++ replace_quotes arg ++ [dquote]
  else arg.

(** [" ".join(args)]. *)
Fixpoint join (args : list text) : text :=
  match args with
  | [] => []
  | [a] => a
  | a :: rest => a ++ [space] ++ join rest
  end.

(** The text [_test_command] shows for parsed arguments. *)
Definition preview (args : list text) : text :=
  join (map quote_if_necessary args).

(** Writing an argument between quotes: [%] and the quote character are
    escaped with [%]. *)
Definition escaped (arg : text) : text :=
  flat_map (fun c => if (c =? percent)%char || (c =? dquote)%char
                     then [percent; c] else [c]) arg.

Definition quoted (arg : text) : text := [dquote] ++ escaped arg ++ [dquote].

(** A character with no meaning for the tokenizer. *)
Definition plain (c : ascii) : bool :=
  negb ((c =? percent)%char || (c =? dquote)%char).

(** Values used in examples: a page of an archive, POSIX-like paths. *)
Definition t (s : string) : text := list_ascii_of_string s.

Definition example_window : Files :=
  {| archive_type_is_None := false;
     get_base_filename := t "My Comic.cbz";
     get_page_filename := t "page 01.png";
     get_path_to_base := t "/home/me/My Comic.cbz";
     get_path_to_page := t "/tmp/mcomix/page 01.png" |}.

Definition example_sep : text := t "/".

Definition gimp : text := t "gimp".
Definition my_page : text := t "my page.png".
Definition open_quote_line : text := t "gimp " ++ [dquote] ++ t "my page".
Definition spaced_line : text := t "  gimp  -n   file ".
Definition file_option : text := t "--file=".
Definition file_option_line : text := t "--file=%f".
Definition file_option_value : text := t "--file=page 01.png".
Definition identifier_f : ascii := "f"%char.

(** Stand-ins for [os.path.basename] and [os.path.dirname]. *)
Definition example_basename (p : text) : text := p.
Definition example_dirname (p : text) : text := p.

End OpenWith.

(** * Event coalescing ([_get_latest_event_of_same_type])

    The GDK event queue is a list, its head the next event:
    [gtk.gdk.events_pending()] says whether the list is not empty,
    [gtk.gdk.event_get()] removes and returns the head, which may be
    [None], and [event.put()] appends the event at the end. *)

(** What the handlers read of a GDK event. *)
Record gdk_event : Type := {
  type : Z;
  x_root : Z;
  y_root : Z;
  time : Z;
  button : Z;
  button1_mask : bool;
  mod1_mask : bool
}.

(** The [while gtk.gdk.events_pending()] loop: the current [event] and
    the list [events] of the events put aside. *)
Fixpoint drain (queue : list (option gdk_event)) (event : gdk_event)
    (events : list gdk_event) : gdk_event * list gdk_event :=
  match queue with
  | [] => (event, events)
  | queued_event :: queue' =>
      match queued_event with
      | Some queued_event =>
          if type queued_event =? type event then
            drain queue' queued_event events
          else drain queue' event (events ++ [queued_event])
      | None => drain queue' event events
      end
  end.

(** [for queued_event in events: queued_event.put()], on the queue the
    loop has emptied. *)
Definition put_back (events : list gdk_event) : list (option gdk_event) :=
  fold_left (fun queue queued_event => queue ++ [Some queued_event])
    events [].

(** [_get_latest_event_of_same_type(event)]: the returned event and the
    queue it leaves. *)
Definition _get_latest_event_of_same_type (event : gdk_event)
    (queue : list (option gdk_event))
  : gdk_event * list (option gdk_event) :=
  let '(event', events) := drain queue event [] in
  (event', put_back events).

(** The events of a queue, [None] results left out. *)
Definition fetched (queue : list (option gdk_event)) : list gdk_event :=
  flat_map (fun q => match q with Some e => [e] | None => [] end) queue.

(** The events of the type [ty], and the others. *)
Definition of_type (ty : Z) (l : list gdk_event) : list gdk_event :=
  filter (fun e => type e =? ty) l.

Definition of_other_type (ty : Z) (l : list gdk_event) : list gdk_event :=
  filter (fun e => negb (type e =? ty)) l.

(** * Pointer events ([mouse_press_event], [mouse_release_event],
      [mouse_move_event])

    The pointer handlers use more of the application than the scrolling
    handlers: the focus attributes of the window, the cursor handler, the
    lens action, the popup menu, the screen and the GDK event queue.  A
    [Desk] holds them around the window of the scrolling handlers; the
    calls that only act on those collaborators are logged.  Root
    coordinates are integers.  The handler's pointer attributes are passed
    from call to call as a [Pointer]. *)

(** [constants.NORMAL_CURSOR] and [constants.GRAB_CURSOR]. *)
Inductive cursor : Type := NORMAL_CURSOR | GRAB_CURSOR.

Inductive ui_call : Type :=
| SetCursorType (c : cursor)
| CursorRefresh
| LensSetActive (b : bool)
| Popup (button time : Z)
| ShowInfoPanel
| WarpPointer (x y : Z).

Record Desk (W0 : Type) : Type := {
  page_view : W0;
  is_in_focus : bool;
  was_out_of_focus : bool;
  screen_size : Z * Z;
  event_queue : list (option gdk_event);
  ui_calls : list ui_call
}.
Arguments page_view {W0} d.
Arguments is_in_focus {W0} d.
Arguments was_out_of_focus {W0} d.
Arguments screen_size {W0} d.
Arguments event_queue {W0} d.
Arguments ui_calls {W0} d.

(** The desk with its window replaced. *)
Definition with_page_view {W0 : Type} (d : Desk W0) (v : W0) : Desk W0 :=
  {| page_view := v; is_in_focus := is_in_focus d;
     was_out_of_focus := was_out_of_focus d;
     screen_size := screen_size d; event_queue := event_queue d;
     ui_calls := ui_calls d |}.

#[export] Instance Desk_Window (W0 : Type) `{Window W0} : Window (Desk W0) := {
  scroll := fun x y bound d =>
    let '(r, v) := scroll x y bound (page_view d) in (r, with_page_view d v);
  scroll_to_fixed := fun h v d =>
    let '(r, v') := scroll_to_fixed h v (page_view d) in
    (r, with_page_view d v');
  next_page := fun d => with_page_view d (next_page (page_view d));
  previous_page := fun d => with_page_view d (previous_page (page_view d));
  displayed_double := fun d => displayed_double (page_view d);
  is_on_first_page := fun d => is_on_first_page (page_view d);
  is_manga_mode := fun d => is_manga_mode (page_view d);
  get_visible_area_size := fun d => get_visible_area_size (page_view d);
  is_scrollable_vertically := fun d => is_scrollable_vertically (page_view d)
}.

(** The pointer attributes of [EventHandler]; [_drag_timer] exists once a
    drag has set it. *)
Record Pointer : Type := {
  _last_pointer_pos_x : Z;
  _last_pointer_pos_y : Z;
  _pressed_pointer_pos_x : Z;
  _pressed_pointer_pos_y : Z;
  _drag_timer : option Z
}.

(** The pointer attributes [EventHandler.__init__] sets. *)
Definition init_pointer : Pointer :=
  {| _last_pointer_pos_x := 0; _last_pointer_pos_y := 0;
     _pressed_pointer_pos_x := 0; _pressed_pointer_pos_y := 0;
     _drag_timer := None |}.

Section Pointer_events.

Context {W0 : Type} `{Window W0}.
Variable prefs : Prefs.

(** [prefs['wrap mouse scroll']]. *)
Variable wrap_mouse_scroll : bool.

(** A change of the desk around the window. *)
Definition on_desk (f : Desk W0 -> Desk W0) : M (Desk W0) unit :=
  fun w => Done tt {| handler := handler w; window := f (window w);
                      calls := calls w |}.

(** A logged call on one of the collaborators. *)
Definition ui (c : ui_call) : M (Desk W0) unit :=
  on_desk (fun d =>
    {| page_view := page_view d; is_in_focus := is_in_focus d;
       was_out_of_focus := was_out_of_focus d;
       screen_size := screen_size d; event_queue := event_queue d;
       ui_calls := ui_calls d ++ [c] |}).

(** [self._window.was_out_of_focus = b]. *)
Definition set_was_out_of_focus (b : bool) : M (Desk W0) unit :=
  on_desk (fun d =>
    {| page_view := page_view d; is_in_focus := is_in_focus d;
       was_out_of_focus := b;
       screen_size := screen_size d; event_queue := event_queue d;
       ui_calls := ui_calls d |}).

(** [_get_latest_event_of_same_type(event)] on the desk's queue. *)
Definition latest_event (event : gdk_event) : M (Desk W0) gdk_event :=
  fun w =>
    let '(event', queue') :=
      _get_latest_event_of_same_type event (event_queue (window w)) in
    Done event'
      {| handler := handler w;
         window :=
           {| page_view := page_view (window w);
              is_in_focus := is_in_focus (window w);
              was_out_of_focus := was_out_of_focus (window w);
              screen_size := screen_size (window w);
              event_queue := queue';
              ui_calls := ui_calls (window w) |};
         calls := calls w |}.

Definition mouse_press_event (event : gdk_event) (p : Pointer)
  : M (Desk W0) Pointer :=
  if button event =? 1 then
    ret {| _pressed_pointer_pos_x := x_root event;
           _pressed_pointer_pos_y := y_root event;
           _last_pointer_pos_x := x_root event;
           _last_pointer_pos_y := y_root event;
           _drag_timer := _drag_timer p |}
  else if button event =? 2 then
    ui (LensSetActive true) ;; ret p
  else if (button event =? 3) && negb (mod1_mask event) then
    ui (SetCursorType NORMAL_CURSOR) ;;
    ui (Popup (button event) (time event)) ;;
    ret p
  else if button event =? 4 then
    ui ShowInfoPanel ;; ret p
  else ret p.

Definition mouse_release_event (event : gdk_event) (p : Pointer)
  : M (Desk W0) Pointer :=
  ui (SetCursorType NORMAL_CURSOR) ;;
  if button event =? 1 then
    out_of_focus <- ask was_out_of_focus ;;
    if (x_root event =? _pressed_pointer_pos_x p)
       && (y_root event =? _pressed_pointer_pos_y p)
       && negb out_of_focus
    then window_next_page ;; ret p
    else set_was_out_of_focus false ;; ret p
  else if button event =? 2 then
    ui (LensSetActive false) ;; ret p
  else if (button event =? 3) && mod1_mask event then
    _previous_page_with_protection prefs ;; ret p
  else ret p.

(** The pointer attributes with the last seen position replaced. *)
Definition with_last (p : Pointer) (x y : Z) : Pointer :=
  {| _last_pointer_pos_x := x; _last_pointer_pos_y := y;
     _pressed_pointer_pos_x := _pressed_pointer_pos_x p;
     _pressed_pointer_pos_y := _pressed_pointer_pos_y p;
     _drag_timer := _drag_timer p |}.

Definition with_drag_timer (p : Pointer) (t : Z) : Pointer :=
  {| _last_pointer_pos_x := _last_pointer_pos_x p;
     _last_pointer_pos_y := _last_pointer_pos_y p;
     _pressed_pointer_pos_x := _pressed_pointer_pos_x p;
     _pressed_pointer_pos_y := _pressed_pointer_pos_y p;
     _drag_timer := Some t |}.

Definition mouse_move_event (event : gdk_event) (p : Pointer)
  : M (Desk W0) Pointer :=
  in_focus <- ask is_in_focus ;;
  (if negb in_focus then set_was_out_of_focus true
   else set_was_out_of_focus false) ;;
  event <- latest_event event ;;
  if button1_mask event then
    ui (SetCursorType GRAB_CURSOR) ;;
    scrolled <- window_scroll (_last_pointer_pos_x p - x_root event)
                  (_last_pointer_pos_y p - y_root event) None ;;
    moved <-
      (if wrap_mouse_scroll && scrolled then
         size <- ask screen_size ;;
         let warp_x0 := 0 in
         let warp_y0 := 0 in
         let warp_x1 := fst size in
         let warp_y1 := snd size in
         let new_x := _valwarp (x_root event) warp_x1 warp_x0 3 2 in
         let new_y := _valwarp (y_root event) warp_y1 warp_y0 3 2 in
         event' <-
           (if negb (new_x =? x_root event) || negb (new_y =? y_root event)
            then ui (WarpPointer new_x new_y) ;; latest_event event
            else ret event) ;;
         ret (with_last p new_x new_y, event')
       else ret (with_last p (x_root event) (y_root event), event)) ;;
    ret (with_drag_timer (fst moved) (time (snd moved)))
  else
    ui CursorRefresh ;; ret p.

(** The motion events of a drag, handled one after the other. *)
Fixpoint mouse_moves (events : list gdk_event) (p : Pointer)
  : M (Desk W0) Pointer :=
  match events with
  | [] => ret p
  | event :: rest =>
      p' <- mouse_move_event event p ;;
      mouse_moves rest p'
  end.

End Pointer_events.

(** Sums of the deltas of the [scroll] calls of a log. *)
Definition scrolled_x (l : list call) : Z :=
  fold_right (fun c s => match c with Scroll x _ _ => x + s | _ => s end)
    0 l.

Definition scrolled_y (l : list call) : Z :=
  fold_right (fun c s => match c with Scroll _ y _ => y + s | _ => s end)
    0 l.

(** A desk around a scripted window. *)
Definition desk0 (s : Scripted) (queue : list (option gdk_event))
  : Desk Scripted :=
  {| page_view := s; is_in_focus := true; was_out_of_focus := false;
     screen_size := (1920, 1080); event_queue := queue; ui_calls := [] |}.

(** Button and motion events at a position. *)
Definition button_event (b x y : Z) : gdk_event :=
  {| type := 4; x_root := x; y_root := y; time := 0; button := b;
     button1_mask := false; mod1_mask := false |}.

Definition drag_to (x y : Z) : gdk_event :=
  {| type := 3; x_root := x; y_root := y; time := 0; button := 0;
     button1_mask := true; mod1_mask := false |}.

(** A scripted window that accepts its first scroll. *)
Definition win_scrolls : Scripted :=
  {| manga := false; double := false; on_first := true; area := (800, 600);
     scrollable_vertically := true; answers := [true] |}.

(** ** Vocabulary of the proofs *)

(** The state between two arguments. *)
Definition between (r : list OpenWith.text) : OpenWith.tokens :=
  {| OpenWith.result := r; OpenWith.buf := [];
     OpenWith.quote := false; OpenWith.escape := false |}.

(** The arguments a state stands for once the line ends. *)
Definition flushed (st : OpenWith.tokens) : list OpenWith.text :=
  if negb (length (OpenWith.buf st) =? 0)%nat
  then OpenWith.result st ++ [OpenWith.buf st]
  else OpenWith.result st.

(** A text without space, quote or percent sign. *)
Definition word (a : OpenWith.text) : Prop :=
  forallb OpenWith.plain a = true /\ OpenWith.has_space a = false.

(** A line without percent sign. *)
Definition no_percent (line : OpenWith.text) : Prop :=
  forallb (fun c => negb (Ascii.eqb c OpenWith.percent)) line = true.

(** Number of quote characters of a line. *)
Definition quotes (line : OpenWith.text) : nat :=
  count_occ Ascii.ascii_dec line OpenWith.dquote.

(** An argument that is not empty and holds no space. *)
Definition solid (a : OpenWith.text) : Prop :=
  a <> [] /\ OpenWith.has_space a = false.

(** Any character but the space. *)
Definition not_space (c : Ascii.ascii) : bool :=
  negb (Ascii.eqb c OpenWith.space).


(** [m] ends normally and preserves [I]. *)
Definition keeps {W : Type} (I : World W -> Prop) {A : Type} (m : M W A)
  : Prop :=
  forall w, I w -> exists a w', m w = Done a w' /\ I w'.

(** [m] ends normally in a world satisfying [Q], from any world. *)
Definition after {W A : Type} (m : M W A) (Q : World W -> Prop) : Prop :=
  forall w, exists a w', m w = Done a w' /\ Q w'.

(** The protection flag has value [b]. *)
Definition flag {W : Type} (b : bool) (w : World W) : Prop :=
  _scroll_protection (handler w) = b.

(** Two worlds of the scripted window that differ only in the reading
    order, the first one in manga mode, with mirrored call logs. *)
Definition mirrored (wm wn : World Scripted) : Prop :=
  handler wm = handler wn /\
  calls wm = map mirror (calls wn) /\
  exists s, window wm = with_manga true s /\ window wn = with_manga false s.

(** Two runs give the same result in mirrored worlds. *)
Definition rel {A : Type} (om on : outcome Scripted A) : Prop :=
  match om, on with
  | Done a wm, Done a' wn => a = a' /\ mirrored wm wn
  | _, _ => False
  end.

Definition sim {A : Type} (m m' : M Scripted A) : Prop :=
  forall wm wn, mirrored wm wn -> rel (m wm) (m' wn).

(** Steps that differ by the sign of the horizontal ones. *)
Definition opposite_x (sm sn : steps) : Prop :=
  x_step_small sm = - x_step_small sn /\
  x_step_large sm = - x_step_large sn /\
  y_step_small sm = y_step_small sn /\
  y_step_large sm = y_step_large sn.

(** From a world satisfying [P], [m] ends normally with a value and a
    world satisfying [Q]. *)
Definition hoare {W A : Type} (P : World W -> Prop) (m : M W A)
    (Q : A -> World W -> Prop) : Prop :=
  forall w, P w -> exists a w', m w = Done a w' /\ Q a w'.

(** [n] runs of [m] in a row. *)
Fixpoint times {W A : Type} (n : nat) (m : M W A) : M W unit :=
  match n with
  | O => ret tt
  | S k => m ;; times k m
  end.

(** The calls that move the viewport within the page. *)
Definition is_scrolling (c : call) : bool :=
  match c with
  | Scroll _ _ _ | ScrollToFixed _ _ => true
  | _ => false
  end.

(** The local variable [forwards_scroll] of [_scroll_with_flipping]. *)
Definition forwards_scroll (x y : Z) (is_manga : bool) : bool :=
  (y >? 0) || (is_manga && (x <? 0)) || (negb is_manga && (x >? 0)).

(** The page call of a flip in the given direction. *)
Definition flip_call (forwards : bool) : call :=
  if forwards then NextPage else PreviousPage.

(** Key events bound to the arrow-key scrolls and wheel events. *)
Definition down_key : key_event :=
  {| binding := Some cb_scroll_down;
     is_control := false; kills_signal := true |}.

Definition wheel_tick_down : scroll_event :=
  {| button2_mask := false; direction := SCROLL_DOWN |}.

(** Numbers of page flips in the log of a world. *)
Definition flips_next {W : Type} (w : World W) : nat :=
  count is_next_page (calls w).

Definition flips_previous {W : Type} (w : World W) : nat :=
  count is_previous_page (calls w).

(** A gesture that the debounce absorbs below the threshold and that
    flips forward at the threshold, on the window [win]. *)
Definition debounced_forward {W A : Type} `{Window W} (prefs : Prefs)
    (win : W) (m : M W A) : Prop :=
  forall w, window w = win -> 0 <= _extra_scroll_events (handler w) ->
  exists a w',
    m w = Done a w' /\
    flips_previous w' = flips_previous w /\
    (_extra_scroll_events (handler w)
       < number_of_key_presses_before_page_turn prefs - 1 ->
     _extra_scroll_events (handler w')
       = _extra_scroll_events (handler w) + 1 /\
     window w' = win /\ flips_next w' = flips_next w) /\
    (number_of_key_presses_before_page_turn prefs - 1
       <= _extra_scroll_events (handler w) ->
     _extra_scroll_events (handler w') = 0 /\
     window w' = next_page win /\ flips_next w' = S (flips_next w)).

(** A step that leaves the window, the counter and the flips alone. *)
Definition quiet {W A : Type} (m : M W A) : Prop :=
  forall w, exists a w',
    m w = Done a w' /\ window w' = window w /\
    _extra_scroll_events (handler w') = _extra_scroll_events (handler w) /\
    flips_next w' = flips_next w /\ flips_previous w' = flips_previous w.

(** The log of [v] is the log of [w0] followed by scrolling calls. *)
Definition scrolled_since {W : Type} (w0 v : World W) : Prop :=
  exists pre,
    calls v = calls w0 ++ pre /\ forallb is_scrolling pre = true.

(** The log of [v] is the log of [w0] followed by scrolling calls and
    then by at most one call, [flip]. *)
Definition flipped_at_most_once {W : Type} (flip : call) (w0 v : World W)
  : Prop :=
  exists pre tail,
    calls v = calls w0 ++ pre ++ tail /\
    forallb is_scrolling pre = true /\
    (tail = [] \/ tail = [flip]).

(** A protected gesture in progress on the window [win], at a page edge:
    nothing but refused scrolls happened since [w0]. *)
Definition at_edge {W : Type} (win : W) (w0 v : World W) : Prop :=
  window v = win /\
  _scroll_protection (handler v) = true /\
  _extra_scroll_events (handler v) = _extra_scroll_events (handler w0) /\
  flips_next v = flips_next w0 /\
  flips_previous v = flips_previous w0.

(** What a debounced forward gesture leaves, from the world [w0]. *)
Definition debounced_outcome {W : Type} `{Window W} (prefs : Prefs)
    (win : W) (w0 w' : World W) : Prop :=
  flips_previous w' = flips_previous w0 /\
  (_extra_scroll_events (handler w0)
     < number_of_key_presses_before_page_turn prefs - 1 ->
   _extra_scroll_events (handler w')
     = _extra_scroll_events (handler w0) + 1 /\
   window w' = win /\ flips_next w' = flips_next w0) /\
  (number_of_key_presses_before_page_turn prefs - 1
     <= _extra_scroll_events (handler w0) ->
   _extra_scroll_events (handler w') = 0 /\
   window w' = next_page win /\ flips_next w' = S (flips_next w0)).

(** No page was flipped between [w0] and [v]. *)
Definition unflipped {W : Type} (w0 v : World W) : Prop :=
  flips_next v = flips_next w0 /\ flips_previous v = flips_previous w0.

(** The callbacks that scroll and may flip at the end of the page. *)
Definition is_scroll_gesture (cb : callback) : bool :=
  match cb with
  | cb_scroll_down | cb_scroll_up | cb_scroll_right | cb_scroll_left
  | cb_smart_scroll_down | cb_smart_scroll_up => true
  | _ => false
  end.

(** An unprotected gesture in progress on the window [win], at a page
    edge: nothing but refused scrolls happened since [w0]. *)
Definition at_free_edge {W : Type} (win : W) (w0 v : World W) : Prop :=
  window v = win /\
  _scroll_protection (handler v) = false /\
  flips_next v = flips_next w0 /\
  flips_previous v = flips_previous w0.

(** One forward flip happened since [w0], on the window [win], and the
    counter is back to 0. *)
Definition flipped_forward {W : Type} `{Window W} (win : W)
    (w0 w' : World W) : Prop :=
  _extra_scroll_events (handler w') = 0 /\
  window w' = next_page win /\
  flips_next w' = S (flips_next w0) /\
  flips_previous w' = flips_previous w0.

Definition space_key_event : key_event :=
  {| binding := Some cb_smart_scroll_down;
     is_control := false; kills_signal := true |}.

Definition wheel_tick_up : scroll_event :=
  {| button2_mask := false; direction := SCROLL_UP |}.

(** The log of [v] begins with the calls [l]. *)
Definition starts_with {W : Type} (l : list call) (v : World W) : Prop :=
  exists rest, calls v = l ++ rest.

(** The steps a smart scroll works with on the window [win]: the result of
    [smart_steps]. *)
Definition steps_on {W : Type} `{Window W} (prefs : Prefs)
    (small_step : option Z) (win : W) : steps :=
  manga_steps (is_manga_mode win)
    (step_sizes prefs (fst (get_visible_area_size win))
       (snd (get_visible_area_size win)) small_step).

(** The [bound] argument of the horizontal attempt of a smart scroll: the
    half of a double page that is in view, none on a single page. *)
Definition primary_bound {W : Type} `{Window W} (win : W) : option subpage :=
  if displayed_double win then
    Some (if is_on_first_page win then first else second)
  else None.

(** * Properties *)

(** ** The page-flip protector *)

Section Protector.

Context {W : Type} `{Window W}.
Variable prefs : Prefs.

(** The three ways [_next_page_with_protection] ends. *)
Lemma next_page_cases (w : World W) :
  (flip_with_wheel prefs = false /\
   _next_page_with_protection prefs w = Done false (with_extra 0 w)) \/
  (flip_with_wheel prefs = true /\ next_flip_now prefs w = true /\
   _next_page_with_protection prefs w = Done true (flipped_next w)) \/
  (flip_with_wheel prefs = true /\ next_flip_now prefs w = false /\
   _scroll_protection (handler w) = true /\
   _next_page_with_protection prefs w =
     Done false
       (with_extra (Z.max 1 (_extra_scroll_events (handler w) + 1)) w)).
Proof.
  unfold _next_page_with_protection.
  destruct (flip_with_wheel prefs); simpl.
  - destruct (next_flip_now prefs w) eqn:E.
    + right; left. repeat split.
    + right; right. unfold next_flip_now in E.
      destruct (_scroll_protection (handler w)); simpl in E.
      * repeat split.
      * discriminate E.
  - left. repeat split.
Qed.

(** The three ways [_previous_page_with_protection] ends. *)
Lemma previous_page_cases (w : World W) :
  (flip_with_wheel prefs = false /\
   _previous_page_with_protection prefs w = Done false (with_extra 0 w)) \/
  (flip_with_wheel prefs = true /\ previous_flip_now prefs w = true /\
   _previous_page_with_protection prefs w = Done true (flipped_previous w)) \/
  (flip_with_wheel prefs = true /\ previous_flip_now prefs w = false /\
   _scroll_protection (handler w) = true /\
   _previous_page_with_protection prefs w =
     Done false
       (with_extra (Z.min (-1) (_extra_scroll_events (handler w) - 1)) w)).
Proof.
  unfold _previous_page_with_protection.
  destruct (flip_with_wheel prefs); simpl.
  - destruct (previous_flip_now prefs w) eqn:E.
    + right; left. repeat split.
    + right; right. unfold previous_flip_now in E.
      destruct (_scroll_protection (handler w)); simpl in E.
      * repeat split.
      * discriminate E.
  - left. repeat split.
Qed.

(** The protector's operations only ever write the counter. *)
Lemma with_extra_fields (n : Z) (w : World W) :
  _extra_scroll_events (handler (with_extra n w)) = n /\
  _scroll_protection (handler (with_extra n w)) =
    _scroll_protection (handler w) /\
  _last_scroll_was_direction_1 (handler (with_extra n w)) =
    _last_scroll_was_direction_1 (handler w) /\
  window (with_extra n w) = window w /\
  calls (with_extra n w) = calls w.
Proof. repeat split. Qed.

Lemma with_extra_twice (n m : Z) (w : World W) :
  with_extra n (with_extra m w) = with_extra n w.
Proof. reflexivity. Qed.

Lemma with_extra_same (w : World W) :
  with_extra (_extra_scroll_events (handler w)) w = w.
Proof. destruct w as [[e p l] win cs]. reflexivity. Qed.

(** C8.  With ['flip with wheel'] off, both flip operations return [False],
    leave the counter at 0 whatever it was, and call no method of the
    window: the call log and the window are as before. *)
Theorem flip_disabled_never_flips (w : World W) :
  flip_with_wheel prefs = false ->
  (_next_page_with_protection prefs w = Done false (with_extra 0 w) /\
   _previous_page_with_protection prefs w = Done false (with_extra 0 w)) /\
  _extra_scroll_events (handler (with_extra 0 w)) = 0 /\
  calls (with_extra 0 w) = calls w /\
  window (with_extra 0 w) = window w.
Proof.
  intros Hoff.
  unfold _next_page_with_protection, _previous_page_with_protection.
  rewrite Hoff. simpl. repeat split.
Qed.

(** C9.  In both flip operations the last [else] is dead code: whenever the
    "flip now" guard is false the protection flag is set, so the
    [elif self._scroll_protection] branch is taken, and neither operation
    ever ends in the assertion failure. *)
Theorem assert_branch_unreachable (w : World W) :
  (next_flip_now prefs w || _scroll_protection (handler w) = true) /\
  (previous_flip_now prefs w || _scroll_protection (handler w) = true) /\
  (forall w', _next_page_with_protection prefs w <> AssertionError w') /\
  (forall w', _previous_page_with_protection prefs w <> AssertionError w').
Proof.
  split; [|split; [|split]].
  - unfold next_flip_now.
    destruct (_scroll_protection (handler w)); [apply orb_true_r | reflexivity].
  - unfold previous_flip_now.
    destruct (_scroll_protection (handler w)); [apply orb_true_r | reflexivity].
  - intros w' E.
    destruct (next_page_cases w) as [[_ R]|[[_ [_ R]]|[_ [_ [_ R]]]]];
      rewrite R in E; discriminate E.
  - intros w' E.
    destruct (previous_page_cases w) as [[_ R]|[[_ [_ R]]|[_ [_ [_ R]]]]];
      rewrite R in E; discriminate E.
Qed.

(** C10 (amended).  For a threshold of at least 1, every call of a flip
    operation leaves the counter within [max(1, threshold - 1)] of zero.
    With ['flip with wheel'] on, a forward call that returns [False] was
    made under protection and leaves the counter at 1 or more, and a
    backward call that returns [False] leaves it at -1 or less. *)
Theorem counter_bound_and_sign (w : World W) :
  1 <= number_of_key_presses_before_page_turn prefs ->
  let n := _next_page_with_protection prefs w in
  let p := _previous_page_with_protection prefs w in
  Z.abs (_extra_scroll_events (handler (final n)))
    <= Z.max 1 (number_of_key_presses_before_page_turn prefs - 1) /\
  Z.abs (_extra_scroll_events (handler (final p)))
    <= Z.max 1 (number_of_key_presses_before_page_turn prefs - 1) /\
  (flip_with_wheel prefs = true -> result n = Some false ->
   _scroll_protection (handler w) = true /\
   1 <= _extra_scroll_events (handler (final n))) /\
  (flip_with_wheel prefs = true -> result p = Some false ->
   _scroll_protection (handler w) = true /\
   _extra_scroll_events (handler (final p)) <= -1).
Proof.
  intros HN n p. subst n p.
  split; [|split; [|split]].
  - destruct (next_page_cases w) as [[_ R]|[[_ [_ R]]|[_ [F [_ R]]]]];
      rewrite R; simpl; try lia.
    unfold next_flip_now in F.
    apply orb_false_elim in F. destruct F as [F _].
    apply orb_false_elim in F. destruct F as [_ F].
    rewrite Z.geb_leb in F. apply Z.leb_gt in F. lia.
  - destruct (previous_page_cases w) as [[_ R]|[[_ [_ R]]|[_ [F [_ R]]]]];
      rewrite R; simpl; try lia.
    unfold previous_flip_now in F.
    apply orb_false_elim in F. destruct F as [F _].
    apply orb_false_elim in F. destruct F as [_ F].
    apply Z.leb_gt in F. lia.
  - intros Hon.
    destruct (next_page_cases w) as [[Hoff _]|[[_ [_ R]]|[_ [_ [P R]]]]].
    + congruence.
    + rewrite R. discriminate.
    + rewrite R. simpl. intros _. split; [exact P | lia].
  - intros Hon.
    destruct (previous_page_cases w) as [[Hoff _]|[[_ [_ R]]|[_ [_ [P R]]]]].
    + congruence.
    + rewrite R. discriminate.
    + rewrite R. simpl. intros _. split; [exact P | lia].
Qed.

(** *** Series of attempts *)

Section Series.

Hypothesis flip_on : flip_with_wheel prefs = true.

Variable w : World W.
Hypothesis protection_on : _scroll_protection (handler w) = true.
Hypothesis room : is_scrollable_vertically (window w) = true.

Lemma next_flip_now_with_extra (c : Z) :
  next_flip_now prefs (with_extra c w) =
    (c >=? number_of_key_presses_before_page_turn prefs - 1).
Proof.
  unfold next_flip_now. simpl. rewrite protection_on, room. simpl.
  apply orb_false_r.
Qed.

Lemma previous_flip_now_with_extra (c : Z) :
  previous_flip_now prefs (with_extra c w) =
    (c <=? - number_of_key_presses_before_page_turn prefs + 1).
Proof.
  unfold previous_flip_now. simpl. rewrite protection_on, room. simpl.
  apply orb_false_r.
Qed.

Lemma next_accumulates (c : Z) :
  c < number_of_key_presses_before_page_turn prefs - 1 ->
  _next_page_with_protection prefs (with_extra c w) =
    Done false (with_extra (Z.max 1 (c + 1)) w).
Proof.
  intros Hc.
  destruct (next_page_cases (with_extra c w))
    as [[Hoff _]|[[_ [F _]]|[_ [_ [_ R]]]]].
  - congruence.
  - rewrite next_flip_now_with_extra, Z.geb_leb in F.
    apply Z.leb_le in F. lia.
  - exact R.
Qed.

Lemma previous_accumulates (c : Z) :
  - number_of_key_presses_before_page_turn prefs + 1 < c ->
  _previous_page_with_protection prefs (with_extra c w) =
    Done false (with_extra (Z.min (-1) (c - 1)) w).
Proof.
  intros Hc.
  destruct (previous_page_cases (with_extra c w))
    as [[Hoff _]|[[_ [F _]]|[_ [_ [_ R]]]]].
  - congruence.
  - rewrite previous_flip_now_with_extra in F. apply Z.leb_le in F. lia.
  - exact R.
Qed.

Lemma next_flips (c : Z) :
  number_of_key_presses_before_page_turn prefs - 1 <= c ->
  _next_page_with_protection prefs (with_extra c w) =
    Done true (flipped_next w).
Proof.
  intros Hc.
  destruct (next_page_cases (with_extra c w))
    as [[Hoff _]|[[_ [_ R]]|[_ [F _]]]].
  - congruence.
  - exact R.
  - rewrite next_flip_now_with_extra, Z.geb_leb in F.
    apply Z.leb_gt in F. lia.
Qed.

Lemma previous_flips (c : Z) :
  c <= - number_of_key_presses_before_page_turn prefs + 1 ->
  _previous_page_with_protection prefs (with_extra c w) =
    Done true (flipped_previous w).
Proof.
  intros Hc.
  destruct (previous_page_cases (with_extra c w))
    as [[Hoff _]|[[_ [_ R]]|[_ [F _]]]].
  - congruence.
  - exact R.
  - rewrite previous_flip_now_with_extra in F. apply Z.leb_gt in F. lia.
Qed.

(** [k] absorbed forward attempts from a counter [c >= 0]. *)
Lemma forward_absorbed (k : nat) : forall c : Z,
  0 <= c ->
  c + Z.of_nat k <= number_of_key_presses_before_page_turn prefs - 1 ->
  attempts (_next_page_with_protection prefs) k (with_extra c w) =
    Done (repeat false k) (with_extra (c + Z.of_nat k) w).
Proof.
  induction k as [|k IH]; intros c H0 Hk.
  - simpl. unfold ret. f_equal. f_equal. lia.
  - cbn [attempts repeat]. unfold bind at 1.
    rewrite next_accumulates by lia.
    replace (Z.max 1 (c + 1)) with (c + 1) by lia.
    unfold bind at 1. rewrite IH by lia.
    unfold ret. f_equal. f_equal. lia.
Qed.

(** [k] absorbed backward attempts from a counter [c <= 0]. *)
Lemma backward_absorbed (k : nat) : forall c : Z,
  c <= 0 ->
  - number_of_key_presses_before_page_turn prefs + 1 <= c - Z.of_nat k ->
  attempts (_previous_page_with_protection prefs) k (with_extra c w) =
    Done (repeat false k) (with_extra (c - Z.of_nat k) w).
Proof.
  induction k as [|k IH]; intros c H0 Hk.
  - simpl. unfold ret. f_equal. f_equal. lia.
  - cbn [attempts repeat]. unfold bind at 1.
    rewrite previous_accumulates by lia.
    replace (Z.min (-1) (c - 1)) with (c - 1) by lia.
    unfold bind at 1. rewrite IH by lia.
    unfold ret. f_equal. f_equal. lia.
Qed.

(** The attempt after [k] absorbed ones flips when [k = threshold - 1]. *)
Lemma forward_series (k : nat) :
  Z.of_nat k = number_of_key_presses_before_page_turn prefs - 1 ->
  attempts (_next_page_with_protection prefs) (S k) (with_extra 0 w) =
    Done (repeat false k ++ [true]) (flipped_next w).
Proof.
  intros Hk.
  assert (G : forall (j : nat) (c : Z), 0 <= c ->
    c + Z.of_nat j = number_of_key_presses_before_page_turn prefs - 1 ->
    attempts (_next_page_with_protection prefs) (S j) (with_extra c w) =
      Done (repeat false j ++ [true]) (flipped_next w)).
  { induction j as [|j IH]; intros c H0 Hj.
    - cbn [attempts repeat app]. unfold bind at 1.
      rewrite next_flips by lia. reflexivity.
    - change (attempts (_next_page_with_protection prefs) (S (S j)))
        with (b <- _next_page_with_protection prefs ;;
              bs <- attempts (_next_page_with_protection prefs) (S j) ;;
              ret (b :: bs)).
      unfold bind at 1. rewrite next_accumulates by lia.
      replace (Z.max 1 (c + 1)) with (c + 1) by lia.
      unfold bind at 1. rewrite IH by lia. reflexivity. }
  apply G; lia.
Qed.

Lemma backward_series (k : nat) :
  Z.of_nat k = number_of_key_presses_before_page_turn prefs - 1 ->
  attempts (_previous_page_with_protection prefs) (S k) (with_extra 0 w) =
    Done (repeat false k ++ [true]) (flipped_previous w).
Proof.
  intros Hk.
  assert (G : forall (j : nat) (c : Z), c <= 0 ->
    c - Z.of_nat j = - number_of_key_presses_before_page_turn prefs + 1 ->
    attempts (_previous_page_with_protection prefs) (S j) (with_extra c w) =
      Done (repeat false j ++ [true]) (flipped_previous w)).
  { induction j as [|j IH]; intros c H0 Hj.
    - cbn [attempts repeat app]. unfold bind at 1.
      rewrite previous_flips by lia. reflexivity.
    - change (attempts (_previous_page_with_protection prefs) (S (S j)))
        with (b <- _previous_page_with_protection prefs ;;
              bs <- attempts (_previous_page_with_protection prefs) (S j) ;;
              ret (b :: bs)).
      unfold bind at 1. rewrite previous_accumulates by lia.
      replace (Z.min (-1) (c - 1)) with (c - 1) by lia.
      unfold bind at 1. rewrite IH by lia. reflexivity. }
  apply G; lia.
Qed.

End Series.

(** Without vertical scroll room an attempt flips at once, whatever the
    counter and the protection flag. *)
Lemma flips_without_room (w : World W) (c : Z) :
  flip_with_wheel prefs = true ->
  is_scrollable_vertically (window w) = false ->
  _next_page_with_protection prefs (with_extra c w) =
    Done true (flipped_next w) /\
  _previous_page_with_protection prefs (with_extra c w) =
    Done true (flipped_previous w).
Proof.
  intros Hon Hroom. split.
  - destruct (next_page_cases (with_extra c w))
      as [[Hoff _]|[[_ [_ R]]|[_ [F _]]]].
    + congruence.
    + exact R.
    + unfold next_flip_now in F. simpl in F. rewrite Hroom in F.
      rewrite orb_true_r in F. discriminate F.
  - destruct (previous_page_cases (with_extra c w))
      as [[Hoff _]|[[_ [_ R]]|[_ [F _]]]].
    + congruence.
    + exact R.
    + unfold previous_flip_now in F. simpl in F. rewrite Hroom in F.
      rewrite orb_true_r in F. discriminate F.
Qed.

(** C1 (amended).  With ['flip with wheel'] on, a threshold [N >= 1] and
    protection active.  On a page that is scrollable vertically and from a
    counter at 0: each of the first [N - 1] consecutive forward attempts
    returns [False] and leaves the counter at the number of attempts made
    so far, the [N]-th flips (one [next_page], counter back to 0); the same
    holds backward with negative counters and [previous_page]; and an
    attempt against an accumulated counter of the other sign returns
    [False] and sets the counter to 1 in the new direction (1 forward, -1
    backward).  On a page with no vertical scroll room there is no
    debounce: from every counter the attempt flips at once, forward with
    one [next_page] and backward with one [previous_page], and the counter
    is back to 0. *)
Theorem debounce_requires_threshold_attempts (w : World W) :
  flip_with_wheel prefs = true ->
  1 <= number_of_key_presses_before_page_turn prefs ->
  _scroll_protection (handler w) = true ->
  (is_scrollable_vertically (window w) = true ->
   _extra_scroll_events (handler w) = 0 ->
   (forall k : nat,
      Z.of_nat k <= number_of_key_presses_before_page_turn prefs - 1 ->
      attempts (_next_page_with_protection prefs) k w =
        Done (repeat false k) (with_extra (Z.of_nat k) w) /\
      attempts (_previous_page_with_protection prefs) k w =
        Done (repeat false k) (with_extra (- Z.of_nat k) w)) /\
   (forall k : nat,
      Z.of_nat k = number_of_key_presses_before_page_turn prefs - 1 ->
      attempts (_next_page_with_protection prefs) (S k) w =
        Done (repeat false k ++ [true]) (flipped_next w) /\
      attempts (_previous_page_with_protection prefs) (S k) w =
        Done (repeat false k ++ [true]) (flipped_previous w)) /\
   (forall c : Z, 0 < c ->
      _previous_page_with_protection prefs (with_extra c w) =
        Done false (with_extra (-1) w)) /\
   (forall c : Z, c < 0 ->
      _next_page_with_protection prefs (with_extra c w) =
        Done false (with_extra 1 w))) /\
  (is_scrollable_vertically (window w) = false ->
   forall c : Z,
     _next_page_with_protection prefs (with_extra c w) =
       Done true (flipped_next w) /\
     _previous_page_with_protection prefs (with_extra c w) =
       Done true (flipped_previous w)) /\
  _extra_scroll_events (handler (flipped_next w)) = 0 /\
  calls (flipped_next w) = calls w ++ [NextPage] /\
  _extra_scroll_events (handler (flipped_previous w)) = 0 /\
  calls (flipped_previous w) = calls w ++ [PreviousPage].
Proof.
  intros Hon HN Hp.
  split; [|split; [|repeat split]].
  - intros Hroom H0.
    assert (E : with_extra 0 w = w)
      by (rewrite <- H0; apply with_extra_same).
    repeat split.
    + rewrite <- E at 1.
      rewrite (forward_absorbed Hon w Hp Hroom k 0) by lia.
      reflexivity.
    + rewrite <- E at 1.
      rewrite (backward_absorbed Hon w Hp Hroom k 0) by lia.
      reflexivity.
    + rewrite <- E at 1. apply forward_series; assumption.
    + rewrite <- E at 1. apply backward_series; assumption.
    + intros c Hc.
      rewrite (previous_accumulates Hon w Hp Hroom) by lia.
      f_equal. f_equal. lia.
    + intros c Hc.
      rewrite (next_accumulates Hon w Hp Hroom) by lia.
      f_equal. f_equal. lia.
  - intros Hroom c. apply flips_without_room; assumption.
Qed.

End Protector.

(** The threshold-3 scenario: three protected forward attempts at a scroll
    edge give no flip, no flip, flip; on a page that fits the window the
    first attempt flips. *)
Lemma debounce_requires_threshold_attempts_witness :
  flip_with_wheel prefs0 = true /\
  1 <= number_of_key_presses_before_page_turn prefs0 /\
  attempts (_next_page_with_protection prefs0) 3 (start (protected 0) win0) =
    Done [false; false; true] (flipped_next (start (protected 0) win0)) /\
  is_scrollable_vertically win_fits = false /\
  _next_page_with_protection prefs0 (start (protected 2) win_fits) =
    Done true (flipped_next (start (protected 0) win_fits)).
Proof.
  assert (HN : 1 <= number_of_key_presses_before_page_turn prefs0)
    by (simpl; lia).
  split; [reflexivity|]. split; [exact HN|]. split; [|split; [reflexivity|]].
  - exact (proj1 (proj1 (proj2 (proj1
             (debounce_requires_threshold_attempts prefs0
                (start (protected 0) win0) eq_refl HN eq_refl)
             eq_refl eq_refl)) 2%nat eq_refl)).
  - exact (proj1 (proj1 (proj2
             (debounce_requires_threshold_attempts prefs0
                (start (protected 0) win_fits) eq_refl HN eq_refl))
             eq_refl 2)).
Defined.

(** C1 as worded fails: protection active and no vertical scroll room
    (threshold 3, counter 0) -- the very first attempt flips. *)
Lemma debounce_without_scroll_room_counterexample :
  flip_with_wheel prefs0 = true /\
  number_of_key_presses_before_page_turn prefs0 = 3 /\
  _scroll_protection (protected 0) = true /\
  is_scrollable_vertically win_fits = false /\
  result (_next_page_with_protection prefs0 (start (protected 0) win_fits))
    <> Some false /\
  calls (final (_next_page_with_protection prefs0
                  (start (protected 0) win_fits))) = [NextPage].
Proof. repeat split. discriminate. Qed.

Lemma flip_disabled_never_flips_witness :
  flip_with_wheel prefs_no_flip = false /\
  _next_page_with_protection prefs_no_flip (start (protected 2) win0) =
    Done false (start (protected 0) win0) /\
  _previous_page_with_protection prefs_no_flip (start (protected 2) win0) =
    Done false (start (protected 0) win0).
Proof.
  split; [reflexivity|].
  exact (proj1 (flip_disabled_never_flips prefs_no_flip
                  (start (protected 2) win0) eq_refl)).
Defined.

Lemma counter_bound_and_sign_witness :
  1 <= number_of_key_presses_before_page_turn prefs0 /\
  flip_with_wheel prefs0 = true /\
  result (_next_page_with_protection prefs0 (start (protected 1) win0))
    = Some false /\
  1 <= _extra_scroll_events
         (handler (final (_next_page_with_protection prefs0
                            (start (protected 1) win0)))).
Proof.
  assert (HN : 1 <= number_of_key_presses_before_page_turn prefs0)
    by (simpl; lia).
  split; [exact HN|]. split; [reflexivity|]. split; [reflexivity|].
  exact (proj2 (proj1 (proj2 (proj2
           (counter_bound_and_sign prefs0 (start (protected 1) win0) HN)))
           eq_refl eq_refl)).
Defined.

(** C10 as worded fails: with ['flip with wheel'] off, a forward attempt
    made under protection returns [False] and leaves the counter at 0. *)
Lemma absorbed_sign_counterexample :
  _scroll_protection (protected 2) = true /\
  result (_next_page_with_protection prefs_no_flip
            (start (protected 2) win0)) = Some false /\
  ~ 1 <= _extra_scroll_events
           (handler (final (_next_page_with_protection prefs_no_flip
                              (start (protected 2) win0)))).
Proof. repeat split. simpl. lia. Qed.

(** ** Cursor warp *)

Lemma warps_false (cur maxval : Z) :
  warps cur maxval 0 3 = false <-> 3 <= cur /\ 3 <= maxval - cur.
Proof.
  unfold warps. rewrite orb_false_iff, !Z.ltb_ge. simpl. tauto.
Qed.

(** C4 (amended).  With the default [minval = 0], [tolerance = 3] and
    [extra = 2]: [_valwarp] returns [cur] when no warp occurs; and for a
    bound [maxval >= 14] and [cur] in [[0, maxval]], a warp lands strictly
    between [tolerance + extra] and [maxval - tolerance - extra], where the
    next call does not warp again. *)
Theorem valwarp_range (cur maxval : Z) :
  (warps cur maxval 0 3 = false -> _valwarp cur maxval 0 3 2 = cur) /\
  (14 <= maxval -> 0 <= cur <= maxval ->
   warps cur maxval 0 3 = true ->
   3 + 2 < _valwarp cur maxval 0 3 2 < maxval - 3 - 2 /\
   warps (_valwarp cur maxval 0 3 2) maxval 0 3 = false /\
   _valwarp (_valwarp cur maxval 0 3 2) maxval 0 3 2 =
     _valwarp cur maxval 0 3 2).
Proof.
  split.
  - intros Hw. apply warps_false in Hw.
    unfold _valwarp.
    destruct (Z.ltb_spec cur (0 + 3)); [lia|].
    destruct (Z.ltb_spec (maxval - cur) 3); [lia|]. reflexivity.
  - intros Hmax Hcur Hw.
    assert (R : 3 + 2 < _valwarp cur maxval 0 3 2 < maxval - 3 - 2).
    { unfold warps in Hw. unfold _valwarp.
      destruct (Z.ltb_spec cur (0 + 3)); [lia|].
      destruct (Z.ltb_spec (maxval - cur) 3); [lia|].
      discriminate Hw. }
    split; [exact R|].
    assert (N : warps (_valwarp cur maxval 0 3 2) maxval 0 3 = false)
      by (apply warps_false; lia).
    split; [exact N|].
    apply warps_false in N.
    generalize dependent (_valwarp cur maxval 0 3 2). intros r _ Hr.
    unfold _valwarp.
    destruct (Z.ltb_spec r (0 + 3)); [lia|].
    destruct (Z.ltb_spec (maxval - r) 3); [lia|]. reflexivity.
Qed.

Lemma valwarp_range_witness :
  14 <= 1920 /\ 0 <= 1 <= 1920 /\ warps 1 1920 0 3 = true /\
  3 + 2 < _valwarp 1 1920 0 3 2 < 1920 - 3 - 2.
Proof.
  assert (H14 : 14 <= 1920) by lia.
  assert (Hc : 0 <= 1 <= 1920) by lia.
  split; [exact H14|]. split; [exact Hc|]. split; [reflexivity|].
  exact (proj1 (proj2 (valwarp_range 1 1920) H14 Hc eq_refl)).
Defined.

(** C4 as worded fails for a small bound: on an axis of length 10 the
    cursor at 0 is warped to 2, outside the claimed range, and from there
    it is warped again. *)
Lemma valwarp_small_bound_counterexample :
  0 <= 0 <= 10 /\ warps 0 10 0 3 = true /\
  _valwarp 0 10 0 3 2 = 2 /\
  ~ (3 + 2 < _valwarp 0 10 0 3 2 < 10 - 3 - 2) /\
  warps (_valwarp 0 10 0 3 2) 10 0 3 = true.
Proof.
  split; [lia|]. split; [reflexivity|]. split; [reflexivity|].
  split; [|reflexivity]. simpl. lia.
Qed.

(** ** Step computation of smart scrolling *)

(** [int(size * distance)] rounds the product to binary64 before it
    truncates: 800 times the double nearest to 0.29 is just below 232 and
    gives 231, 1000 times the double nearest to 0.7 rounds to 700. *)
Example int_mul_rounds_then_truncates :
  int_mul 800 0.29 = 231 /\ int_mul 600 0.29 = 174 /\
  int_mul 1000 0.7 = 700 /\
  int_mul 800 0.5 = 400 /\ int_mul 600 0.5 = 300 /\
  int_mul (-7) 0.5 = -3.
Proof. repeat split. Qed.

(** C3 (amended).  With an explicit [small_step], both small steps are
    that pixel value, with or without the invert preference (exchanging
    two equal values changes nothing).  Without the invert preference the
    large steps are the visible width and height times the scroll
    fraction, [int(size * distance)] as Python computes it: the binary64
    product truncated toward zero.  With the invert preference the
    horizontal large step is the height-based value.  Both smart-scroll
    methods start from these steps, negated horizontally in manga mode. *)
Theorem explicit_small_step_sizes (prefs : Prefs) (width height s : Z) :
  let st := step_sizes prefs width height (Some s) in
  x_step_small st = s /\ y_step_small st = s /\
  (invert_smart_scroll prefs = false ->
   x_step_large st = int_mul width (smart_scroll_percentage prefs) /\
   y_step_large st = int_mul height (smart_scroll_percentage prefs)) /\
  (invert_smart_scroll prefs = true ->
   x_step_large st = int_mul height (smart_scroll_percentage prefs)) /\
  (forall (W : Type) (H : Window W) (w : World W),
     smart_steps prefs (Some s) w =
       Done (manga_steps (is_manga_mode (window w))
               (step_sizes prefs (fst (get_visible_area_size (window w)))
                  (snd (get_visible_area_size (window w))) (Some s))) w).
Proof.
  cbv zeta. split; [|split; [|split; [|split]]].
  - unfold step_sizes. destruct (invert_smart_scroll prefs); reflexivity.
  - unfold step_sizes. destruct (invert_smart_scroll prefs); reflexivity.
  - intros Hinv. unfold step_sizes. rewrite Hinv. split; reflexivity.
  - intros Hinv. unfold step_sizes. rewrite Hinv. reflexivity.
  - intros W H w. reflexivity.
Qed.

(** In an 800x600 viewport: 400 and 300 for the fraction 0.5, 231 and 174
    for the fraction 0.29. *)
Lemma explicit_small_step_sizes_witness :
  (invert_smart_scroll prefs0 = false /\
   x_step_large (step_sizes prefs0 800 600 (Some 40)) = 400 /\
   y_step_large (step_sizes prefs0 800 600 (Some 40)) = 300) /\
  (invert_smart_scroll prefs_29 = false /\
   x_step_large (step_sizes prefs_29 800 600 (Some 40)) = 231 /\
   y_step_large (step_sizes prefs_29 800 600 (Some 40)) = 174).
Proof.
  split; (split; [reflexivity|]).
  - exact (proj1 (proj2 (proj2 (explicit_small_step_sizes prefs0 800 600 40)))
             eq_refl).
  - exact (proj1 (proj2 (proj2
             (explicit_small_step_sizes prefs_29 800 600 40))) eq_refl).
Defined.

(** C3 as worded fails under the invert preference: in an 800x600
    viewport with fraction 1/2 and a wheel step of 40, the vertical large
    step is 40 and the horizontal one 300, neither being its axis' visible
    size times the fraction (300 and 400). *)
Lemma inverted_large_steps_counterexample :
  invert_smart_scroll prefs_invert = true /\
  y_step_large (step_sizes prefs_invert 800 600 (Some 40)) = 40 /\
  x_step_large (step_sizes prefs_invert 800 600 (Some 40)) = 300 /\
  y_step_large (step_sizes prefs_invert 800 600 (Some 40))
    <> int_mul 600 (smart_scroll_percentage prefs_invert) /\
  x_step_large (step_sizes prefs_invert 800 600 (Some 40))
    <> int_mul 800 (smart_scroll_percentage prefs_invert).
Proof. repeat split; discriminate. Qed.

(** ** Invariants of handler runs *)

Section Invariants.

Context {W : Type} `{Window W}.

Lemma keeps_ret (I : World W -> Prop) {A} (a : A) : keeps I (ret a).
Proof. intros w Hw. exists a, w. split; [reflexivity | exact Hw]. Qed.

Lemma keeps_bind (I : World W -> Prop) {A B} (m : M W A) (k : A -> M W B) :
  keeps I m -> (forall a, keeps I (k a)) -> keeps I (bind m k).
Proof.
  intros Hm Hk w Hw.
  destruct (Hm w Hw) as (a & w1 & E1 & I1).
  destruct (Hk a w1 I1) as (b & w2 & E2 & I2).
  exists b, w2. unfold bind. rewrite E1. split; assumption.
Qed.

Variable b : bool.

Lemma keeps_get {A} (f : EventHandler -> A) : keeps (@flag W b) (get f).
Proof. intros w Hw. eexists _, w. split; [reflexivity | exact Hw]. Qed.

Lemma keeps_ask {A} (q : W -> A) : keeps (@flag W b) (ask q).
Proof. intros w Hw. eexists _, w. split; [reflexivity | exact Hw]. Qed.

Lemma keeps_set_extra (n : Z) : keeps (@flag W b) (set_extra_scroll_events n).
Proof. intros w Hw. eexists _, _. split; [reflexivity | exact Hw]. Qed.

Lemma keeps_set_last (l : bool) :
  keeps (@flag W b) (set_last_scroll_was_direction_1 l).
Proof. intros w Hw. eexists _, _. split; [reflexivity | exact Hw]. Qed.

Lemma keeps_log (c : call) : keeps (@flag W b) (window_log c).
Proof. intros w Hw. eexists _, _. split; [reflexivity | exact Hw]. Qed.

Lemma keeps_scroll (x y : Z) (bound : option subpage) :
  keeps (@flag W b) (window_scroll x y bound).
Proof.
  intros w Hw. unfold window_scroll.
  destruct (scroll x y bound (window w)) as [r win].
  eexists _, _. split; [reflexivity | exact Hw].
Qed.

Lemma keeps_scroll_to_fixed (h : option horiz) (v : option vert) :
  keeps (@flag W b) (window_scroll_to_fixed h v).
Proof.
  intros w Hw. unfold window_scroll_to_fixed.
  destruct (scroll_to_fixed h v (window w)) as [r win].
  eexists _, _. split; [reflexivity | exact Hw].
Qed.

Lemma keeps_next_page : keeps (@flag W b) window_next_page.
Proof. intros w Hw. eexists _, _. split; [reflexivity | exact Hw]. Qed.

Lemma keeps_previous_page : keeps (@flag W b) window_previous_page.
Proof. intros w Hw. eexists _, _. split; [reflexivity | exact Hw]. Qed.

Variable prefs : Prefs.

Lemma keeps_next_page_with_protection :
  keeps (@flag W b) (_next_page_with_protection prefs).
Proof.
  intros w Hw.
  destruct (next_page_cases prefs w) as [[_ R]|[[_ [_ R]]|[_ [_ [_ R]]]]];
    rewrite R; eexists _, _; (split; [reflexivity | exact Hw]).
Qed.

Lemma keeps_previous_page_with_protection :
  keeps (@flag W b) (_previous_page_with_protection prefs).
Proof.
  intros w Hw.
  destruct (previous_page_cases prefs w)
    as [[_ R]|[[_ [_ R]]|[_ [_ [_ R]]]]];
    rewrite R; eexists _, _; (split; [reflexivity | exact Hw]).
Qed.

End Invariants.

Create HintDb keeps_flag.

#[export] Hint Resolve keeps_get keeps_ask keeps_set_extra keeps_set_last
  keeps_log keeps_scroll keeps_scroll_to_fixed keeps_next_page
  keeps_previous_page keeps_next_page_with_protection
  keeps_previous_page_with_protection : keeps_flag.

(** Walks the body of a handler: a bind splits into its two parts, a
    conditional or a match into its branches, a primitive is closed from
    the hint database. *)
Ltac keeps_walk :=
  repeat (cbv beta zeta;
    match goal with
    | |- keeps _ (bind _ _) => apply keeps_bind; [| intro]
    | |- keeps _ (ret _) => apply keeps_ret
    | |- keeps _ (if ?c then _ else _) => destruct c
    | |- keeps _ (match ?d with _ => _ end) => destruct d
    | |- keeps _ _ => solve [auto with keeps_flag]
    end).

Section Flag_lifecycle.

Context {W : Type} `{Window W}.
Variable prefs : Prefs.

Lemma after_bind {A B} (m : M W A) (k : A -> M W B) (Q : World W -> Prop) :
  after m Q -> (forall a, keeps Q (k a)) -> after (bind m k) Q.
Proof.
  intros Hm Hk w.
  destruct (Hm w) as (a & w1 & E1 & Q1).
  destruct (Hk a w1 Q1) as (r & w2 & E2 & Q2).
  exists r, w2. unfold bind. rewrite E1. split; assumption.
Qed.

Lemma after_set_scroll_protection (b : bool) :
  after (set_scroll_protection b) (@flag W b).
Proof. intros w. eexists _, _. split; reflexivity. Qed.

Lemma after_scroll_with_flipping (x y : Z) :
  after (_scroll_with_flipping prefs x y) (@flag W true).
Proof.
  unfold _scroll_with_flipping.
  apply after_bind; [apply after_set_scroll_protection | intro].
  keeps_walk.
Qed.

Section Kept.

Variable b : bool.

Lemma keeps_smart_scroll_down (small_step : option Z) :
  keeps (@flag W b) (_smart_scroll_down prefs small_step).
Proof. unfold _smart_scroll_down, smart_steps. keeps_walk. Qed.

Lemma keeps_smart_scroll_up (small_step : option Z) :
  keeps (@flag W b) (_smart_scroll_up prefs small_step).
Proof. unfold _smart_scroll_up, smart_steps. keeps_walk. Qed.

(** The callbacks that do not go through [_scroll_with_flipping] leave the
    flag alone. *)
Lemma keeps_run_callback (cb : callback) :
  sets_protection cb = false -> keeps (@flag W b) (run_callback prefs cb).
Proof.
  destruct cb; simpl; intros E; try discriminate E; keeps_walk;
    auto using keeps_smart_scroll_down, keeps_smart_scroll_up.
Qed.

End Kept.

Lemma after_run_callback (cb : callback) :
  sets_protection cb = true -> after (run_callback prefs cb) (@flag W true).
Proof.
  destruct cb; simpl; intros E; try discriminate E;
    (apply after_bind;
     [apply after_scroll_with_flipping | intro; apply keeps_ret]).
Qed.

Lemma key_press_event_resets (event : key_event) (w : World W) :
  key_press_event prefs event w =
    key_press_event prefs event (with_protection false w).
Proof. reflexivity. Qed.

Lemma after_then {A B} (m : M W A) (k : A -> M W B) (P Q : World W -> Prop) :
  after m P -> (forall a, after (k a) Q) -> after (bind m k) Q.
Proof.
  intros Hm Hk w.
  destruct (Hm w) as (a & w1 & E1 & _).
  destruct (Hk a w1) as (r & w2 & E2 & Q2).
  exists r, w2. unfold bind. rewrite E1. split; assumption.
Qed.

Lemma after_key_press_event (event : key_event) :
  after (key_press_event prefs event) (@flag W (protection_after_key event)).
Proof.
  unfold key_press_event, protection_after_key, manager_execute.
  destruct (binding event) as [cb|].
  - destruct (sets_protection cb) eqn:E.
    + eapply after_then; [apply (after_set_scroll_protection false) | intro].
      apply after_bind; [apply after_run_callback; exact E | intro].
      keeps_walk.
    + apply after_bind; [apply after_set_scroll_protection | intro].
      apply keeps_bind; [apply keeps_run_callback; exact E | intro].
      keeps_walk.
  - apply after_bind; [apply after_set_scroll_protection | intro].
    keeps_walk.
Qed.

Lemma after_scroll_wheel_event (event : scroll_event) :
  button2_mask event = false ->
  after (scroll_wheel_event prefs event) (@flag W true).
Proof.
  intros E. unfold scroll_wheel_event. rewrite E.
  apply after_bind; [apply after_set_scroll_protection | intro].
  cbv zeta.
  destruct (direction event); keeps_walk;
    auto using keeps_smart_scroll_down, keeps_smart_scroll_up.
  - intros w Hw. destruct (after_scroll_with_flipping 0
      (- number_of_pixels_to_scroll_per_mouse_wheel_event prefs) w)
      as (r & w' & R & F).
    exists r, w'. split; assumption.
  - intros w Hw. destruct (after_scroll_with_flipping 0
      (number_of_pixels_to_scroll_per_mouse_wheel_event prefs) w)
      as (r & w' & R & F).
    exists r, w'. split; assumption.
Qed.

(** The flag is set before anything else is done: the arrow-key scrolls,
    [_scroll_with_flipping] and a wheel tick run as they do from the state
    in which the flag is already true. *)
Lemma scroll_with_flipping_sets_first (x y : Z) (w : World W) :
  _scroll_with_flipping prefs x y w =
    _scroll_with_flipping prefs x y (with_protection true w).
Proof. reflexivity. Qed.

Lemma run_callback_sets_first (cb : callback) (w : World W) :
  sets_protection cb = true ->
  run_callback prefs cb w = run_callback prefs cb (with_protection true w).
Proof. destruct cb; simpl; intros E; try discriminate E; reflexivity. Qed.

Lemma scroll_wheel_event_sets_first (event : scroll_event) (w : World W) :
  button2_mask event = false ->
  scroll_wheel_event prefs event w =
    scroll_wheel_event prefs event (with_protection true w).
Proof. intros E. unfold scroll_wheel_event. rewrite E. reflexivity. Qed.

(** C7 (amended).  A key press is handled as if the protection flag were
    false on entry, and it ends with the flag true exactly when the key is
    bound to one of the four arrow-key scrolls, which go through
    [_scroll_with_flipping]; after any other binding, the smart-scroll key
    bindings included, and after an unbound key the flag is false.  A
    wheel tick without the middle button held ends with the flag true, one
    with the middle button held changes nothing; every
    [_scroll_with_flipping] ends with the flag true.  The flag is set at
    the start: a wheel tick without the middle button held, an arrow-key
    scroll and [_scroll_with_flipping] run exactly as from the state in
    which the flag is already true, so the scroll attempt and the page-flip
    protector they go through find the flag set, whatever it was before. *)
Theorem protection_flag_lifecycle :
  (forall (event : key_event) (w : World W),
     key_press_event prefs event w =
       key_press_event prefs event (with_protection false w) /\
     exists r w',
       key_press_event prefs event w = Done r w' /\
       _scroll_protection (handler w') = protection_after_key event) /\
  (forall (event : scroll_event) (w : World W),
     button2_mask event = false ->
     exists w',
       scroll_wheel_event prefs event w = Done tt w' /\
       _scroll_protection (handler w') = true) /\
  (forall (event : scroll_event) (w : World W),
     button2_mask event = true ->
     scroll_wheel_event prefs event w = Done tt w) /\
  (forall (x y : Z) (w : World W),
     exists r w',
       _scroll_with_flipping prefs x y w = Done r w' /\
       _scroll_protection (handler w') = true) /\
  (forall (event : scroll_event) (w : World W),
     button2_mask event = false ->
     scroll_wheel_event prefs event w =
       scroll_wheel_event prefs event (with_protection true w)) /\
  (forall (x y : Z) (w : World W),
     _scroll_with_flipping prefs x y w =
       _scroll_with_flipping prefs x y (with_protection true w)) /\
  (forall (cb : callback) (w : World W),
     sets_protection cb = true ->
     run_callback prefs cb w =
       run_callback prefs cb (with_protection true w)).
Proof.
  split; [|split; [|split; [|split; [|split; [|split]]]]].
  - intros event w. split; [apply key_press_event_resets|].
    apply after_key_press_event.
  - intros event w E.
    destruct (after_scroll_wheel_event event E w) as ([] & w' & R & F).
    exists w'. split; assumption.
  - intros event w E. unfold scroll_wheel_event. rewrite E. reflexivity.
  - intros x y w. apply after_scroll_with_flipping.
  - intros event w E. apply scroll_wheel_event_sets_first, E.
  - intros x y w. apply scroll_with_flipping_sets_first.
  - intros cb w E. apply run_callback_sets_first, E.
Qed.

End Flag_lifecycle.

Lemma protection_flag_lifecycle_witness :
  button2_mask wheel_down = false /\
  exists w',
    scroll_wheel_event prefs0
      wheel_down
      (start init win0) = Done tt w' /\
    _scroll_protection (handler w') = true.
Proof.
  split; [reflexivity|].
  exact (proj1 (proj2 (protection_flag_lifecycle prefs0))
           wheel_down
           (start init win0) eq_refl).
Defined.

(** C7 as worded fails: the space key, bound to smart scroll down, makes
    its scroll attempts and ends with the protection flag false, even if
    the flag was true before the key press. *)
Lemma smart_scroll_key_counterexample :
  calls (final (key_press_event prefs0 space_key
                  (start (protected 0) win0))) =
    [Scroll 400 0 None; Scroll 0 300 None; NextPage; EmitStopByName] /\
  _scroll_protection
    (handler (final (key_press_event prefs0 space_key
                       (start (protected 0) win0)))) <> true.
Proof. split; [reflexivity | discriminate]. Qed.

(** ** Wheel routing *)

(** C6 (amended).  A horizontal wheel tick with the middle button held
    does nothing.  Otherwise it first sets the protection flag; in the
    advancing direction (right when reading left-to-right, left in manga
    mode) it then calls [next_page] directly, whatever the preferences
    and the counter, which it leaves as it was; in the other direction it
    goes through [_previous_page_with_protection] with the flag set, so
    going back is subject to ['flip with wheel'] and to the debounce. *)
Theorem horizontal_wheel_routing {W : Type} `{Window W} (prefs : Prefs)
    (event : scroll_event) (w : World W) :
  horizontal (direction event) = true ->
  (button2_mask event = true ->
   scroll_wheel_event prefs event w = Done tt w) /\
  (button2_mask event = false ->
   advances (direction event) (is_manga_mode (window w)) = true ->
   scroll_wheel_event prefs event w =
     Done tt (final (window_next_page (with_protection true w))) /\
   calls (final (scroll_wheel_event prefs event w)) =
     calls w ++ [NextPage] /\
   _extra_scroll_events (handler (final (scroll_wheel_event prefs event w)))
     = _extra_scroll_events (handler w)) /\
  (button2_mask event = false ->
   advances (direction event) (is_manga_mode (window w)) = false ->
   scroll_wheel_event prefs event w =
     (_previous_page_with_protection prefs ;; ret tt)
       (with_protection true w)).
Proof.
  intros Hh. unfold scroll_wheel_event.
  split; [|split].
  - intros E. rewrite E. reflexivity.
  - intros E A. rewrite E.
    match goal with
    | |- ?run = ?world /\ _ => assert (R : run = world)
    end.
    { destruct (direction event); try discriminate Hh; simpl in A;
        unfold bind; simpl; rewrite A; reflexivity. }
    rewrite R. repeat split.
  - intros E A. rewrite E.
    destruct (direction event); try discriminate Hh; simpl in A;
      unfold bind at 1; simpl; unfold bind at 1; simpl;
      rewrite A; reflexivity.
Qed.

Lemma horizontal_wheel_routing_witness :
  horizontal SCROLL_RIGHT = true /\
  advances SCROLL_RIGHT (is_manga_mode win0) = true /\
  calls (final (scroll_wheel_event prefs0
                  wheel_right
                  (start (protected 1) win0)))
    = [NextPage].
Proof.
  split; [reflexivity|]. split; [reflexivity|].
  exact (proj1 (proj2 (proj1 (proj2
    (horizontal_wheel_routing prefs0
       wheel_right
       (start (protected 1) win0) eq_refl)) eq_refl eq_refl))).
Defined.

(** C6 as worded fails: reading left-to-right with threshold 3, a wheel
    tick to the left on a vertically scrollable page calls neither
    [previous_page] nor [next_page]; the debounce absorbs it. *)
Lemma wheel_left_debounced_counterexample :
  horizontal (direction wheel_left) = true /\
  button2_mask wheel_left = false /\
  calls (final (scroll_wheel_event prefs0 wheel_left (start init win0)))
    = [] /\
  _extra_scroll_events
    (handler (final (scroll_wheel_event prefs0 wheel_left
                       (start init win0)))) = -1.
Proof. repeat split. Qed.

(** ** The smart-scroll scenario *)

Section Scenario.

Context {W : Type} `{Window W}.
Variable prefs : Prefs.
Variable h : EventHandler.
Variable win : W.

Hypothesis smart_on : smart_scroll prefs = true.
Hypothesis invert_off : invert_smart_scroll prefs = false.
Hypothesis half : smart_scroll_percentage prefs = 0.5%float.
Hypothesis area_800x600 : get_visible_area_size win = (800, 600).
Hypothesis single_page : displayed_double win = false.
Hypothesis left_to_right : is_manga_mode win = false.

Lemma scenario_first_call :
  _smart_scroll_down prefs None (start h win) =
    (last_scroll <- get _last_scroll_was_direction_1 ;;
     r <- window_scroll 400 0 None ;;
     set_last_scroll_was_direction_1 r ;;
     if negb r then
       scrolled <- window_scroll 0
         (and_or last_scroll 300 300) None ;;
       (if negb scrolled then _next_page_with_protection prefs ;; ret tt
        else window_scroll_to_fixed (Some startfirst) None ;; ret tt)
     else ret tt) (start h win).
Proof.
  unfold _smart_scroll_down, smart_steps, step_sizes.
  unfold bind at 1. unfold bind at 1. unfold ask at 1. cbn [start window].
  unfold bind at 1. unfold ask at 1. cbn [start window]. unfold ret at 1.
  rewrite smart_on, invert_off, half, area_800x600, left_to_right.
  cbn [negb fst snd manga_steps x_step_small y_step_small y_step_large].
  unfold bind at 1. unfold ask at 1.
  change (window (start h win)) with win.
  rewrite single_page.
  change (int_mul 800 0.5%float) with 400.
  change (int_mul 600 0.5%float) with 300.
  reflexivity.
Qed.

Lemma and_or_same (c : bool) (a : Z) : and_or c a a = a.
Proof. unfold and_or. destruct (c && truthy a); reflexivity. Qed.

(** The log a forward flip request adds. *)
Lemma next_page_with_protection_calls (w : World W) :
  exists r w',
    _next_page_with_protection prefs w = Done r w' /\
    calls w' =
      calls w ++
      (if flips_forward prefs (handler w)
            (is_scrollable_vertically (window w))
       then [NextPage] else []).
Proof.
  unfold flips_forward.
  destruct (next_page_cases prefs w)
    as [[F R]|[[F [N R]]|[F [N [_ R]]]]];
    rewrite R, F; eexists _, _; (split; [reflexivity|]).
  - simpl. symmetry. apply app_nil_r.
  - unfold next_flip_now in N. rewrite N. reflexivity.
  - unfold next_flip_now in N. rewrite N. simpl. symmetry. apply app_nil_r.
Qed.

(** C2 (amended).  Visible area 800x600, fraction 1/2, smart scroll on,
    single page, left-to-right, not inverted: [_smart_scroll_down()]
    without a step first calls [scroll(400, 0)]; if that returns [False]
    it calls [scroll(0, 300)]; if that returns [False] too it asks
    [_next_page_with_protection] for the flip, so that [next_page()] is
    called once when ['flip with wheel'] is on and the protector's
    flip-now guard holds (as it does after a key press, which clears the
    protection flag) and not at all otherwise; [scroll_to_fixed] is not
    called. *)
Theorem smart_scroll_down_scenario :
  let o := _smart_scroll_down prefs None (start h win) in
  result o = Some tt /\
  (exists rest, calls (final o) = Scroll 400 0 None :: rest) /\
  (forall w1, scroll 400 0 None win = (false, w1) ->
     exists rest,
       calls (final o) = Scroll 400 0 None :: Scroll 0 300 None :: rest) /\
  (forall w1 w2,
     scroll 400 0 None win = (false, w1) ->
     scroll 0 300 None w1 = (false, w2) ->
     calls (final o) =
       [Scroll 400 0 None; Scroll 0 300 None] ++
       (if flips_forward prefs h (is_scrollable_vertically w2)
        then [NextPage] else []) /\
     count is_next_page (calls (final o)) =
       (if flips_forward prefs h (is_scrollable_vertically w2)
        then 1%nat else 0%nat) /\
     count is_scroll_to_fixed (calls (final o)) = 0%nat).
Proof.
  cbv zeta. pose proof scenario_first_call as R.
  unfold bind at 1 in R. unfold get at 1 in R.
  unfold bind at 1 in R. unfold window_scroll at 1 in R.
  change (window (start h win)) with win in R.
  destruct (scroll 400 0 None win) as [r w1] eqn:S1.
  unfold bind at 1 in R. unfold set_last_scroll_was_direction_1 at 1 in R.
  cbn [handler start calls window app] in R.
  destruct r; cbn [negb] in R.
  - (* the horizontal scroll succeeded *)
    rewrite R.
    split; [reflexivity|]. split; [eexists; reflexivity|].
    split; intros; discriminate.
  - rewrite and_or_same in R.
    unfold bind at 1 in R. unfold window_scroll at 1 in R. cbn [window] in R.
    destruct (scroll 0 300 None w1) as [r2 w2] eqn:S2.
    cbn [handler calls app] in R.
    destruct r2; cbn [negb] in R.
    + (* the vertical scroll succeeded *)
      unfold bind, window_scroll_to_fixed, ret in R. cbn [window] in R.
      destruct (scroll_to_fixed (Some startfirst) None w2) as [r3 w3].
      rewrite R.
      split; [reflexivity|]. split; [eexists; reflexivity|].
      split; [intros; eexists; reflexivity|].
      intros w1' w2' E1 E2. injection E1 as <-.
      rewrite S2 in E2. discriminate E2.
    + unfold bind at 1 in R.
      match type of R with
      | context [_next_page_with_protection prefs ?w] =>
          destruct (next_page_with_protection_calls w)
            as (r3 & w3 & E & C)
      end.
      rewrite E in R. unfold ret in R. rewrite R. cbn [result final].
      rewrite C. cbn [handler window calls app
                      _scroll_protection _extra_scroll_events].
      split; [reflexivity|].
      split; [eexists; reflexivity|].
      split; [intros; eexists; reflexivity|].
      intros w1' w2' E1 E2.
      injection E1 as <-. rewrite S2 in E2. injection E2 as <-.
      unfold flips_forward. cbn [_scroll_protection _extra_scroll_events].
      repeat split;
        match goal with
        | |- context [if ?c then _ else _] => destruct c
        end; reflexivity.
Qed.

End Scenario.

Lemma smart_scroll_down_scenario_witness :
  smart_scroll prefs0 = true /\
  get_visible_area_size win0 = (800, 600) /\
  scroll 400 0 None win0 = (false, win0) /\
  scroll 0 300 None win0 = (false, win0) /\
  calls (final (_smart_scroll_down prefs0 None (start init win0))) =
    [Scroll 400 0 None; Scroll 0 300 None; NextPage].
Proof.
  split; [reflexivity|]. split; [reflexivity|].
  split; [reflexivity|]. split; [reflexivity|].
  exact (proj1 (proj2 (proj2 (proj2
    (smart_scroll_down_scenario prefs0 init win0
       eq_refl eq_refl eq_refl eq_refl eq_refl eq_refl)))
    win0 win0 eq_refl eq_refl)).
Defined.

(** C2 as worded fails: when [scroll(400, 0)] is refused the second call
    is [scroll(0, 300)], half of the visible height; [scroll(0, 400)] is
    never issued. *)
Lemma scenario_vertical_step_counterexample :
  scroll 400 0 None win0 = (false, win0) /\
  nth_error (calls (final (_smart_scroll_down prefs0 None (start init win0))))
    1 = Some (Scroll 0 300 None) /\
  ~ In (Scroll 0 400 None)
      (calls (final (_smart_scroll_down prefs0 None (start init win0)))).
Proof.
  split; [reflexivity|]. split; [reflexivity|].
  intros [E|[E|[E|[]]]]; discriminate E.
Qed.

(** ** Manga mode mirrors the horizontal axis *)

Section Mirror.

Lemma sim_ret {A} (a : A) : sim (ret a) (ret a).
Proof. intros wm wn Hw. split; [reflexivity | exact Hw]. Qed.

Lemma sim_bind {A B} (m m' : M Scripted A) (k k' : A -> M Scripted B) :
  sim m m' -> (forall a, sim (k a) (k' a)) -> sim (bind m k) (bind m' k').
Proof.
  intros Hm Hk wm wn Hw. specialize (Hm wm wn Hw).
  unfold bind, rel in *.
  destruct (m wm) as [a wm'|]; destruct (m' wn) as [a' wn'|];
    try contradiction.
  destruct Hm as [<- Hw']. apply Hk. exact Hw'.
Qed.

Lemma sim_get {A} (f : EventHandler -> A) : sim (get f) (get f).
Proof.
  intros wm wn Hw. split; [|exact Hw].
  destruct Hw as [E _]. rewrite E. reflexivity.
Qed.

Lemma sim_set_extra (n : Z) :
  sim (set_extra_scroll_events n) (set_extra_scroll_events n).
Proof.
  intros wm wn (E & C & S). split; [reflexivity|].
  split; [simpl; rewrite E; reflexivity|]. split; assumption.
Qed.

Lemma sim_set_last (l : bool) :
  sim (set_last_scroll_was_direction_1 l)
      (set_last_scroll_was_direction_1 l).
Proof.
  intros wm wn (E & C & S). split; [reflexivity|].
  split; [simpl; rewrite E; reflexivity|]. split; assumption.
Qed.

Lemma sim_displayed_double : sim (ask displayed_double) (ask displayed_double).
Proof.
  intros wm wn Hw. split; [|exact Hw].
  destruct Hw as (_ & _ & s & -> & ->). reflexivity.
Qed.

Lemma sim_is_on_first_page :
  sim (ask is_on_first_page) (ask is_on_first_page).
Proof.
  intros wm wn Hw. split; [|exact Hw].
  destruct Hw as (_ & _ & s & -> & ->). reflexivity.
Qed.

Lemma mirrored_answer (wm wn : World Scripted) (cm cn : call) :
  mirrored wm wn -> cm = mirror cn ->
  fst (next_answer (window wm)) = fst (next_answer (window wn)) /\
  mirrored
    {| handler := handler wm; window := snd (next_answer (window wm));
       calls := calls wm ++ [cm] |}
    {| handler := handler wn; window := snd (next_answer (window wn));
       calls := calls wn ++ [cn] |}.
Proof.
  intros (E & C & s & Sm & Sn) ->. rewrite Sm, Sn.
  destruct s as [mg db fp ar sv ans].
  unfold next_answer, with_manga, mirrored. simpl.
  destruct ans as [|a rest]; simpl.
  - split; [reflexivity|]. split; [exact E|].
    split; [rewrite C, map_app; reflexivity|].
    exists {| manga := mg; double := db; on_first := fp; area := ar;
              scrollable_vertically := sv; answers := [] |}.
    split; reflexivity.
  - split; [reflexivity|]. split; [exact E|].
    split; [rewrite C, map_app; reflexivity|].
    exists {| manga := mg; double := db; on_first := fp; area := ar;
              scrollable_vertically := sv; answers := rest |}.
    split; reflexivity.
Qed.

Lemma sim_scroll (xm xn ym yn : Z) (bound : option subpage) :
  xm = - xn -> ym = yn ->
  sim (window_scroll xm ym bound) (window_scroll xn yn bound).
Proof.
  intros -> -> wm wn Hw.
  destruct (mirrored_answer wm wn (Scroll (- xn) yn bound)
              (Scroll xn yn bound) Hw eq_refl) as [R Hw'].
  unfold window_scroll. simpl.
  destruct (next_answer (window wm)) as [rm sm].
  destruct (next_answer (window wn)) as [rn sn].
  split; [exact R | exact Hw'].
Qed.

Lemma sim_scroll_to_fixed (h : option horiz) (v : option vert) :
  sim (window_scroll_to_fixed h v) (window_scroll_to_fixed h v).
Proof.
  intros wm wn Hw.
  destruct (mirrored_answer wm wn (ScrollToFixed h v) (ScrollToFixed h v)
              Hw eq_refl) as [R Hw'].
  unfold window_scroll_to_fixed. simpl.
  destruct (next_answer (window wm)) as [rm sm].
  destruct (next_answer (window wn)) as [rn sn].
  split; [exact R | exact Hw'].
Qed.

Variable prefs : Prefs.

Lemma mirrored_flip_now (wm wn : World Scripted) :
  mirrored wm wn ->
  next_flip_now prefs wm = next_flip_now prefs wn /\
  previous_flip_now prefs wm = previous_flip_now prefs wn.
Proof.
  intros (E & _ & s & Sm & Sn).
  unfold next_flip_now, previous_flip_now.
  rewrite E, Sm, Sn. split; reflexivity.
Qed.

Lemma mirrored_with_extra (n : Z) (wm wn : World Scripted) :
  mirrored wm wn -> mirrored (with_extra n wm) (with_extra n wn).
Proof. intros Hw. exact (proj2 (sim_set_extra n wm wn Hw)). Qed.

Lemma mirrored_flipped_next (wm wn : World Scripted) :
  mirrored wm wn -> mirrored (flipped_next wm) (flipped_next wn).
Proof.
  intros (E & C & S). unfold mirrored. simpl.
  rewrite E, C, map_app. repeat split. exact S.
Qed.

Lemma mirrored_flipped_previous (wm wn : World Scripted) :
  mirrored wm wn -> mirrored (flipped_previous wm) (flipped_previous wn).
Proof.
  intros (E & C & S). unfold mirrored. simpl.
  rewrite E, C, map_app. repeat split. exact S.
Qed.

Lemma sim_next_page_with_protection :
  sim (_next_page_with_protection prefs) (_next_page_with_protection prefs).
Proof.
  intros wm wn Hw.
  destruct (mirrored_flip_now wm wn Hw) as [F _].
  destruct (next_page_cases prefs wm)
    as [[Fm Rm]|[[Fm [Nm Rm]]|[Fm [Nm [_ Rm]]]]];
  destruct (next_page_cases prefs wn)
    as [[Fn Rn]|[[Fn [Nn Rn]]|[Fn [Nn [_ Rn]]]]];
    try congruence; rewrite Rm, Rn; (split; [reflexivity|]).
  - apply mirrored_with_extra; exact Hw.
  - apply mirrored_flipped_next; exact Hw.
  - destruct Hw as [E Hw']. rewrite E.
    apply mirrored_with_extra. split; assumption.
Qed.

Lemma sim_previous_page_with_protection :
  sim (_previous_page_with_protection prefs)
      (_previous_page_with_protection prefs).
Proof.
  intros wm wn Hw.
  destruct (mirrored_flip_now wm wn Hw) as [_ F].
  destruct (previous_page_cases prefs wm)
    as [[Fm Rm]|[[Fm [Nm Rm]]|[Fm [Nm [_ Rm]]]]];
  destruct (previous_page_cases prefs wn)
    as [[Fn Rn]|[[Fn [Nn Rn]]|[Fn [Nn [_ Rn]]]]];
    try congruence; rewrite Rm, Rn; (split; [reflexivity|]).
  - apply mirrored_with_extra; exact Hw.
  - apply mirrored_flipped_previous; exact Hw.
  - destruct Hw as [E Hw']. rewrite E.
    apply mirrored_with_extra. split; assumption.
Qed.

Lemma manga_steps_opposite (s : steps) :
  opposite_x (manga_steps true s) (manga_steps false s).
Proof. unfold opposite_x. simpl. repeat split; lia. Qed.

Lemma truthy_opp (a : Z) : truthy (- a) = truthy a.
Proof. unfold truthy. destruct a; reflexivity. Qed.

Lemma and_or_opp (c : bool) (a b : Z) :
  and_or c (- a) (- b) = - and_or c a b.
Proof.
  unfold and_or. rewrite truthy_opp.
  destruct (c && truthy a); reflexivity.
Qed.

(** A bind whose first parts return related, not equal, values. *)
Lemma sim_bind_related {A B} (R : A -> A -> Prop)
    (m m' : M Scripted A) (k k' : A -> M Scripted B) :
  (forall wm wn, mirrored wm wn ->
     exists a a' wm' wn',
       m wm = Done a wm' /\ m' wn = Done a' wn' /\
       R a a' /\ mirrored wm' wn') ->
  (forall a a', R a a' -> sim (k a) (k' a')) ->
  sim (bind m k) (bind m' k').
Proof.
  intros Hm Hk wm wn Hw.
  destruct (Hm wm wn Hw) as (a & a' & wm' & wn' & Em & En & Ha & Hw').
  unfold bind. rewrite Em, En. apply Hk; assumption.
Qed.

Lemma smart_steps_opposite (small_step : option Z) (wm wn : World Scripted) :
  mirrored wm wn ->
  exists a a' wm' wn',
    smart_steps prefs small_step wm = Done a wm' /\
    smart_steps prefs small_step wn = Done a' wn' /\
    opposite_x a a' /\ mirrored wm' wn'.
Proof.
  intros Hw. pose proof Hw as (_ & _ & s & Sm & Sn).
  eexists _, _, wm, wn. split; [reflexivity|]. split; [reflexivity|].
  split; [|exact Hw].
  rewrite Sm, Sn. apply manga_steps_opposite.
Qed.

End Mirror.

Create HintDb mirror.

#[export] Hint Resolve sim_ret sim_get sim_set_extra sim_set_last
  sim_displayed_double sim_is_on_first_page sim_scroll_to_fixed
  sim_next_page_with_protection sim_previous_page_with_protection : mirror.

(** Walks two copies of a handler body side by side. *)
Ltac sim_walk side :=
  repeat (cbv beta zeta;
    match goal with
    | |- sim (bind _ _) (bind _ _) => apply sim_bind; [| intro]
    | |- sim (if ?c then _ else _) (if ?c then _ else _) => destruct c
    | |- sim (window_scroll _ _ _) (window_scroll _ _ _) =>
        apply sim_scroll; side
    | |- sim _ _ => solve [auto with mirror]
    end).

Section Mirror_smart_scroll.

Variable prefs : Prefs.

Lemma sim_smart_scroll_down (small_step : option Z) :
  sim (_smart_scroll_down prefs small_step)
      (_smart_scroll_down prefs small_step).
Proof.
  unfold _smart_scroll_down.
  apply (sim_bind_related opposite_x);
    [apply smart_steps_opposite|].
  intros sm sn (Hxs & Hxl & Hys & Hyl).
  sim_walk ltac:(rewrite ?Hxs, ?Hxl, ?Hys, ?Hyl, ?and_or_opp; lia).
Qed.

Lemma sim_smart_scroll_up (small_step : option Z) :
  sim (_smart_scroll_up prefs small_step)
      (_smart_scroll_up prefs small_step).
Proof.
  unfold _smart_scroll_up.
  apply (sim_bind_related opposite_x);
    [apply smart_steps_opposite|].
  intros sm sn (Hxs & Hxl & Hys & Hyl).
  sim_walk ltac:(rewrite ?Hxs, ?Hxl, ?Hys, ?Hyl, ?and_or_opp; lia).
Qed.

End Mirror_smart_scroll.

Lemma mirrored_start (h : EventHandler) (s : Scripted) :
  mirrored (start h (with_manga true s)) (start h (with_manga false s)).
Proof.
  split; [reflexivity|]. split; [reflexivity|].
  exists s. split; reflexivity.
Qed.

Lemma rel_projections {A} (om on : outcome Scripted A) :
  rel om on ->
  calls (final om) = map mirror (calls (final on)) /\
  handler (final om) = handler (final on) /\
  result om = result on.
Proof.
  unfold rel. destruct om as [a wm|wm]; destruct on as [a' wn|wn];
    try contradiction.
  intros [<- (E & C & _)]. repeat split; assumption.
Qed.

(** * External commands: the command line tokenizer *)

Section OpenWith_facts.

Variable sep : OpenWith.text.
Variable basename : OpenWith.text -> OpenWith.text.
Variable dirname : OpenWith.text -> OpenWith.text.
Variable window : OpenWith.Files.

(** The loop, the final flush and the tokenizer at these parameters. *)
Let run := OpenWith.loop sep basename dirname window.
Let tokenize := OpenWith._commandline_to_arguments sep basename dirname window.

Lemma loop_app (l1 l2 : OpenWith.text) : forall st,
  run (l1 ++ l2) st =
    match run l1 st with
    | inl e => inl e
    | inr st' => run l2 st'
    end.
Proof.
  induction l1 as [|c l1 IH]; intros st; simpl.
  - reflexivity.
  - destruct (OpenWith.step sep basename dirname window st c) as [e|st'].
    + reflexivity.
    + apply IH.
Qed.

Lemma loop_cons (c : Ascii.ascii) (l : OpenWith.text) (st : OpenWith.tokens) :
  run (c :: l) st =
    match OpenWith.step sep basename dirname window st c with
    | inl e => inl e
    | inr st' => run l st'
    end.
Proof. reflexivity. Qed.

Lemma tokenize_flushed (line : OpenWith.text) (st : OpenWith.tokens) :
  run line OpenWith.start_tokens = inr st ->
  OpenWith.escape st = false -> OpenWith.quote st = false ->
  tokenize line = inr (flushed st).
Proof.
  intros R E Q. unfold tokenize, OpenWith._commandline_to_arguments.
  unfold run in R. rewrite R, E, Q. unfold flushed.
  destruct (negb (length (OpenWith.buf st) =? 0)%nat); reflexivity.
Qed.

(** Inside quotes an escaped text adds its characters to the buffer. *)
Lemma loop_escaped (a : OpenWith.text) : forall (r : list OpenWith.text)
    (b : OpenWith.text),
  run (OpenWith.escaped a)
    {| OpenWith.result := r; OpenWith.buf := b;
       OpenWith.quote := true; OpenWith.escape := false |} =
  inr {| OpenWith.result := r; OpenWith.buf := b ++ a;
         OpenWith.quote := true; OpenWith.escape := false |}.
Proof.
  induction a as [|c a IH]; intros r b.
  - simpl. rewrite app_nil_r. reflexivity.
  - change (OpenWith.escaped (c :: a))
      with ((if (Ascii.eqb c OpenWith.percent || Ascii.eqb c OpenWith.dquote)
             then [OpenWith.percent; c] else [c]) ++ OpenWith.escaped a).
    rewrite loop_app.
    replace (b ++ c :: a) with ((b ++ [c]) ++ a)
      by (rewrite <- app_assoc; reflexivity).
    destruct (Ascii.eqb c OpenWith.percent || Ascii.eqb c OpenWith.dquote)
      eqn:S.
    + unfold run. simpl. unfold OpenWith.step at 1. simpl. rewrite S.
      apply IH.
    + apply orb_false_elim in S. destruct S as [Sp Sq].
      unfold run. simpl. unfold OpenWith.step. simpl. rewrite Sp, Sq.
      destruct (Ascii.eqb c OpenWith.space); apply IH.
Qed.

Lemma loop_quoted (a : OpenWith.text) (r : list OpenWith.text) :
  run (OpenWith.quoted a) (between r) = inr (between (r ++ [a])).
Proof.
  unfold OpenWith.quoted.
  change ([OpenWith.dquote] ++ OpenWith.escaped a ++ [OpenWith.dquote])
    with (OpenWith.dquote :: (OpenWith.escaped a ++ [OpenWith.dquote])).
  unfold run. simpl. fold run.
  rewrite loop_app, loop_escaped. reflexivity.
Qed.

Lemma loop_join_quoted (args : list OpenWith.text) :
  forall r : list OpenWith.text,
  run (OpenWith.join (map OpenWith.quoted args)) (between r) =
    inr (between (r ++ args)).
Proof.
  induction args as [|a [|a' rest] IH]; intros r.
  - simpl. rewrite app_nil_r. reflexivity.
  - simpl OpenWith.join. apply loop_quoted.
  - change (OpenWith.join (map OpenWith.quoted (a :: a' :: rest)))
      with (OpenWith.quoted a ++ [OpenWith.space] ++
            OpenWith.join (map OpenWith.quoted (a' :: rest))).
    rewrite loop_app, loop_quoted.
    change ([OpenWith.space] ++
            OpenWith.join (map OpenWith.quoted (a' :: rest)))
      with (OpenWith.space ::
            OpenWith.join (map OpenWith.quoted (a' :: rest))).
    unfold run. simpl OpenWith.loop at 1. fold run.
    change (OpenWith.step sep basename dirname window
              (between (r ++ [a])) OpenWith.space)
      with (@inr OpenWith.OpenWithException _ (between (r ++ [a]))).
    cbv iota. rewrite IH. rewrite <- app_assoc. reflexivity.
Qed.

(** X1.  Every list of arguments, whatever characters they hold (spaces,
    quotes, percent signs, none at all), can be written as a command
    line: each argument between quotes with [%] and the quote character
    escaped by [%], the arguments separated by a space.  The tokenizer
    gives the list back and expands nothing. *)
Theorem quoted_arguments_roundtrip (args : list OpenWith.text) :
  tokenize (OpenWith.join (map OpenWith.quoted args)) = inr args.
Proof.
  apply (tokenize_flushed _ (between args)); try reflexivity.
  apply (loop_join_quoted args []).
Qed.

(** *** Plain words *)

Lemma plain_cons (c : Ascii.ascii) (a : OpenWith.text) :
  forallb OpenWith.plain (c :: a) = true ->
  Ascii.eqb c OpenWith.percent = false /\
  Ascii.eqb c OpenWith.dquote = false /\
  forallb OpenWith.plain a = true.
Proof.
  simpl. intros P. apply andb_true_iff in P. destruct P as [Pc Pa].
  unfold OpenWith.plain in Pc. apply negb_true_iff in Pc.
  apply orb_false_elim in Pc. tauto.
Qed.

(** A word goes to the buffer, whatever the quotation state. *)
Lemma loop_word (a : OpenWith.text) : word a ->
  forall (r : list OpenWith.text) (b : OpenWith.text) (q : bool),
  run a {| OpenWith.result := r; OpenWith.buf := b;
           OpenWith.quote := q; OpenWith.escape := false |} =
  inr {| OpenWith.result := r; OpenWith.buf := b ++ a;
         OpenWith.quote := q; OpenWith.escape := false |}.
Proof.
  induction a as [|c a IH]; intros [P S] r b q.
  - simpl. rewrite app_nil_r. reflexivity.
  - apply plain_cons in P. destruct P as (Pp & Pq & Pa).
    simpl in S. apply orb_false_elim in S. destruct S as [Sc Sa].
    unfold run. simpl. unfold OpenWith.step. simpl.
    rewrite Sc, Pq, Pp. fold run.
    rewrite (IH (conj Pa Sa)). rewrite <- app_assoc. reflexivity.
Qed.

Lemma escaped_plain (a : OpenWith.text) :
  forallb OpenWith.plain a = true -> OpenWith.escaped a = a.
Proof.
  induction a as [|c a IH]; intros P; [reflexivity|].
  apply plain_cons in P. destruct P as (Pp & Pq & Pa).
  unfold OpenWith.escaped in *. simpl. rewrite Pp, Pq. simpl.
  rewrite (IH Pa). reflexivity.
Qed.

Lemma replace_quotes_plain (a : OpenWith.text) :
  forallb OpenWith.plain a = true -> OpenWith.replace_quotes a = a.
Proof.
  induction a as [|c a IH]; intros P; [reflexivity|].
  apply plain_cons in P. destruct P as (Pp & Pq & Pa).
  unfold OpenWith.replace_quotes in *. simpl. rewrite Pq. simpl.
  rewrite (IH Pa). reflexivity.
Qed.

(** What [quote_if_necessary] writes for one argument leaves the
    tokenizer in a state that stands for that argument, and a following
    space completes it. *)
Lemma loop_preview_item (a : OpenWith.text) (r : list OpenWith.text) :
  a <> [] -> forallb OpenWith.plain a = true ->
  exists st,
    run (OpenWith.quote_if_necessary a) (between r) = inr st /\
    OpenWith.quote st = false /\ OpenWith.escape st = false /\
    flushed st = r ++ [a] /\
    OpenWith.step sep basename dirname window st OpenWith.space =
      inr (between (r ++ [a])).
Proof.
  intros Ha P. unfold OpenWith.quote_if_necessary.
  destruct (OpenWith.has_space a) eqn:S.
  - rewrite (replace_quotes_plain a P).
    replace ([OpenWith.dquote] ++ a ++ [OpenWith.dquote])
      with (OpenWith.quoted a)
      by (unfold OpenWith.quoted; rewrite (escaped_plain a P); reflexivity).
    rewrite loop_quoted. exists (between (r ++ [a])).
    repeat split.
  - unfold between. rewrite (loop_word a (conj P S)). eexists.
    split; [reflexivity|]. simpl.
    destruct a as [|c a]; [contradiction Ha; reflexivity|].
    repeat split.
Qed.

Lemma loop_preview (args : list OpenWith.text) :
  Forall (fun a => a <> [] /\ forallb OpenWith.plain a = true) args ->
  forall r : list OpenWith.text,
  exists st,
    run (OpenWith.preview args) (between r) = inr st /\
    OpenWith.quote st = false /\ OpenWith.escape st = false /\
    flushed st = r ++ args.
Proof.
  unfold OpenWith.preview.
  induction args as [|a [|a' rest] IH]; intros G r.
  - exists (between r). simpl. rewrite app_nil_r. repeat split.
  - inversion G as [|? ? [Ha P] _]; subst.
    destruct (loop_preview_item a r Ha P) as (st & R & Q & E & F & _).
    exists st. simpl OpenWith.join. repeat split; assumption.
  - inversion G as [|? ? [Ha P] G']; subst.
    destruct (loop_preview_item a r Ha P) as (st & R & Q & E & _ & S).
    destruct (IH G' (r ++ [a])) as (st' & R' & Q' & E' & F').
    exists st'.
    change (OpenWith.join (map OpenWith.quote_if_necessary (a :: a' :: rest)))
      with (OpenWith.quote_if_necessary a ++ OpenWith.space ::
            OpenWith.join (map OpenWith.quote_if_necessary (a' :: rest))).
    rewrite loop_app, R, loop_cons, S, R'.
    rewrite F', <- app_assoc. repeat split; assumption.
Qed.

(** X2.  The preview of parsed arguments, [" ".join] of the arguments
    with those that hold a space put between quotes, parses back to the
    same arguments, provided no argument is empty or holds a quote or a
    percent sign. *)
Theorem preview_reparses (args : list OpenWith.text) :
  Forall (fun a => a <> [] /\ forallb OpenWith.plain a = true) args ->
  tokenize (OpenWith.preview args) = inr args.
Proof.
  intros G. destruct (loop_preview args G []) as (st & R & Q & E & F).
  rewrite (tokenize_flushed _ st R E Q), F. reflexivity.
Qed.

(** *** Lines without variables *)

Lemma step_quote (st : OpenWith.tokens) :
  OpenWith.escape st = false ->
  exists s,
    OpenWith.step sep basename dirname window st OpenWith.dquote = inr s /\
    OpenWith.escape s = false /\
    OpenWith.quote s = negb (OpenWith.quote st).
Proof.
  intros E. unfold OpenWith.step. rewrite E.
  change (Ascii.eqb OpenWith.dquote OpenWith.space) with false.
  rewrite Ascii.eqb_refl. cbv iota.
  destruct (OpenWith.quote st); eexists;
    (split; [reflexivity|]); split; try exact E; reflexivity.
Qed.

Lemma step_other (c : Ascii.ascii) (st : OpenWith.tokens) :
  Ascii.eqb c OpenWith.percent = false ->
  Ascii.eqb c OpenWith.dquote = false ->
  OpenWith.escape st = false ->
  exists s,
    OpenWith.step sep basename dirname window st c = inr s /\
    OpenWith.escape s = false /\
    OpenWith.quote s = OpenWith.quote st.
Proof.
  intros Pp Pq E. unfold OpenWith.step. rewrite E, Pp, Pq.
  destruct (Ascii.eqb c OpenWith.space);
    [destruct (OpenWith.quote st) eqn:Q;
       [|destruct (negb (length (OpenWith.buf st) =? 0)%nat)]|];
    eexists; (split; [reflexivity|]); split;
    try exact E; try reflexivity; simpl; congruence.
Qed.

(** Without [%] the loop raises nothing and never enters the escape
    state; each quote character toggles the quotation state. *)
Lemma loop_no_percent (line : OpenWith.text) : no_percent line ->
  forall st, OpenWith.escape st = false ->
  exists st',
    run line st = inr st' /\ OpenWith.escape st' = false /\
    OpenWith.quote st' = xorb (OpenWith.quote st) (Nat.odd (quotes line)).
Proof.
  induction line as [|c line IH]; intros P st E.
  - exists st. repeat split; [exact E|].
    simpl. rewrite xorb_false_r. reflexivity.
  - unfold no_percent in P. simpl in P. apply andb_true_iff in P.
    destruct P as [Pc P]. apply negb_true_iff in Pc.
    rewrite loop_cons.
    unfold quotes. simpl count_occ.
    destruct (Ascii.ascii_dec c OpenWith.dquote) as [->|Nq];
      fold (quotes line).
    + destruct (step_quote st E) as (s & -> & Es & Qs).
      destruct (IH P s Es) as (st' & R & E' & Q').
      exists st'. rewrite R, Q', Qs.
      rewrite Nat.odd_succ, <- Nat.negb_odd.
      split; [reflexivity|]. split; [exact E'|].
      destruct (OpenWith.quote st), (Nat.odd (quotes line)); reflexivity.
    + assert (Nq' : Ascii.eqb c OpenWith.dquote = false)
        by (apply Ascii.eqb_neq; exact Nq).
      destruct (step_other c st Pc Nq' E) as (s & -> & Es & Qs).
      destruct (IH P s Es) as (st' & R & E' & Q').
      exists st'. rewrite R, Q', Qs. repeat split. exact E'.
Qed.

(** X3.  On a line without [%] the tokenizer fails exactly when the
    number of quote characters is odd, with "Incomplete quotation"; and
    such a line followed by a single [%] fails with "Incomplete escape
    sequence", balanced quotes or not. *)
Theorem percent_free_line_errors (line : OpenWith.text) :
  no_percent line ->
  (Nat.odd (quotes line) = true ->
   tokenize line = inl OpenWith.incomplete_quotation) /\
  (Nat.odd (quotes line) = false ->
   exists args, tokenize line = inr args) /\
  tokenize (line ++ [OpenWith.percent]) = inl OpenWith.incomplete_escape.
Proof.
  intros P.
  destruct (loop_no_percent line P OpenWith.start_tokens eq_refl)
    as (st & R & E & Q).
  simpl in Q.
  split; [|split].
  - intros O. rewrite O in Q.
    unfold tokenize, OpenWith._commandline_to_arguments.
    unfold run in R. rewrite R, E, Q. reflexivity.
  - intros O. rewrite O in Q. exists (flushed st).
    apply tokenize_flushed; assumption.
  - unfold tokenize, OpenWith._commandline_to_arguments.
    fold run. rewrite loop_app, R, loop_cons.
    unfold OpenWith.step. rewrite E.
    change (Ascii.eqb OpenWith.percent OpenWith.space) with false.
    change (Ascii.eqb OpenWith.percent OpenWith.dquote) with false.
    rewrite Ascii.eqb_refl. reflexivity.
Qed.

(** *** Lines of plain words *)

Lemma has_space_app (a b : OpenWith.text) :
  OpenWith.has_space (a ++ b) =
    OpenWith.has_space a || OpenWith.has_space b.
Proof. apply existsb_app. Qed.

Lemma loop_plain (line : OpenWith.text) :
  forallb OpenWith.plain line = true ->
  forall (r : list OpenWith.text) (b : OpenWith.text),
  Forall solid r -> OpenWith.has_space b = false ->
  exists (r' : list OpenWith.text) (b' : OpenWith.text),
    run line {| OpenWith.result := r; OpenWith.buf := b;
                OpenWith.quote := false; OpenWith.escape := false |} =
    inr {| OpenWith.result := r'; OpenWith.buf := b';
           OpenWith.quote := false; OpenWith.escape := false |} /\
    Forall solid r' /\ OpenWith.has_space b' = false /\
    concat r' ++ b' = concat r ++ b ++ filter not_space line.
Proof.
  induction line as [|c line IH]; intros P r b Hr Hb.
  - exists r, b. simpl. rewrite app_nil_r. repeat split; assumption.
  - apply plain_cons in P. destruct P as (Pp & Pq & P).
    rewrite loop_cons. unfold OpenWith.step.
    cbn [OpenWith.escape OpenWith.quote OpenWith.buf OpenWith.result].
    rewrite Pp, Pq. simpl filter. unfold not_space at 1.
    destruct (Ascii.eqb c OpenWith.space) eqn:S; cbn [negb].
    + destruct b as [|c' b]; cbn [length Nat.eqb negb]; cbv iota.
      * apply (IH P r [] Hr Hb).
      * destruct (IH P (r ++ [c' :: b]) []) as (r' & b' & R & Fr & Sb & C).
        { apply Forall_app. split; [exact Hr|].
          constructor; [|constructor]. split; [discriminate | exact Hb]. }
        { reflexivity. }
        exists r', b'. split; [exact R|]. split; [exact Fr|].
        split; [exact Sb|]. rewrite C, concat_app. simpl.
        rewrite app_nil_r, <- app_assoc. reflexivity.
    + destruct (IH P r (b ++ [c]) Hr) as (r' & b' & R & Fr & Sb & C).
      { rewrite has_space_app, Hb. simpl. rewrite S. reflexivity. }
      exists r', b'. split; [exact R|]. split; [exact Fr|].
      split; [exact Sb|]. rewrite C, <- app_assoc. reflexivity.
Qed.

(** X4.  A line without quotes and percent signs is split at its spaces:
    the tokenizer succeeds, no argument is empty, none holds a space, and
    the arguments put end to end are the line without its spaces. *)
Theorem plain_line_arguments (line : OpenWith.text) :
  forallb OpenWith.plain line = true ->
  exists args,
    tokenize line = inr args /\
    Forall solid args /\
    concat args = filter not_space line.
Proof.
  intros P.
  destruct (loop_plain line P [] [] (Forall_nil _) eq_refl)
    as (r & b & R & Fr & Sb & C).
  exists (flushed {| OpenWith.result := r; OpenWith.buf := b;
                     OpenWith.quote := false; OpenWith.escape := false |}).
  split; [apply tokenize_flushed; [exact R | reflexivity | reflexivity]|].
  unfold flushed. cbn [OpenWith.buf OpenWith.result].
  destruct b as [|c b]; cbn [length Nat.eqb negb].
  - rewrite app_nil_r in C. split; assumption.
  - split.
    + apply Forall_app. split; [exact Fr|].
      constructor; [|constructor]. split; [discriminate | exact Sb].
    + rewrite concat_app. simpl. rewrite app_nil_r. exact C.
Qed.

(** *** Variables *)

(** X5.  A variable written inside a word expands into that word and is
    not tokenized again: [p%cs] gives the single argument [p ++ v ++ s],
    whatever spaces, quotes or percent signs the value [v] holds (and no
    argument at all when the whole is empty).  A variable that raises
    ends the parsing with its exception, whatever follows it. *)
Theorem variable_expands_in_place (p s : OpenWith.text) (c : Ascii.ascii) :
  word p -> word s ->
  (forall v,
     OpenWith._expand_variable sep basename dirname window c = inr v ->
     tokenize (p ++ [OpenWith.percent; c] ++ s) =
       inr (if negb (length (p ++ v ++ s) =? 0)%nat
            then [p ++ v ++ s] else [])) /\
  (forall e rest,
     OpenWith._expand_variable sep basename dirname window c = inl e ->
     c <> OpenWith.percent -> c <> OpenWith.dquote ->
     tokenize (p ++ [OpenWith.percent; c] ++ rest) = inl e).
Proof.
  intros Wp Ws.
  assert (Rp : run p OpenWith.start_tokens =
               inr {| OpenWith.result := []; OpenWith.buf := p;
                      OpenWith.quote := false; OpenWith.escape := false |})
    by (apply (loop_word p Wp [] [] false)).
  split.
  - intros v V.
    assert (Np : Ascii.eqb c OpenWith.percent = false).
    { destruct (Ascii.eqb c OpenWith.percent) eqn:X; [|reflexivity].
      apply Ascii.eqb_eq in X. subst c. discriminate V. }
    assert (Nq : Ascii.eqb c OpenWith.dquote = false).
    { destruct (Ascii.eqb c OpenWith.dquote) eqn:X; [|reflexivity].
      apply Ascii.eqb_eq in X. subst c. discriminate V. }
    erewrite tokenize_flushed;
      [ | rewrite loop_app, Rp;
          change ([OpenWith.percent; c] ++ s)
            with (OpenWith.percent :: c :: s);
          rewrite loop_cons; unfold OpenWith.step at 1;
          cbn [OpenWith.escape OpenWith.quote OpenWith.buf
               OpenWith.result];
          change (Ascii.eqb OpenWith.percent OpenWith.space) with false;
          change (Ascii.eqb OpenWith.percent OpenWith.dquote) with false;
          rewrite Ascii.eqb_refl; cbv iota;
          rewrite loop_cons; unfold OpenWith.step at 1;
          cbn [OpenWith.escape OpenWith.quote OpenWith.buf
               OpenWith.result];
          rewrite Np, Nq, V; cbn [orb];
          apply (loop_word s Ws)
        | reflexivity | reflexivity ].
    unfold flushed. cbn [OpenWith.buf OpenWith.result].
    rewrite <- app_assoc. reflexivity.
  - intros e rest V Np Nq.
    apply Ascii.eqb_neq in Np. apply Ascii.eqb_neq in Nq.
    unfold tokenize, OpenWith._commandline_to_arguments. fold run.
    rewrite loop_app, Rp.
    change ([OpenWith.percent; c] ++ rest)
      with (OpenWith.percent :: c :: rest).
    rewrite loop_cons. unfold OpenWith.step at 1.
    cbn [OpenWith.escape OpenWith.quote OpenWith.buf OpenWith.result].
    change (Ascii.eqb OpenWith.percent OpenWith.space) with false.
    change (Ascii.eqb OpenWith.percent OpenWith.dquote) with false.
    rewrite Ascii.eqb_refl. cbv iota.
    rewrite loop_cons. unfold OpenWith.step at 1.
    cbn [OpenWith.escape OpenWith.quote OpenWith.buf OpenWith.result].
    rewrite Np, Nq, V. reflexivity.
Qed.

End OpenWith_facts.

(** X6.  Storing commands in the preferences and reading them back gives
    the same commands, in the same order: [set_commands] stores unicode
    strings, which [__init__] does not decode again. *)
Theorem commands_roundtrip
    (decode_utf8 : list Byte.byte -> OpenWith.text)
    (cmds : list OpenWith.OpenWithCommand) :
  OpenWith.get_commands decode_utf8 (OpenWith.set_commands cmds) = cmds.
Proof.
  induction cmds as [|[l c] cmds IH]; [reflexivity|].
  simpl. f_equal. exact IH.
Qed.

Lemma preview_reparses_witness :
  Forall (fun a => a <> [] /\ forallb OpenWith.plain a = true)
    [OpenWith.gimp; OpenWith.my_page] /\
  OpenWith.preview [OpenWith.gimp; OpenWith.my_page] =
    OpenWith.gimp ++ [OpenWith.space; OpenWith.dquote] ++
    OpenWith.my_page ++ [OpenWith.dquote] /\
  OpenWith._commandline_to_arguments OpenWith.example_sep
    OpenWith.example_basename OpenWith.example_dirname
    OpenWith.example_window
    (OpenWith.preview [OpenWith.gimp; OpenWith.my_page]) =
    inr [OpenWith.gimp; OpenWith.my_page].
Proof.
  assert (G : Forall (fun a => a <> [] /\ forallb OpenWith.plain a = true)
                [OpenWith.gimp; OpenWith.my_page])
    by (repeat constructor; discriminate).
  split; [exact G|]. split; [reflexivity|].
  exact (preview_reparses OpenWith.example_sep OpenWith.example_basename
           OpenWith.example_dirname OpenWith.example_window _ G).
Defined.

Lemma percent_free_line_errors_witness :
  no_percent OpenWith.open_quote_line /\
  OpenWith._commandline_to_arguments OpenWith.example_sep
    OpenWith.example_basename OpenWith.example_dirname
    OpenWith.example_window OpenWith.open_quote_line =
    inl OpenWith.incomplete_quotation.
Proof.
  split; [reflexivity|].
  exact (proj1 (percent_free_line_errors OpenWith.example_sep
                  OpenWith.example_basename OpenWith.example_dirname
                  OpenWith.example_window OpenWith.open_quote_line eq_refl)
           eq_refl).
Defined.

Lemma plain_line_arguments_witness :
  forallb OpenWith.plain OpenWith.spaced_line = true /\
  exists args,
    OpenWith._commandline_to_arguments OpenWith.example_sep
      OpenWith.example_basename OpenWith.example_dirname
      OpenWith.example_window OpenWith.spaced_line = inr args /\
    Forall solid args /\
    concat args = filter not_space OpenWith.spaced_line.
Proof.
  split; [reflexivity|].
  exact (plain_line_arguments OpenWith.example_sep
           OpenWith.example_basename OpenWith.example_dirname
           OpenWith.example_window OpenWith.spaced_line eq_refl).
Defined.

Lemma variable_expands_in_place_witness :
  word OpenWith.file_option /\ word [] /\
  OpenWith._commandline_to_arguments OpenWith.example_sep
    OpenWith.example_basename OpenWith.example_dirname
    OpenWith.example_window OpenWith.file_option_line =
    inr [OpenWith.file_option_value].
Proof.
  assert (Wp : word OpenWith.file_option) by (split; reflexivity).
  assert (Ws : word []) by (split; reflexivity).
  split; [exact Wp|]. split; [exact Ws|].
  exact (proj1 (variable_expands_in_place OpenWith.example_sep
                  OpenWith.example_basename OpenWith.example_dirname
                  OpenWith.example_window OpenWith.file_option []
                  OpenWith.identifier_f Wp Ws) _ eq_refl).
Defined.

(** * Event coalescing *)

Lemma put_back_map (events : list gdk_event) :
  put_back events = map Some events.
Proof.
  unfold put_back.
  assert (G : forall q, fold_left
            (fun queue queued_event => queue ++ [Some queued_event])
            events q = q ++ map Some events).
  { induction events as [|e events IH]; intros q; simpl.
    - symmetry. apply app_nil_r.
    - rewrite IH, <- app_assoc. reflexivity. }
  apply (G []).
Qed.

Lemma last_cons_default {A : Type} (l : list A) : forall a d : A,
  last (a :: l) d = last l a.
Proof.
  induction l as [|b l IH]; intros a d; [reflexivity|].
  change (last (a :: b :: l) d) with (last (b :: l) d).
  rewrite (IH b d), (IH b a). reflexivity.
Qed.

Lemma drain_spec (queue : list (option gdk_event)) :
  forall (event : gdk_event) (events : list gdk_event),
  drain queue event events =
    (last (of_type (type event) (fetched queue)) event,
     events ++ of_other_type (type event) (fetched queue)).
Proof.
  induction queue as [|[q|] queue IH]; intros event events.
  - simpl. rewrite app_nil_r. reflexivity.
  - simpl drain. unfold of_type, of_other_type in *.
    simpl fetched. simpl filter.
    destruct (type q =? type event) eqn:T; cbn [negb].
    + apply Z.eqb_eq in T. rewrite IH, T.
      f_equal. symmetry. apply last_cons_default.
    + rewrite IH, <- app_assoc. reflexivity.
  - simpl. apply IH.
Qed.

Lemma last_of_type (ty : Z) (l : list gdk_event) (d : gdk_event) :
  type d = ty -> type (last (of_type ty l) d) = ty.
Proof.
  intros D. unfold of_type.
  induction l as [|e l IH]; [exact D|].
  simpl. destruct (type e =? ty) eqn:T; [|exact IH].
  simpl. destruct (filter (fun e0 => type e0 =? ty) l) eqn:F.
  - apply Z.eqb_eq. exact T.
  - exact IH.
Qed.

Lemma coalesced (event : gdk_event) (queue : list (option gdk_event)) :
  _get_latest_event_of_same_type event queue =
    (last (of_type (type event) (fetched queue)) event,
     map Some (of_other_type (type event) (fetched queue))).
Proof.
  unfold _get_latest_event_of_same_type.
  rewrite drain_spec, put_back_map. reflexivity.
Qed.

(** X7.  Coalescing returns the last queued event of the type of [event],
    or [event] itself when the queue holds none; the returned event has
    that type; and the queue is left with the events of the other types,
    all of them and in their order. *)
Theorem latest_event_of_same_type (event : gdk_event)
    (queue : list (option gdk_event)) :
  let '(latest, queue') := _get_latest_event_of_same_type event queue in
  latest = last (of_type (type event) (fetched queue)) event /\
  type latest = type event /\
  queue' = map Some (of_other_type (type event) (fetched queue)).
Proof.
  rewrite coalesced.
  repeat split. apply last_of_type. reflexivity.
Qed.

Lemma fetched_map_Some (l : list gdk_event) : fetched (map Some l) = l.
Proof.
  induction l as [|e l IH]; [reflexivity|].
  simpl. rewrite IH. reflexivity.
Qed.

Lemma of_type_of_other_type (ty : Z) (l : list gdk_event) :
  of_type ty (of_other_type ty l) = [].
Proof.
  unfold of_type, of_other_type.
  induction l as [|e l IH]; [reflexivity|].
  simpl. destruct (type e =? ty) eqn:T; simpl; [exact IH|].
  rewrite T. exact IH.
Qed.

Lemma of_other_type_twice (ty : Z) (l : list gdk_event) :
  of_other_type ty (of_other_type ty l) = of_other_type ty l.
Proof.
  unfold of_other_type.
  induction l as [|e l IH]; [reflexivity|].
  simpl. destruct (type e =? ty) eqn:T; simpl; [exact IH|].
  rewrite T. simpl. rewrite IH. reflexivity.
Qed.

(** X8.  Coalescing twice is coalescing once: on the queue it leaves, a
    second call for the returned event returns that event and leaves the
    queue as it is. *)
Theorem coalescing_is_idempotent (event : gdk_event)
    (queue : list (option gdk_event)) :
  let '(latest, queue') := _get_latest_event_of_same_type event queue in
  _get_latest_event_of_same_type latest queue' = (latest, queue').
Proof.
  rewrite coalesced, coalesced, fetched_map_Some.
  rewrite (last_of_type (type event) (fetched queue) event eq_refl).
  rewrite of_type_of_other_type, of_other_type_twice. reflexivity.
Qed.

(** * Plain scrolling with flipping *)

Section Scroll_with_flipping.

Context {W : Type} `{Window W}.
Variable prefs : Prefs.

(** What one call of [_scroll_with_flipping] does, with the direction the
    code computes from the window the scroll leaves. *)
Lemma scroll_with_flipping_log (x y : Z) (w : World W) :
  exists r w' tail,
    _scroll_with_flipping prefs x y w = Done r w' /\
    calls w' = calls w ++ Scroll x y None :: tail /\
    ((r = true /\ tail = []) \/
     (r = false /\
      tail = [flip_call
                (forwards_scroll x y
                   (is_manga_mode (snd (scroll x y None (window w)))))])) /\
    (fst (scroll x y None (window w)) = true ->
     r = true /\ _extra_scroll_events (handler w') = 0) /\
    _scroll_protection (handler w') = true /\
    _last_scroll_was_direction_1 (handler w') = false.
Proof.
  unfold _scroll_with_flipping.
  unfold bind at 1. unfold set_scroll_protection at 1.
  unfold bind at 1. unfold set_last_scroll_was_direction_1 at 1.
  unfold bind at 1. unfold window_scroll at 1.
  cbn [handler window calls _extra_scroll_events _scroll_protection
       _last_scroll_was_direction_1].
  destruct (scroll x y None (window w)) as [scrolled w1].
  cbn [fst snd]. destruct scrolled.
  - eexists _, _, []. split; [reflexivity|]. cbn.
    split; [reflexivity|]. split; [left; split; reflexivity|].
    repeat split.
  - unfold bind at 1. unfold ask at 1. cbn [window].
    fold (forwards_scroll x y (is_manga_mode w1)).
    destruct (forwards_scroll x y (is_manga_mode w1)); unfold bind at 1.
    + match goal with
      | |- context [_next_page_with_protection prefs ?v] =>
          destruct (next_page_cases prefs v)
            as [[_ R]|[[_ [_ R]]|[_ [_ [_ R]]]]]; rewrite R
      end; unfold ret; cbn.
      * eexists _, _, []. split; [reflexivity|]. cbn.
        split; [reflexivity|]. split; [left; split; reflexivity|].
        repeat split; intros; discriminate.
      * eexists _, _, [NextPage]. split; [reflexivity|]. cbn.
        split; [rewrite <- app_assoc; reflexivity|].
        split; [right; split; reflexivity|].
        repeat split; intros; discriminate.
      * eexists _, _, []. split; [reflexivity|]. cbn.
        split; [reflexivity|]. split; [left; split; reflexivity|].
        repeat split; intros; discriminate.
    + match goal with
      | |- context [_previous_page_with_protection prefs ?v] =>
          destruct (previous_page_cases prefs v)
            as [[_ R]|[[_ [_ R]]|[_ [_ [_ R]]]]]; rewrite R
      end; unfold ret; cbn.
      * eexists _, _, []. split; [reflexivity|]. cbn.
        split; [reflexivity|]. split; [left; split; reflexivity|].
        repeat split; intros; discriminate.
      * eexists _, _, [PreviousPage]. split; [reflexivity|]. cbn.
        split; [rewrite <- app_assoc; reflexivity|].
        split; [right; split; reflexivity|].
        repeat split; intros; discriminate.
      * eexists _, _, []. split; [reflexivity|]. cbn.
        split; [reflexivity|]. split; [left; split; reflexivity|].
        repeat split; intros; discriminate.
Qed.

(** X9.  [_scroll_with_flipping] always asks the window for the scroll
    first, and returns [False] exactly when it then flipped a page, by
    one call of [next_page] or of [previous_page]; otherwise that scroll
    is its only call.  A scroll the window accepts gives [True] and resets
    the debounce counter to 0.  In every case the call ends with the
    protection flag set and the last-axis memory cleared. *)
Theorem scroll_with_flipping_contract (x y : Z) (w : World W) :
  exists r w' tail,
    _scroll_with_flipping prefs x y w = Done r w' /\
    calls w' = calls w ++ Scroll x y None :: tail /\
    ((r = true /\ tail = []) \/
     (r = false /\ (tail = [NextPage] \/ tail = [PreviousPage]))) /\
    (fst (scroll x y None (window w)) = true ->
     r = true /\ _extra_scroll_events (handler w') = 0) /\
    _scroll_protection (handler w') = true /\
    _last_scroll_was_direction_1 (handler w') = false.
Proof.
  destruct (scroll_with_flipping_log x y w)
    as (r & w' & tail & R & C & T & S & P & L).
  exists r, w', tail. repeat split; try assumption; try (apply S; assumption).
  destruct T as [T|[Tr Tt]]; [left; exact T|].
  right. split; [exact Tr|]. rewrite Tt.
  destruct (forwards_scroll _ _ _); [left|right]; reflexivity.
Qed.

Lemma forwards_down (step : Z) (m : bool) :
  0 < step -> forwards_scroll 0 step m = true.
Proof.
  intros S. unfold forwards_scroll.
  destruct (Z.gtb_spec step 0); [reflexivity | lia].
Qed.

Lemma forwards_up (step : Z) (m : bool) :
  0 < step -> forwards_scroll 0 (- step) m = false.
Proof.
  intros S. unfold forwards_scroll.
  destruct (Z.gtb_spec (- step) 0); [lia|]. destruct m; reflexivity.
Qed.

Lemma forwards_right (step : Z) (m : bool) :
  0 < step -> forwards_scroll step 0 m = negb m.
Proof.
  intros S. unfold forwards_scroll.
  destruct (Z.gtb_spec step 0); [|lia].
  destruct (Z.ltb_spec step 0); [lia|]. destruct m; reflexivity.
Qed.

Lemma forwards_left (step : Z) (m : bool) :
  0 < step -> forwards_scroll (- step) 0 m = m.
Proof.
  intros S. unfold forwards_scroll.
  destruct (Z.gtb_spec (- step) 0); [lia|].
  destruct (Z.ltb_spec (- step) 0); [|lia]. destruct m; reflexivity.
Qed.

(** One arrow-key scroll: the scroll, then possibly the flip [flip]. *)
Lemma arrow_key_log (x y : Z) (w : World W) :
  exists w' tail,
    (_scroll_with_flipping prefs x y ;; ret tt) w = Done tt w' /\
    calls w' = calls w ++ Scroll x y None :: tail /\
    (tail = [] \/
     tail = [flip_call
               (forwards_scroll x y
                  (is_manga_mode (snd (scroll x y None (window w)))))]).
Proof.
  destruct (scroll_with_flipping_log x y w)
    as (r & w' & tail & R & C & T & _).
  exists w', tail. unfold bind. rewrite R.
  split; [reflexivity|]. split; [exact C|].
  destruct T as [[_ T]|[_ T]]; [left | right]; exact T.
Qed.

(** X13.  With a positive key step the arrow keys flip in their own
    direction only: after its scroll request, Down may call [next_page]
    and nothing else, Up may call [previous_page] and nothing else, Right
    flips forward when reading left-to-right and backward in manga mode,
    and Left the other way round (the reading order being that of the
    window the refused scroll leaves). *)
Theorem arrow_keys_flip_direction (w : World W) :
  0 < number_of_pixels_to_scroll_per_key_event prefs ->
  let step := number_of_pixels_to_scroll_per_key_event prefs in
  (exists w' tail,
     _scroll_down prefs w = Done tt w' /\
     calls w' = calls w ++ Scroll 0 step None :: tail /\
     (tail = [] \/ tail = [NextPage])) /\
  (exists w' tail,
     _scroll_up prefs w = Done tt w' /\
     calls w' = calls w ++ Scroll 0 (- step) None :: tail /\
     (tail = [] \/ tail = [PreviousPage])) /\
  (exists w' tail,
     _scroll_right prefs w = Done tt w' /\
     calls w' = calls w ++ Scroll step 0 None :: tail /\
     (tail = [] \/
      tail = [if is_manga_mode (snd (scroll step 0 None (window w)))
              then PreviousPage else NextPage])) /\
  (exists w' tail,
     _scroll_left prefs w = Done tt w' /\
     calls w' = calls w ++ Scroll (- step) 0 None :: tail /\
     (tail = [] \/
      tail = [if is_manga_mode (snd (scroll (- step) 0 None (window w)))
              then NextPage else PreviousPage])).
Proof.
  intros S step. subst step.
  split; [|split; [|split]].
  - destruct (arrow_key_log 0
                (number_of_pixels_to_scroll_per_key_event prefs) w)
      as (w' & tail & R & C & T).
    rewrite forwards_down in T by exact S.
    exists w', tail. repeat split; assumption.
  - destruct (arrow_key_log 0
                (- number_of_pixels_to_scroll_per_key_event prefs) w)
      as (w' & tail & R & C & T).
    rewrite forwards_up in T by exact S.
    exists w', tail. repeat split; assumption.
  - destruct (arrow_key_log
                (number_of_pixels_to_scroll_per_key_event prefs) 0 w)
      as (w' & tail & R & C & T).
    rewrite forwards_right in T by exact S.
    exists w', tail. split; [exact R|]. split; [exact C|].
    destruct T as [T|T]; [left; exact T|]. right. rewrite T.
    destruct (is_manga_mode _); reflexivity.
  - destruct (arrow_key_log
                (- number_of_pixels_to_scroll_per_key_event prefs) 0 w)
      as (w' & tail & R & C & T).
    rewrite forwards_left in T by exact S.
    exists w', tail. split; [exact R|]. split; [exact C|].
    destruct T as [T|T]; [left; exact T|]. right. rewrite T.
    destruct (is_manga_mode _); reflexivity.
Qed.

End Scroll_with_flipping.

(** * The debounce seen from the keyboard and the wheel *)

(** Counts the flips of a log written as a concatenation. *)
Ltac count_flips :=
  unfold flips_next, flips_previous, count; cbn;
  rewrite ?filter_app, ?length_app; cbn; lia.

Section Debounced_gestures.

Context {W : Type} `{Window W}.
Variable prefs : Prefs.
Variable win : W.

Hypothesis flip_on : flip_with_wheel prefs = true.
Hypothesis refused : forall x y bound, scroll x y bound win = (false, win).
Hypothesis room : is_scrollable_vertically win = true.

Lemma count_app (f : call -> bool) (l l' : list call) :
  count f (l ++ l') = (count f l + count f l')%nat.
Proof. unfold count. rewrite filter_app, length_app. reflexivity. Qed.

Lemma debounced_scroll_with_flipping (x y : Z) :
  forwards_scroll x y (is_manga_mode win) = true ->
  debounced_forward prefs win (_scroll_with_flipping prefs x y).
Proof.
  intros F w Hw H0.
  unfold _scroll_with_flipping.
  unfold bind at 1. unfold set_scroll_protection at 1.
  unfold bind at 1. unfold set_last_scroll_was_direction_1 at 1.
  unfold bind at 1. unfold window_scroll at 1.
  cbn [handler window calls _extra_scroll_events _scroll_protection
       _last_scroll_was_direction_1].
  rewrite Hw, refused.
  unfold bind at 1. unfold ask at 1. cbn [window].
  fold (forwards_scroll x y (is_manga_mode win)). rewrite F.
  unfold bind at 1.
  match goal with
  | |- context [_next_page_with_protection prefs ?v] => set (v0 := v)
  end.
  assert (E : with_extra (_extra_scroll_events (handler w)) v0 = v0)
    by reflexivity.
  destruct (Z_lt_le_dec (_extra_scroll_events (handler w))
              (number_of_key_presses_before_page_turn prefs - 1))
    as [Lt|Ge].
  - rewrite <- E.
    rewrite (next_accumulates prefs flip_on v0 eq_refl room) by exact Lt.
    unfold ret. eexists _, _. split; [reflexivity|].
    split; [|split].
    + count_flips.
    + intros _. cbn. split; [lia|]. split; [reflexivity|]. count_flips.
    + intros Ge. lia.
  - rewrite <- E.
    rewrite (next_flips prefs flip_on v0 eq_refl room) by exact Ge.
    unfold ret. eexists _, _. split; [reflexivity|].
    split; [|split].
    + count_flips.
    + intros Lt. lia.
    + intros _. cbn. split; [reflexivity|]. split; [reflexivity|].
      count_flips.
Qed.

Lemma debounced_after_quiet {A B : Type} (m : M W A) (k : A -> M W B) :
  quiet m -> (forall a, debounced_forward prefs win (k a)) ->
  debounced_forward prefs win (bind m k).
Proof.
  intros Hm Hk w Hw H0.
  destruct (Hm w) as (a & w1 & R1 & W1 & C1 & N1 & P1).
  destruct (Hk a w1) as (b & w2 & R2 & P2 & Lt & Ge);
    [congruence | lia |].
  exists b, w2. unfold bind. rewrite R1.
  split; [exact R2|]. rewrite <- C1, <- N1, <- P1.
  repeat split; try assumption; try (apply Lt; assumption);
    apply Ge; assumption.
Qed.

Lemma debounced_then_quiet {A B : Type} (m : M W A) (k : A -> M W B) :
  debounced_forward prefs win m -> (forall a, quiet (k a)) ->
  debounced_forward prefs win (bind m k).
Proof.
  intros Hm Hk w Hw H0.
  destruct (Hm w Hw H0) as (a & w1 & R1 & P1 & Lt & Ge).
  destruct (Hk a w1) as (b & w2 & R2 & W2 & C2 & N2 & P2).
  exists b, w2. unfold bind. rewrite R1.
  split; [exact R2|]. rewrite W2, C2, N2, P2.
  repeat split; try assumption; try (apply Lt; assumption);
    apply Ge; assumption.
Qed.

Lemma quiet_ret {A : Type} (a : A) : quiet (W := W) (ret a).
Proof. intros w. exists a, w. repeat split. Qed.

Lemma quiet_set_scroll_protection (b : bool) :
  quiet (W := W) (set_scroll_protection b).
Proof. intros w. eexists _, _. repeat split. Qed.

Lemma quiet_log (c : call) :
  is_next_page c = false -> is_previous_page c = false ->
  quiet (W := W) (window_log c).
Proof.
  intros N P w. eexists _, _. split; [reflexivity|].
  unfold flips_next, flips_previous, count. cbn.
  rewrite !filter_app, !length_app. cbn. rewrite N, P. cbn.
  repeat split; lia.
Qed.

Lemma quiet_bind {A B : Type} (m : M W A) (k : A -> M W B) :
  quiet m -> (forall a, quiet (k a)) -> quiet (bind m k).
Proof.
  intros Hm Hk w.
  destruct (Hm w) as (a & w1 & R1 & W1 & C1 & N1 & P1).
  destruct (Hk a w1) as (b & w2 & R2 & W2 & C2 & N2 & P2).
  exists b, w2. unfold bind. rewrite R1.
  split; [exact R2|]. repeat split; congruence.
Qed.

(** A run of [k] absorbed gestures, and the run that ends in the flip. *)
Lemma times_debounced {A : Type} (m : M W A) :
  debounced_forward prefs win m ->
  forall (k : nat) (w : World W),
  window w = win -> 0 <= _extra_scroll_events (handler w) ->
  (_extra_scroll_events (handler w) + Z.of_nat k
     <= number_of_key_presses_before_page_turn prefs - 1 ->
   exists w',
     times k m w = Done tt w' /\
     _extra_scroll_events (handler w')
       = _extra_scroll_events (handler w) + Z.of_nat k /\
     window w' = win /\
     flips_next w' = flips_next w /\
     flips_previous w' = flips_previous w) /\
  (_extra_scroll_events (handler w) + Z.of_nat k
     = number_of_key_presses_before_page_turn prefs - 1 ->
   exists w',
     times (S k) m w = Done tt w' /\
     _extra_scroll_events (handler w') = 0 /\
     window w' = next_page win /\
     flips_next w' = S (flips_next w) /\
     flips_previous w' = flips_previous w).
Proof.
  intros Hm. induction k as [|k IH]; intros w Hw H0.
  - split.
    + intros _. exists w. split; [reflexivity|].
      repeat split; [lia | exact Hw].
    + intros E.
      destruct (Hm w Hw H0) as (a & w1 & R1 & P1 & _ & Ge).
      destruct Ge as (C1 & W1 & N1); [lia|].
      exists w1. cbn [times]. unfold bind. rewrite R1.
      repeat split; assumption.
  - destruct (Hm w Hw H0) as (a & w1 & R1 & P1 & Lt & _).
    split.
    + intros E. destruct Lt as (C1 & W1 & N1); [lia|].
      destruct (IH w1 W1) as [IHa _]; [lia|].
      destruct IHa as (w' & R & C & Ww & N & P); [lia|].
      exists w'. cbn [times]. unfold bind at 1. rewrite R1.
      split; [exact R|]. repeat split; try assumption; try lia; congruence.
    + intros E. destruct Lt as (C1 & W1 & N1); [lia|].
      destruct (IH w1 W1) as [_ IHb]; [lia|].
      destruct IHb as (w' & R & C & Ww & N & P); [lia|].
      exists w'.
      change (times (S (S k)) m) with (m ;; times (S k) m).
      unfold bind at 1. rewrite R1.
      split; [exact R|]. repeat split; try assumption; congruence.
Qed.

Lemma debounced_key_press (event : key_event) :
  binding event = Some cb_scroll_down ->
  0 < number_of_pixels_to_scroll_per_key_event prefs ->
  debounced_forward prefs win (key_press_event prefs event).
Proof.
  intros B S. unfold key_press_event, manager_execute. rewrite B.
  apply debounced_after_quiet;
    [apply quiet_set_scroll_protection | intros _].
  apply debounced_then_quiet.
  - cbn [run_callback]. unfold _scroll_down.
    apply debounced_then_quiet; [|intros; apply quiet_ret].
    apply debounced_scroll_with_flipping.
    unfold forwards_scroll.
    destruct (Z.gtb_spec (number_of_pixels_to_scroll_per_key_event prefs) 0);
      [reflexivity | lia].
  - intros _. apply quiet_bind.
    + destruct (is_control event);
        [apply quiet_log; reflexivity | apply quiet_ret].
    + intros _. destruct (kills_signal event).
      * apply quiet_bind; [apply quiet_log; reflexivity|].
        intros; apply quiet_ret.
      * apply quiet_ret.
Qed.

Lemma debounced_wheel_tick (event : scroll_event) :
  button2_mask event = false -> direction event = SCROLL_DOWN ->
  smart_scroll prefs = false ->
  0 < number_of_pixels_to_scroll_per_mouse_wheel_event prefs ->
  debounced_forward prefs win (scroll_wheel_event prefs event).
Proof.
  intros B D S P. unfold scroll_wheel_event. rewrite B, D, S.
  apply debounced_after_quiet;
    [apply quiet_set_scroll_protection | intros _].
  cbv zeta.
  apply debounced_then_quiet; [|intros; apply quiet_ret].
  apply debounced_scroll_with_flipping.
  unfold forwards_scroll.
  destruct (Z.gtb_spec
              (number_of_pixels_to_scroll_per_mouse_wheel_event prefs) 0);
    [reflexivity | lia].
Qed.

End Debounced_gestures.

(** * Smart scrolling: the shape of a run *)

Section Hoare.

Context {W : Type} `{Window W}.

Lemma hoare_bind {A B : Type} (P : World W -> Prop)
    (Q : A -> World W -> Prop) (R : B -> World W -> Prop)
    (m : M W A) (k : A -> M W B) :
  hoare P m Q -> (forall a, hoare (Q a) (k a) R) -> hoare P (bind m k) R.
Proof.
  intros Hm Hk w Hw.
  destruct (Hm w Hw) as (a & w1 & E1 & Q1).
  destruct (Hk a w1 Q1) as (b & w2 & E2 & R2).
  exists b, w2. unfold bind. rewrite E1. split; assumption.
Qed.

Lemma hoare_ret {A : Type} (P : World W -> Prop)
    (Q : A -> World W -> Prop) (a : A) :
  (forall w, P w -> Q a w) -> hoare P (ret a) Q.
Proof. intros I w Hw. exists a, w. split; [reflexivity | auto]. Qed.

Lemma hoare_pure {A : Type} (phi : Prop) (P : World W -> Prop)
    (Q : A -> World W -> Prop) (m : M W A) :
  (phi -> hoare P m Q) -> hoare (fun w => phi /\ P w) m Q.
Proof. intros I w [Hphi Hw]. exact (I Hphi w Hw). Qed.

Variable prefs : Prefs.
Variable w0 : World W.

Lemma shape_get {A : Type} (f : EventHandler -> A) :
  hoare (scrolled_since w0) (get f) (fun _ => scrolled_since w0).
Proof. intros w Hw. eexists _, w. split; [reflexivity | exact Hw]. Qed.

Lemma shape_ask {A : Type} (q : W -> A) :
  hoare (scrolled_since w0) (ask q) (fun _ => scrolled_since w0).
Proof. intros w Hw. eexists _, w. split; [reflexivity | exact Hw]. Qed.

Lemma shape_set_last (b : bool) :
  hoare (scrolled_since w0) (set_last_scroll_was_direction_1 b)
    (fun _ => scrolled_since w0).
Proof. intros w Hw. eexists _, _. split; [reflexivity | exact Hw]. Qed.

Lemma shape_scroll (x y : Z) (bound : option subpage) :
  hoare (scrolled_since w0) (window_scroll x y bound)
    (fun _ => scrolled_since w0).
Proof.
  intros w (pre & C & F). unfold window_scroll.
  destruct (scroll x y bound (window w)) as [r win].
  eexists _, _. split; [reflexivity|].
  exists (pre ++ [Scroll x y bound]). cbn.
  rewrite C, <- app_assoc, forallb_app, F. split; reflexivity.
Qed.

Lemma shape_scroll_to_fixed (h : option horiz) (v : option vert) :
  hoare (scrolled_since w0) (window_scroll_to_fixed h v)
    (fun _ => scrolled_since w0).
Proof.
  intros w (pre & C & F). unfold window_scroll_to_fixed.
  destruct (scroll_to_fixed h v (window w)) as [r win].
  eexists _, _. split; [reflexivity|].
  exists (pre ++ [ScrollToFixed h v]). cbn.
  rewrite C, <- app_assoc, forallb_app, F. split; reflexivity.
Qed.

Lemma shape_smart_steps (small_step : option Z) :
  hoare (scrolled_since w0) (smart_steps prefs small_step)
    (fun _ => scrolled_since w0).
Proof. intros w Hw. eexists _, w. split; [reflexivity | exact Hw]. Qed.

Lemma shape_done {A : Type} (flip : call) (a : A) :
  hoare (scrolled_since w0) (ret a)
    (fun _ => flipped_at_most_once flip w0).
Proof.
  apply hoare_ret. intros w (pre & C & F).
  exists pre, []. rewrite app_nil_r. repeat split; auto.
Qed.

Lemma shape_kept {A : Type} (flip : call) (a : A) :
  hoare (flipped_at_most_once flip w0) (ret a)
    (fun _ => flipped_at_most_once flip w0).
Proof. apply hoare_ret. auto. Qed.

Lemma shape_next_page_with_protection :
  hoare (scrolled_since w0) (_next_page_with_protection prefs)
    (fun _ => flipped_at_most_once NextPage w0).
Proof.
  intros w (pre & C & F).
  destruct (next_page_cases prefs w) as [[_ R]|[[_ [_ R]]|[_ [_ [_ R]]]]];
    rewrite R; eexists _, _; (split; [reflexivity|]).
  - exists pre, []. cbn. rewrite app_nil_r. repeat split; auto.
  - exists pre, [NextPage]. cbn. rewrite C, <- app_assoc.
    repeat split; auto.
  - exists pre, []. cbn. rewrite app_nil_r. repeat split; auto.
Qed.

Lemma shape_previous_page_with_protection :
  hoare (scrolled_since w0) (_previous_page_with_protection prefs)
    (fun _ => flipped_at_most_once PreviousPage w0).
Proof.
  intros w (pre & C & F).
  destruct (previous_page_cases prefs w)
    as [[_ R]|[[_ [_ R]]|[_ [_ [_ R]]]]];
    rewrite R; eexists _, _; (split; [reflexivity|]).
  - exists pre, []. cbn. rewrite app_nil_r. repeat split; auto.
  - exists pre, [PreviousPage]. cbn. rewrite C, <- app_assoc.
    repeat split; auto.
  - exists pre, []. cbn. rewrite app_nil_r. repeat split; auto.
Qed.

End Hoare.

Create HintDb shape.

#[export] Hint Resolve shape_smart_steps shape_get shape_ask shape_set_last shape_scroll
  shape_scroll_to_fixed shape_done shape_kept
  shape_next_page_with_protection shape_previous_page_with_protection
  : shape.

(** Walks a handler body towards a post-condition: at a bind, the first
    part is closed from the hint database, which fixes the assertion the
    rest starts from. *)
Ltac hoare_walk db :=
  repeat (cbv beta zeta;
    match goal with
    | |- hoare _ (bind _ _) _ =>
        eapply hoare_bind; [solve [eauto with db] | intro]
    | |- hoare _ (if ?c then _ else _) _ => destruct c
    | |- hoare _ _ _ => solve [eauto with db]
    end).

Section Shape.

Context {W : Type} `{Window W}.
Variable prefs : Prefs.

Lemma scrolled_since_refl (w : World W) : scrolled_since w w.
Proof. exists []. rewrite app_nil_r. split; reflexivity. Qed.

(** X10.  A call of smart scroll flips at most one page and never in the
    wrong direction: whatever the window answers, [_smart_scroll_down]
    ends normally after a few scrolling calls ([scroll],
    [scroll_to_fixed]) followed by at most one [next_page], its last
    call, and [_smart_scroll_up] likewise with [previous_page]. *)
Theorem smart_scroll_flips_at_most_once (small_step : option Z)
    (w : World W) :
  (exists w',
     _smart_scroll_down prefs small_step w = Done tt w' /\
     flipped_at_most_once NextPage w w') /\
  (exists w',
     _smart_scroll_up prefs small_step w = Done tt w' /\
     flipped_at_most_once PreviousPage w w').
Proof.
  split.
  - assert (G : hoare (scrolled_since w) (_smart_scroll_down prefs small_step)
                  (fun _ => flipped_at_most_once NextPage w)).
    { unfold _smart_scroll_down. hoare_walk shape. }
    destruct (G w (scrolled_since_refl w)) as ([] & w' & R & S).
    exists w'. split; assumption.
  - assert (G : hoare (scrolled_since w) (_smart_scroll_up prefs small_step)
                  (fun _ => flipped_at_most_once PreviousPage w)).
    { unfold _smart_scroll_up. hoare_walk shape. }
    destruct (G w (scrolled_since_refl w)) as ([] & w' & R & S).
    exists w'. split; assumption.
Qed.

End Shape.

(** * Manga mode: the horizontal attempts of a smart scroll *)

Section Prefix.

Context {W : Type} `{Window W}.
Variable prefs : Prefs.
Variable l : list call.

Lemma starts_with_more (v v' : World W) (more : list call) :
  starts_with l v -> calls v' = calls v ++ more -> starts_with l v'.
Proof.
  intros [rest E] E'. exists (rest ++ more).
  rewrite E', E, app_assoc. reflexivity.
Qed.

Lemma prefix_ret {A : Type} (a : A) :
  hoare (@starts_with W l) (ret a) (fun _ => starts_with l).
Proof. apply hoare_ret. auto. Qed.

Lemma prefix_get {A : Type} (f : EventHandler -> A) :
  hoare (@starts_with W l) (get f) (fun _ => starts_with l).
Proof. intros w Hw. eexists _, w. split; [reflexivity | exact Hw]. Qed.

Lemma prefix_ask {A : Type} (q : W -> A) :
  hoare (@starts_with W l) (ask q) (fun _ => starts_with l).
Proof. intros w Hw. eexists _, w. split; [reflexivity | exact Hw]. Qed.

Lemma prefix_set_last (b : bool) :
  hoare (@starts_with W l) (set_last_scroll_was_direction_1 b)
    (fun _ => starts_with l).
Proof. intros w Hw. eexists _, _. split; [reflexivity | exact Hw]. Qed.

Lemma prefix_scroll (x y : Z) (bound : option subpage) :
  hoare (@starts_with W l) (window_scroll x y bound) (fun _ => starts_with l).
Proof.
  intros w Hw. unfold window_scroll.
  destruct (scroll x y bound (window w)) as [r win].
  eexists _, _. split; [reflexivity|].
  apply (starts_with_more w _ [Scroll x y bound] Hw). reflexivity.
Qed.

Lemma prefix_scroll_to_fixed (h : option horiz) (v : option vert) :
  hoare (@starts_with W l) (window_scroll_to_fixed h v)
    (fun _ => starts_with l).
Proof.
  intros w Hw. unfold window_scroll_to_fixed.
  destruct (scroll_to_fixed h v (window w)) as [r win].
  eexists _, _. split; [reflexivity|].
  apply (starts_with_more w _ [ScrollToFixed h v] Hw). reflexivity.
Qed.

Lemma prefix_next_page_with_protection :
  hoare (@starts_with W l) (_next_page_with_protection prefs)
    (fun _ => starts_with l).
Proof.
  intros w Hw.
  destruct (next_page_cases prefs w) as [[_ R]|[[_ [_ R]]|[_ [_ [_ R]]]]];
    rewrite R; eexists _, _; (split; [reflexivity|]).
  - apply (starts_with_more w _ [] Hw). symmetry. apply app_nil_r.
  - apply (starts_with_more w _ [NextPage] Hw). reflexivity.
  - apply (starts_with_more w _ [] Hw). symmetry. apply app_nil_r.
Qed.

Lemma prefix_previous_page_with_protection :
  hoare (@starts_with W l) (_previous_page_with_protection prefs)
    (fun _ => starts_with l).
Proof.
  intros w Hw.
  destruct (previous_page_cases prefs w)
    as [[_ R]|[[_ [_ R]]|[_ [_ [_ R]]]]];
    rewrite R; eexists _, _; (split; [reflexivity|]).
  - apply (starts_with_more w _ [] Hw). symmetry. apply app_nil_r.
  - apply (starts_with_more w _ [PreviousPage] Hw). reflexivity.
  - apply (starts_with_more w _ [] Hw). symmetry. apply app_nil_r.
Qed.

(** A scroll made when the log is [l] puts its call right after [l]. *)
Lemma logged_scroll (x y : Z) (bound : option subpage) :
  hoare (fun v : World W => calls v = l) (window_scroll x y bound)
    (fun _ => starts_with (l ++ [Scroll x y bound])).
Proof.
  intros w Hw. unfold window_scroll.
  destruct (scroll x y bound (window w)) as [r win].
  eexists _, _. split; [reflexivity|].
  exists []. cbn. rewrite Hw, app_nil_r. reflexivity.
Qed.

Lemma logged_set_last (b : bool) :
  hoare (fun v : World W => calls v = l) (set_last_scroll_was_direction_1 b)
    (fun _ v => calls v = l).
Proof. intros w Hw. eexists _, _. split; [reflexivity | exact Hw]. Qed.

End Prefix.

Create HintDb prefix.

#[export] Hint Resolve prefix_ret prefix_get prefix_ask prefix_set_last
  prefix_scroll prefix_scroll_to_fixed prefix_next_page_with_protection
  prefix_previous_page_with_protection : prefix.

(** A step of a run before its first call: what it reads is read from the
    world the run started from. *)
Tactic Notation "reads" open_constr(lem) :=
  eapply hoare_bind; [apply lem | intro; apply hoare_pure; intros ->].

Section Primary_attempts.

Context {W : Type} `{Window W}.
Variable prefs : Prefs.
Variable small_step : option Z.

(** The world a run starts from. *)
Variable w0 : World W.

(** Up to its first call a run reads the world it started from. *)
Lemma fresh_smart_steps :
  hoare (fun v => v = w0) (smart_steps prefs small_step)
    (fun st v => st = steps_on prefs small_step (window w0) /\ v = w0).
Proof. intros v ->. eexists _, _. repeat split. Qed.

Lemma fresh_ask {A : Type} (q : W -> A) :
  hoare (fun v => v = w0) (ask q) (fun a v => a = q (window w0) /\ v = w0).
Proof. intros v ->. eexists _, _. repeat split. Qed.

Lemma fresh_get {A : Type} (f : EventHandler -> A) :
  hoare (fun v => v = w0) (get f) (fun a v => a = f (handler w0) /\ v = w0).
Proof. intros v ->. eexists _, _. repeat split. Qed.

Lemma first_scroll (x y : Z) (bound : option subpage) :
  hoare (fun v => v = w0) (window_scroll x y bound)
    (fun _ => starts_with (calls w0 ++ [Scroll x y bound])).
Proof. intros v ->. apply logged_scroll. reflexivity. Qed.

Lemma first_scroll_refused (x y : Z) (bound : option subpage) :
  fst (scroll x y bound (window w0)) = false ->
  hoare (fun v => v = w0) (window_scroll x y bound)
    (fun r v => r = false /\ calls v = calls w0 ++ [Scroll x y bound]).
Proof.
  intros R v ->. unfold window_scroll.
  destruct (scroll x y bound (window w0)) as [r win]. simpl in R. subst r.
  eexists _, _. repeat split.
Qed.

Lemma run_starts_with {A : Type} (m : M W A) (l : list call) :
  hoare (fun v => v = w0) m (fun _ => starts_with (calls w0 ++ l)) ->
  exists rest, calls (final (m w0)) = calls w0 ++ l ++ rest.
Proof.
  intros G. destruct (G w0 eq_refl) as (a & w' & R & rest & E).
  exists rest. rewrite R. simpl. rewrite E, app_assoc. reflexivity.
Qed.

Hypothesis smart_on : smart_scroll prefs = true.

(** On a double page, and on a single page without the invert
    preference, the first call of a smart scroll is the horizontal
    attempt by the small horizontal step. *)
Lemma smart_scroll_down_primary :
  displayed_double (window w0) = true \/ invert_smart_scroll prefs = false ->
  exists rest,
    calls (final (_smart_scroll_down prefs small_step w0)) =
      calls w0 ++
      [Scroll (x_step_small (steps_on prefs small_step (window w0))) 0
         (primary_bound (window w0))] ++ rest.
Proof.
  intros L. apply run_starts_with.
  unfold _smart_scroll_down, primary_bound.
  reads fresh_smart_steps.
  rewrite smart_on. cbn [negb].
  reads fresh_ask.
  destruct (displayed_double (window w0)).
  - reads fresh_ask.
    destruct (is_on_first_page (window w0));
      reads fresh_get;
      (eapply hoare_bind; [apply first_scroll | intro]);
      hoare_walk prefix.
  - destruct L as [L|L]; [discriminate L|]. rewrite L. cbn [negb].
    reads fresh_get.
    eapply hoare_bind; [apply first_scroll | intro].
    hoare_walk prefix.
Qed.

Lemma smart_scroll_up_primary :
  displayed_double (window w0) = true \/ invert_smart_scroll prefs = false ->
  exists rest,
    calls (final (_smart_scroll_up prefs small_step w0)) =
      calls w0 ++
      [Scroll (- x_step_small (steps_on prefs small_step (window w0))) 0
         (primary_bound (window w0))] ++ rest.
Proof.
  intros L. apply run_starts_with.
  unfold _smart_scroll_up, primary_bound.
  reads fresh_smart_steps.
  rewrite smart_on. cbn [negb].
  reads fresh_ask.
  destruct (displayed_double (window w0)).
  - reads fresh_ask.
    destruct (is_on_first_page (window w0));
      reads fresh_get;
      (eapply hoare_bind; [apply first_scroll | intro]);
      hoare_walk prefix.
  - destruct L as [L|L]; [discriminate L|]. rewrite L. cbn [negb].
    reads fresh_get.
    eapply hoare_bind; [apply first_scroll | intro].
    hoare_walk prefix.
Qed.

(** On a single page with the invert preference the vertical attempt
    comes first; when the window refuses it, the second call is the
    horizontal attempt, by the large horizontal step if the last scroll
    was along the first axis and that step is not 0, by the small one
    otherwise. *)
Section Inverted.

Hypothesis single : displayed_double (window w0) = false.
Hypothesis inverted : invert_smart_scroll prefs = true.

Lemma smart_scroll_down_inverted :
  let st := steps_on prefs small_step (window w0) in
  fst (scroll 0 (y_step_small st) None (window w0)) = false ->
  exists rest,
    calls (final (_smart_scroll_down prefs small_step w0)) =
      calls w0 ++
      [Scroll 0 (y_step_small st) None;
       Scroll (and_or (_last_scroll_was_direction_1 (handler w0))
                 (x_step_large st) (x_step_small st)) 0 None] ++ rest.
Proof.
  intros st R.
  change [Scroll 0 (y_step_small st) None;
          Scroll (and_or (_last_scroll_was_direction_1 (handler w0))
                    (x_step_large st) (x_step_small st)) 0 None]
    with ([Scroll 0 (y_step_small st) None] ++
          [Scroll (and_or (_last_scroll_was_direction_1 (handler w0))
                     (x_step_large st) (x_step_small st)) 0 None]).
  apply run_starts_with. rewrite app_assoc.
  unfold _smart_scroll_down.
  reads fresh_smart_steps.
  rewrite smart_on. cbn [negb].
  reads fresh_ask.
  rewrite single, inverted. cbn [negb].
  reads fresh_get.
  reads (first_scroll_refused _ _ _ R).
  eapply hoare_bind; [apply logged_set_last | intro].
  cbn [negb]. cbv zeta.
  eapply hoare_bind; [apply logged_scroll | intro].
  hoare_walk prefix.
Qed.

Lemma smart_scroll_up_inverted :
  let st := steps_on prefs small_step (window w0) in
  fst (scroll 0 (- y_step_small st) None (window w0)) = false ->
  exists rest,
    calls (final (_smart_scroll_up prefs small_step w0)) =
      calls w0 ++
      [Scroll 0 (- y_step_small st) None;
       Scroll (- and_or (_last_scroll_was_direction_1 (handler w0))
                   (x_step_large st) (x_step_small st)) 0 None] ++ rest.
Proof.
  intros st R.
  change [Scroll 0 (- y_step_small st) None;
          Scroll (- and_or (_last_scroll_was_direction_1 (handler w0))
                      (x_step_large st) (x_step_small st)) 0 None]
    with ([Scroll 0 (- y_step_small st) None] ++
          [Scroll (- and_or (_last_scroll_was_direction_1 (handler w0))
                       (x_step_large st) (x_step_small st)) 0 None]).
  apply run_starts_with. rewrite app_assoc.
  unfold _smart_scroll_up.
  reads fresh_smart_steps.
  rewrite smart_on. cbn [negb].
  reads fresh_ask.
  rewrite single, inverted. cbn [negb].
  reads fresh_get.
  reads (first_scroll_refused _ _ _ R).
  eapply hoare_bind; [apply logged_set_last | intro].
  cbn [negb]. cbv zeta.
  eapply hoare_bind; [apply logged_scroll | intro].
  hoare_walk prefix.
Qed.

End Inverted.

End Primary_attempts.

(** The scripted window: its first answer, and the steps in the two
    reading orders. *)
Lemma scripted_first_answer (b : bool) (s : Scripted) (x y : Z)
    (bound : option subpage) :
  fst (scroll x y bound (with_manga b s)) = hd false (answers s).
Proof. destruct s as [mg db fp ar sv [|a rest]]; reflexivity. Qed.

Lemma steps_on_scripted (prefs : Prefs) (small_step : option Z)
    (s : Scripted) :
  let st := step_sizes prefs (fst (area s)) (snd (area s)) small_step in
  steps_on prefs small_step (with_manga false s) = st /\
  x_step_small (steps_on prefs small_step (with_manga true s))
    = - x_step_small st /\
  x_step_large (steps_on prefs small_step (with_manga true s))
    = - x_step_large st /\
  y_step_small (steps_on prefs small_step (with_manga true s))
    = y_step_small st.
Proof.
  cbv zeta. unfold steps_on.
  cbn [is_manga_mode get_visible_area_size Scripted_Window with_manga
       manga area manga_steps x_step_small x_step_large y_step_small].
  repeat split; lia.
Qed.

(** C5.  Manga mode negates both horizontal steps and leaves the vertical
    ones alone.  For every handler state, every explicit or absent small
    step and every sequence of answers of the viewport, the run of smart
    scroll (down or up) in manga mode issues the calls of the
    left-to-right run with the horizontal deltas negated, call for call,
    and ends in the same handler state.  And the horizontal attempts are
    issued, with the step negated in manga mode: with smart scroll on, on
    a double page and on a single page without the invert preference,
    the first call of smart scroll down is [scroll(x_step_small, 0)] when
    reading left to right and [scroll(-x_step_small, 0)] in manga mode,
    and the other way round for smart scroll up; on a single page with
    the invert preference, where the vertical attempt comes first, the
    call that follows a refused vertical attempt is the horizontal one,
    by the large or the small horizontal step, again with opposite signs
    in the two reading orders. *)
Theorem manga_mirrors_horizontal_steps (prefs : Prefs)
    (small_step : option Z) :
  (forall width height : Z,
     let n := manga_steps false (step_sizes prefs width height small_step) in
     let m := manga_steps true (step_sizes prefs width height small_step) in
     x_step_small m = - x_step_small n /\
     x_step_large m = - x_step_large n /\
     y_step_small m = y_step_small n /\
     y_step_large m = y_step_large n) /\
  (forall (h : EventHandler) (s : Scripted),
     let m := _smart_scroll_down prefs small_step
                (start h (with_manga true s)) in
     let n := _smart_scroll_down prefs small_step
                (start h (with_manga false s)) in
     calls (final m) = map mirror (calls (final n)) /\
     handler (final m) = handler (final n) /\
     result m = result n) /\
  (forall (h : EventHandler) (s : Scripted),
     let m := _smart_scroll_up prefs small_step
                (start h (with_manga true s)) in
     let n := _smart_scroll_up prefs small_step
                (start h (with_manga false s)) in
     calls (final m) = map mirror (calls (final n)) /\
     handler (final m) = handler (final n) /\
     result m = result n) /\
  (forall (h : EventHandler) (s : Scripted),
     smart_scroll prefs = true ->
     double s = true \/ invert_smart_scroll prefs = false ->
     let st := step_sizes prefs (fst (area s)) (snd (area s)) small_step in
     exists down_n down_m up_n up_m : list call,
       calls (final (_smart_scroll_down prefs small_step
                       (start h (with_manga false s)))) =
         Scroll (x_step_small st) 0 (primary_bound s) :: down_n /\
       calls (final (_smart_scroll_down prefs small_step
                       (start h (with_manga true s)))) =
         Scroll (- x_step_small st) 0 (primary_bound s) :: down_m /\
       calls (final (_smart_scroll_up prefs small_step
                       (start h (with_manga false s)))) =
         Scroll (- x_step_small st) 0 (primary_bound s) :: up_n /\
       calls (final (_smart_scroll_up prefs small_step
                       (start h (with_manga true s)))) =
         Scroll (x_step_small st) 0 (primary_bound s) :: up_m) /\
  (forall (h : EventHandler) (s : Scripted),
     smart_scroll prefs = true ->
     double s = false ->
     invert_smart_scroll prefs = true ->
     hd false (answers s) = false ->
     let st := step_sizes prefs (fst (area s)) (snd (area s)) small_step in
     let size := and_or (_last_scroll_was_direction_1 h)
                   (x_step_large st) (x_step_small st) in
     exists down_n down_m up_n up_m : list call,
       calls (final (_smart_scroll_down prefs small_step
                       (start h (with_manga false s)))) =
         Scroll 0 (y_step_small st) None :: Scroll size 0 None :: down_n /\
       calls (final (_smart_scroll_down prefs small_step
                       (start h (with_manga true s)))) =
         Scroll 0 (y_step_small st) None :: Scroll (- size) 0 None
           :: down_m /\
       calls (final (_smart_scroll_up prefs small_step
                       (start h (with_manga false s)))) =
         Scroll 0 (- y_step_small st) None :: Scroll (- size) 0 None
           :: up_n /\
       calls (final (_smart_scroll_up prefs small_step
                       (start h (with_manga true s)))) =
         Scroll 0 (- y_step_small st) None :: Scroll size 0 None :: up_m).
Proof.
  split; [|split; [|split; [|split]]].
  - intros width height. apply manga_steps_opposite.
  - intros h s. apply rel_projections.
    apply sim_smart_scroll_down, mirrored_start.
  - intros h s. apply rel_projections.
    apply sim_smart_scroll_up, mirrored_start.
  - intros h s Hs L. cbv zeta.
    destruct (steps_on_scripted prefs small_step s) as (S0 & S1 & _).
    destruct (@smart_scroll_down_primary Scripted Scripted_Window prefs
                small_step (start h (with_manga false s)) Hs L) as [dn Edn].
    destruct (@smart_scroll_down_primary Scripted Scripted_Window prefs
                small_step (start h (with_manga true s)) Hs L) as [dm Edm].
    destruct (@smart_scroll_up_primary Scripted Scripted_Window prefs
                small_step (start h (with_manga false s)) Hs L) as [un Eun].
    destruct (@smart_scroll_up_primary Scripted Scripted_Window prefs
                small_step (start h (with_manga true s)) Hs L) as [um Eum].
    cbn [window start calls app] in Edn, Edm, Eun, Eum.
    rewrite S0 in Edn, Eun. rewrite S1 in Edm, Eum.
    rewrite Z.opp_involutive in Eum.
    exists dn, dm, un, um. repeat split; assumption.
  - intros h s Hs D I R. cbv zeta.
    destruct (steps_on_scripted prefs small_step s) as (S0 & S1 & S2 & S3).
    destruct (@smart_scroll_down_inverted Scripted Scripted_Window prefs
                small_step (start h (with_manga false s)) Hs D I) as [dn Edn];
      [cbv zeta; cbn [window start]; rewrite scripted_first_answer; exact R|].
    destruct (@smart_scroll_down_inverted Scripted Scripted_Window prefs
                small_step (start h (with_manga true s)) Hs D I) as [dm Edm];
      [cbv zeta; cbn [window start]; rewrite scripted_first_answer; exact R|].
    destruct (@smart_scroll_up_inverted Scripted Scripted_Window prefs
                small_step (start h (with_manga false s)) Hs D I) as [un Eun];
      [cbv zeta; cbn [window start]; rewrite scripted_first_answer; exact R|].
    destruct (@smart_scroll_up_inverted Scripted Scripted_Window prefs
                small_step (start h (with_manga true s)) Hs D I) as [um Eum];
      [cbv zeta; cbn [window start]; rewrite scripted_first_answer; exact R|].
    cbn [window start calls handler app] in Edn, Edm, Eun, Eum.
    rewrite S0 in Edn, Eun. rewrite S1, S2, S3, and_or_opp in Edm, Eum.
    rewrite Z.opp_involutive in Eum.
    exists dn, dm, un, um. repeat split; assumption.
Qed.

(** A wheel-sized smart scroll on a single page where every scroll is
    refused: the manga run asks for [-40] where the other asks for [40];
    with the invert preference the horizontal attempt comes second. *)
Lemma manga_mirrors_horizontal_steps_witness :
  (smart_scroll prefs0 = true /\ invert_smart_scroll prefs0 = false /\
   exists down_n down_m up_n up_m : list call,
     calls (final (_smart_scroll_down prefs0 (Some 40)
                     (start init (with_manga false win0)))) =
       Scroll 40 0 None :: down_n /\
     calls (final (_smart_scroll_down prefs0 (Some 40)
                     (start init (with_manga true win0)))) =
       Scroll (-40) 0 None :: down_m /\
     calls (final (_smart_scroll_up prefs0 (Some 40)
                     (start init (with_manga false win0)))) =
       Scroll (-40) 0 None :: up_n /\
     calls (final (_smart_scroll_up prefs0 (Some 40)
                     (start init (with_manga true win0)))) =
       Scroll 40 0 None :: up_m) /\
  (smart_scroll prefs_invert = true /\ double win0 = false /\
   invert_smart_scroll prefs_invert = true /\ hd false (answers win0) = false /\
   exists down_n down_m up_n up_m : list call,
     calls (final (_smart_scroll_down prefs_invert (Some 40)
                     (start init (with_manga false win0)))) =
       Scroll 0 40 None :: Scroll 40 0 None :: down_n /\
     calls (final (_smart_scroll_down prefs_invert (Some 40)
                     (start init (with_manga true win0)))) =
       Scroll 0 40 None :: Scroll (-40) 0 None :: down_m /\
     calls (final (_smart_scroll_up prefs_invert (Some 40)
                     (start init (with_manga false win0)))) =
       Scroll 0 (-40) None :: Scroll (-40) 0 None :: up_n /\
     calls (final (_smart_scroll_up prefs_invert (Some 40)
                     (start init (with_manga true win0)))) =
       Scroll 0 (-40) None :: Scroll 40 0 None :: up_m).
Proof.
  split.
  - split; [reflexivity|]. split; [reflexivity|].
    exact (proj1 (proj2 (proj2 (proj2
             (manga_mirrors_horizontal_steps prefs0 (Some 40)))))
             init win0 eq_refl (or_intror eq_refl)).
  - split; [reflexivity|]. split; [reflexivity|].
    split; [reflexivity|]. split; [reflexivity|].
    exact (proj2 (proj2 (proj2 (proj2
             (manga_mirrors_horizontal_steps prefs_invert (Some 40)))))
             init win0 eq_refl eq_refl eq_refl eq_refl).
Defined.

(** The whole logs of the two runs of smart scroll down. *)
Example manga_run :
  calls (final (_smart_scroll_down prefs0 (Some 40)
                  (start init (with_manga true win0)))) =
    [Scroll (-40) 0 None; Scroll 0 40 None; NextPage] /\
  calls (final (_smart_scroll_down prefs0 (Some 40)
                  (start init (with_manga false win0)))) =
    [Scroll 40 0 None; Scroll 0 40 None; NextPage].
Proof. split; reflexivity. Qed.

(** * The debounce at the end of a page *)

Section Edge.

Context {W : Type} `{Window W}.
Variable prefs : Prefs.
Variable win : W.

Hypothesis flip_on : flip_with_wheel prefs = true.
Hypothesis refused : forall x y bound, scroll x y bound win = (false, win).
Hypothesis fixed_refused :
  forall h v, scroll_to_fixed h v win = (false, win).
Hypothesis room : is_scrollable_vertically win = true.

Variable w0 : World W.
Hypothesis counter_not_negative : 0 <= _extra_scroll_events (handler w0).

Lemma edge_get {A : Type} (f : EventHandler -> A) :
  hoare (at_edge win w0) (get f) (fun _ => at_edge win w0).
Proof. intros w Hw. eexists _, w. split; [reflexivity | exact Hw]. Qed.

Lemma edge_ask {A : Type} (q : W -> A) :
  hoare (at_edge win w0) (ask q) (fun _ => at_edge win w0).
Proof. intros w Hw. eexists _, w. split; [reflexivity | exact Hw]. Qed.

Lemma edge_smart_steps (small_step : option Z) :
  hoare (at_edge win w0) (smart_steps prefs small_step)
    (fun _ => at_edge win w0).
Proof. intros w Hw. eexists _, w. split; [reflexivity | exact Hw]. Qed.

Lemma edge_set_last (b : bool) :
  hoare (at_edge win w0) (set_last_scroll_was_direction_1 b)
    (fun _ => at_edge win w0).
Proof. intros w Hw. eexists _, _. split; [reflexivity | exact Hw]. Qed.

Lemma edge_scroll (x y : Z) (bound : option subpage) :
  hoare (at_edge win w0) (window_scroll x y bound)
    (fun r v => r = false /\ at_edge win w0 v).
Proof.
  intros w (Hw & P & C & N & B). unfold window_scroll.
  rewrite Hw, refused. eexists _, _. split; [reflexivity|].
  split; [reflexivity|]. unfold at_edge. cbn.
  repeat split; try assumption.
  - rewrite <- N. count_flips.
  - rewrite <- B. count_flips.
Qed.

Lemma edge_scroll_to_fixed (h : option horiz) (v : option vert) :
  hoare (at_edge win w0) (window_scroll_to_fixed h v)
    (fun r v => r = false /\ at_edge win w0 v).
Proof.
  intros w (Hw & P & C & N & B). unfold window_scroll_to_fixed.
  rewrite Hw, fixed_refused. eexists _, _. split; [reflexivity|].
  split; [reflexivity|]. unfold at_edge. cbn.
  repeat split; try assumption.
  - rewrite <- N. count_flips.
  - rewrite <- B. count_flips.
Qed.

Lemma edge_next_page_with_protection :
  hoare (at_edge win w0) (_next_page_with_protection prefs)
    (fun _ => debounced_outcome prefs win w0).
Proof.
  intros w (Hw & P & C & N & B).
  assert (E : with_extra (_extra_scroll_events (handler w0)) w = w)
    by (rewrite <- C; apply with_extra_same).
  assert (R : is_scrollable_vertically (window w) = true)
    by (rewrite Hw; exact room).
  destruct (Z_lt_le_dec (_extra_scroll_events (handler w0))
              (number_of_key_presses_before_page_turn prefs - 1))
    as [Lt|Ge]; rewrite <- E.
  - rewrite (next_accumulates prefs flip_on w P R) by exact Lt.
    eexists _, _. split; [reflexivity|]. unfold debounced_outcome.
    split; [exact B|]. split; [|intros; lia].
    intros _. cbn. split; [lia|]. split; assumption.
  - rewrite (next_flips prefs flip_on w P R) by exact Ge.
    eexists _, _. split; [reflexivity|]. unfold debounced_outcome.
    split; [rewrite <- B; count_flips|]. split; [intros; lia|].
    intros _. cbn. split; [reflexivity|].
    split; [rewrite Hw; reflexivity|]. rewrite <- N. count_flips.
Qed.

Lemma edge_outcome_kept {A : Type} (a : A) :
  hoare (debounced_outcome prefs win w0) (ret a)
    (fun _ => debounced_outcome prefs win w0).
Proof. apply hoare_ret. auto. Qed.

End Edge.

Create HintDb edge.

#[export] Hint Resolve edge_get edge_ask edge_smart_steps edge_set_last
  edge_scroll edge_scroll_to_fixed edge_next_page_with_protection
  edge_outcome_kept : edge.

(** The walk at a page edge: every scroll is known to be refused. *)
Ltac edge_walk :=
  repeat (cbv beta zeta;
    match goal with
    | |- hoare (fun v => ?r = false /\ _) _ _ =>
        apply hoare_pure; intros ->; cbn [negb]
    | |- hoare _ (bind _ _) _ =>
        eapply hoare_bind; [solve [eauto with edge] | intro]
    | |- hoare _ (if ?c then _ else _) _ => destruct c
    | |- hoare _ _ _ => solve [eauto with edge]
    end).

Section Edge_gestures.

Context {W : Type} `{Window W}.
Variable prefs : Prefs.
Variable win : W.

Hypothesis flip_on : flip_with_wheel prefs = true.
Hypothesis refused : forall x y bound, scroll x y bound win = (false, win).
Hypothesis fixed_refused :
  forall h v, scroll_to_fixed h v win = (false, win).
Hypothesis room : is_scrollable_vertically win = true.

Lemma debounced_smart_scroll_down (small_step : option Z) :
  debounced_forward prefs win
    (set_scroll_protection true ;; _smart_scroll_down prefs small_step).
Proof.
  intros w Hw H0. unfold bind at 1. unfold set_scroll_protection at 1.
  match goal with
  | |- context [_smart_scroll_down prefs small_step ?v] => set (v0 := v)
  end.
  assert (G : hoare (at_edge win v0) (_smart_scroll_down prefs small_step)
                (fun _ => debounced_outcome prefs win v0)).
  { unfold _smart_scroll_down. edge_walk. }
  destruct (G v0) as (a & w' & R & O).
  { repeat split. exact Hw. }
  exists a, w'. split; [exact R | exact O].
Qed.



End Edge_gestures.

(** * Cursor warp with any border *)

(** X14.  For any [minval], [tolerance] and [extra >= 0], on an axis
    longer than [3 * tolerance + 2 * extra]: a warp of a cursor within
    [[minval, maxval]] lands strictly between [minval + tolerance + extra]
    and [maxval - tolerance - extra], where the next call leaves it
    alone, and it moves the cursor by exactly
    [maxval - minval - 2 * tolerance - extra], one way or the other. *)
Theorem valwarp_any_border (cur maxval minval tolerance extra : Z) :
  0 <= extra -> minval <= cur <= maxval ->
  3 * tolerance + 2 * extra < maxval - minval ->
  warps cur maxval minval tolerance = true ->
  minval + tolerance + extra
    < _valwarp cur maxval minval tolerance extra
    < maxval - tolerance - extra /\
  warps (_valwarp cur maxval minval tolerance extra)
    maxval minval tolerance = false /\
  _valwarp (_valwarp cur maxval minval tolerance extra)
    maxval minval tolerance extra =
    _valwarp cur maxval minval tolerance extra /\
  Z.abs (_valwarp cur maxval minval tolerance extra - cur) =
    maxval - minval - 2 * tolerance - extra.
Proof.
  intros He Hc Hlen Hw.
  assert (R : minval + tolerance + extra
                < _valwarp cur maxval minval tolerance extra
                < maxval - tolerance - extra /\
              Z.abs (_valwarp cur maxval minval tolerance extra - cur) =
                maxval - minval - 2 * tolerance - extra).
  { unfold warps in Hw. unfold _valwarp.
    destruct (Z.ltb_spec cur (minval + tolerance)); [lia|].
    destruct (Z.ltb_spec (maxval - cur) tolerance); [lia|].
    discriminate Hw. }
  destruct R as [R A].
  generalize dependent (_valwarp cur maxval minval tolerance extra).
  intros r R A.
  assert (N : warps r maxval minval tolerance = false).
  { unfold warps.
    destruct (Z.ltb_spec r (minval + tolerance)); [lia|].
    destruct (Z.ltb_spec (maxval - r) tolerance); [lia|]. reflexivity. }
  split; [exact R|]. split; [exact N|]. split; [|exact A].
  unfold warps in N. apply orb_false_elim in N. destruct N as [N1 N2].
  unfold _valwarp. rewrite N1, N2. reflexivity.
Qed.

Lemma valwarp_any_border_witness :
  0 <= 4 /\ 100 <= 102 <= 900 /\ 3 * 10 + 2 * 4 < 900 - 100 /\
  warps 102 900 100 10 = true /\
  _valwarp 102 900 100 10 4 = 878 /\
  Z.abs (_valwarp 102 900 100 10 4 - 102) = 900 - 100 - 2 * 10 - 4.
Proof.
  assert (He : 0 <= 4) by lia.
  assert (Hc : 100 <= 102 <= 900) by lia.
  assert (Hl : 3 * 10 + 2 * 4 < 900 - 100) by lia.
  split; [exact He|]. split; [exact Hc|]. split; [exact Hl|].
  split; [reflexivity|]. split; [reflexivity|].
  exact (proj2 (proj2 (proj2
    (valwarp_any_border 102 900 100 10 4 He Hc Hl eq_refl)))).
Defined.

Lemma arrow_keys_flip_direction_witness :
  0 < number_of_pixels_to_scroll_per_key_event prefs0 /\
  exists w' tail,
    _scroll_down prefs0 (start init win0) = Done tt w' /\
    calls w' = calls (start init win0) ++ Scroll 0 40 None :: tail /\
    (tail = [] \/ tail = [NextPage]).
Proof.
  assert (S : 0 < number_of_pixels_to_scroll_per_key_event prefs0)
    by (cbn; lia).
  split; [exact S|].
  exact (proj1 (arrow_keys_flip_direction prefs0 (start init win0) S)).
Defined.



(** * Pointer events *)

Section Pointer_facts.

Context {W0 : Type} `{Window W0}.
Variable prefs : Prefs.

(** X15.  A click turns one page: a press of button 1 followed by its
    release at the same root position, the window not having been out of
    focus, calls [next_page] once, directly: neither ['flip with wheel']
    nor the debounce counter is consulted or changed.  A release at
    another position, or after the window was out of focus, flips no page
    and clears [was_out_of_focus]. *)
Theorem click_flips_one_page (press release : gdk_event) (p : Pointer)
    (w : World (Desk W0)) :
  button press = 1 -> button release = 1 ->
  let run := (p1 <- mouse_press_event press p ;;
              mouse_release_event prefs release p1) w in
  (x_root release = x_root press -> y_root release = y_root press ->
   was_out_of_focus (window w) = false ->
   exists p' w',
     run = Done p' w' /\
     calls w' = calls w ++ [NextPage] /\
     handler w' = handler w /\
     page_view (window w') = next_page (page_view (window w))) /\
  (x_root release <> x_root press \/ y_root release <> y_root press \/
   was_out_of_focus (window w) = true ->
   exists p' w',
     run = Done p' w' /\
     calls w' = calls w /\
     handler w' = handler w /\
     page_view (window w') = page_view (window w) /\
     was_out_of_focus (window w') = false).
Proof.
  intros Bp Br run. subst run.
  unfold mouse_press_event, mouse_release_event. rewrite Bp, Br.
  cbn [Z.eqb Pos.eqb]. unfold bind, ret, ui, on_desk, ask. cbn.
  split.
  - intros Ex Ey F. rewrite Ex, Ey, F, !Z.eqb_refl. cbn.
    eexists _, _. split; [reflexivity|]. repeat split.
  - intros D.
    destruct ((x_root release =? x_root press)
              && (y_root release =? y_root press)
              && negb (was_out_of_focus (window w))) eqn:C.
    + apply andb_true_iff in C. destruct C as [C F].
      apply andb_true_iff in C. destruct C as [Cx Cy].
      apply Z.eqb_eq in Cx. apply Z.eqb_eq in Cy.
      apply negb_true_iff in F.
      destruct D as [D|[D|D]]; congruence.
    + eexists _, _. split; [reflexivity|]. repeat split.
Qed.

(** A motion without button 1 changes neither the log nor the pointer
    attributes; a drag step without wrapping asks for the move from the
    remembered position and remembers the new one. *)
Lemma scrolled_x_app (l l' : list call) :
  scrolled_x (l ++ l') = scrolled_x l + scrolled_x l'.
Proof.
  induction l as [|c l IH]; [reflexivity|].
  simpl. rewrite IH. destruct c; lia.
Qed.

Lemma scrolled_y_app (l l' : list call) :
  scrolled_y (l ++ l') = scrolled_y l + scrolled_y l'.
Proof.
  induction l as [|c l IH]; [reflexivity|].
  simpl. rewrite IH. destruct c; lia.
Qed.

Lemma mouse_move_event_adds_up (event : gdk_event) (p : Pointer)
    (w : World (Desk W0)) :
  exists p' w' new,
    mouse_move_event false event p w = Done p' w' /\
    calls w' = calls w ++ new /\
    handler w' = handler w /\
    forallb is_scrolling new = true /\
    scrolled_x new = _last_pointer_pos_x p - _last_pointer_pos_x p' /\
    scrolled_y new = _last_pointer_pos_y p - _last_pointer_pos_y p'.
Proof.
  unfold mouse_move_event.
  unfold bind at 1. unfold ask at 1. unfold bind at 1.
  assert (F : exists w1,
    (if negb (is_in_focus (window w))
     then set_was_out_of_focus (W0 := W0) true
     else set_was_out_of_focus false) w = Done tt w1 /\
    calls w1 = calls w /\ handler w1 = handler w).
  { destruct (negb (is_in_focus (window w))); eexists; repeat split. }
  destruct F as (w1 & -> & C1 & H1).
  unfold bind at 1. unfold latest_event at 1.
  destruct (_get_latest_event_of_same_type event (event_queue (window w1)))
    as [latest queue'].
  destruct (button1_mask latest).
  - unfold bind at 1. unfold ui at 1, on_desk at 1.
    unfold bind at 1. unfold window_scroll at 1. cbn [window calls handler].
    match goal with
    | |- context [scroll ?x ?y None ?d] =>
        destruct (scroll x y None d) as [scrolled d']
    end.
    cbn [andb]. unfold bind, ret. cbn [fst snd].
    eexists _, _, [Scroll _ _ None]. split; [reflexivity|].
    cbn. rewrite C1, H1. repeat split; lia.
  - unfold bind, ui, on_desk, ret. cbn.
    eexists _, _, []. split; [reflexivity|].
    cbn. rewrite C1, H1, app_nil_r. repeat split; lia.
Qed.

(** X16.  Without cursor wrapping, dragging is exact: over any sequence of
    motion events, whatever the event queue coalesces and whether the
    window accepts the scrolls or not, the deltas of the [scroll] calls
    issued add up to the remembered pointer position before minus the
    remembered position after; nothing but [scroll] requests is sent to
    the window and the debounce state is untouched. *)
Theorem drag_requests_add_up (events : list gdk_event) :
  forall (p : Pointer) (w : World (Desk W0)),
  exists p' w' new,
    mouse_moves false events p w = Done p' w' /\
    calls w' = calls w ++ new /\
    handler w' = handler w /\
    forallb is_scrolling new = true /\
    scrolled_x new = _last_pointer_pos_x p - _last_pointer_pos_x p' /\
    scrolled_y new = _last_pointer_pos_y p - _last_pointer_pos_y p'.
Proof.
  induction events as [|event events IH]; intros p w.
  - exists p, w, []. cbn. rewrite app_nil_r. repeat split; lia.
  - cbn [mouse_moves]. unfold bind at 1.
    destruct (mouse_move_event_adds_up event p w)
      as (p1 & w1 & new1 & -> & C1 & H1 & F1 & X1 & Y1).
    destruct (IH p1 w1) as (p' & w' & new & R & C & Hh & F & X & Y).
    exists p', w', (new1 ++ new). split; [exact R|].
    rewrite C, C1, Hh, H1, <- app_assoc, forallb_app, F1, F.
    rewrite scrolled_x_app, scrolled_y_app.
    repeat split; lia.
Qed.

Lemma valwarp_default_inside (c m : Z) :
  14 <= m -> 0 <= c <= m -> 3 <= _valwarp c m 0 3 2 <= m - 3.
Proof.
  intros Hm Hc. unfold _valwarp.
  destruct (Z.ltb_spec c (0 + 3)); [lia|].
  destruct (Z.ltb_spec (m - c) 3); lia.
Qed.

(** X17.  A drag step with cursor wrapping, on a screen of at least 14
    by 14 with the pointer on it: when button 1 is held and the window
    accepts the scroll, the handler remembers the warped position, which
    lies at least [tolerance] away from every screen edge, so that a
    motion reported at that position is not warped again; and the pointer
    is warped, once and to that position, exactly when the position
    changed. *)
Theorem wrapped_drag_step (event : gdk_event) (p : Pointer)
    (w : World (Desk W0)) (sw sh : Z) :
  let latest :=
    fst (_get_latest_event_of_same_type event (event_queue (window w))) in
  button1_mask latest = true ->
  fst (scroll (_last_pointer_pos_x p - x_root latest)
         (_last_pointer_pos_y p - y_root latest) None
         (page_view (window w))) = true ->
  screen_size (window w) = (sw, sh) -> 14 <= sw -> 14 <= sh ->
  0 <= x_root latest <= sw -> 0 <= y_root latest <= sh ->
  exists p' w',
    mouse_move_event true event p w = Done p' w' /\
    _last_pointer_pos_x p' = _valwarp (x_root latest) sw 0 3 2 /\
    _last_pointer_pos_y p' = _valwarp (y_root latest) sh 0 3 2 /\
    3 <= _last_pointer_pos_x p' <= sw - 3 /\
    3 <= _last_pointer_pos_y p' <= sh - 3 /\
    warps (_last_pointer_pos_x p') sw 0 3 = false /\
    warps (_last_pointer_pos_y p') sh 0 3 = false /\
    ui_calls (window w') =
      ui_calls (window w) ++
      SetCursorType GRAB_CURSOR ::
      (if (_last_pointer_pos_x p' =? x_root latest)
          && (_last_pointer_pos_y p' =? y_root latest)
       then []
       else [WarpPointer (_last_pointer_pos_x p')
               (_last_pointer_pos_y p')]).
Proof.
  intros latest B S Z Hw Hh Hx Hy.
  pose proof (valwarp_default_inside _ _ Hw Hx) as Ix.
  pose proof (valwarp_default_inside _ _ Hh Hy) as Iy.
  assert (Wx : warps (_valwarp (x_root latest) sw 0 3 2) sw 0 3 = false).
  { unfold warps.
    destruct (Z.ltb_spec (_valwarp (x_root latest) sw 0 3 2) (0 + 3));
      [lia|].
    destruct (Z.ltb_spec (sw - _valwarp (x_root latest) sw 0 3 2) 3);
      [lia | reflexivity]. }
  assert (Wy : warps (_valwarp (y_root latest) sh 0 3 2) sh 0 3 = false).
  { unfold warps.
    destruct (Z.ltb_spec (_valwarp (y_root latest) sh 0 3 2) (0 + 3));
      [lia|].
    destruct (Z.ltb_spec (sh - _valwarp (y_root latest) sh 0 3 2) 3);
      [lia | reflexivity]. }
  subst latest.
  unfold mouse_move_event.
  unfold bind at 1. unfold ask at 1. unfold bind at 1.
  assert (F : exists w1,
    (if negb (is_in_focus (window w))
     then set_was_out_of_focus (W0 := W0) true
     else set_was_out_of_focus false) w = Done tt w1 /\
    event_queue (window w1) = event_queue (window w) /\
    page_view (window w1) = page_view (window w) /\
    screen_size (window w1) = screen_size (window w) /\
    ui_calls (window w1) = ui_calls (window w)).
  { destruct (negb (is_in_focus (window w))); eexists; repeat split. }
  destruct F as (w1 & -> & Q1 & V1 & Z1 & U1).
  unfold bind at 1. unfold latest_event at 1. rewrite Q1.
  destruct (_get_latest_event_of_same_type event (event_queue (window w)))
    as [latest queue'].
  cbn [fst] in *. rewrite B.
  unfold bind at 1. unfold ui at 1, on_desk at 1.
  unfold bind at 1. unfold window_scroll at 1.
  cbn [window calls handler scroll Desk_Window page_view].
  rewrite V1.
  destruct (scroll (_last_pointer_pos_x p - x_root latest)
              (_last_pointer_pos_y p - y_root latest) None
              (page_view (window w))) as [scrolled v'].
  cbn [fst] in S. subst scrolled. cbn [andb].
  unfold bind at 1. unfold bind at 1. unfold ask at 1.
  cbn [window screen_size with_page_view]. rewrite Z1, Z.
  cbn [fst snd].
  destruct (negb (_valwarp (x_root latest) sw 0 3 2 =? x_root latest)
            || negb (_valwarp (y_root latest) sh 0 3 2 =? y_root latest))
    eqn:Changed.
  - assert (C : (_valwarp (x_root latest) sw 0 3 2 =? x_root latest)
                && (_valwarp (y_root latest) sh 0 3 2 =? y_root latest)
                = false).
    { destruct (_valwarp (x_root latest) sw 0 3 2 =? x_root latest);
        [|reflexivity].
      destruct (_valwarp (y_root latest) sh 0 3 2 =? y_root latest);
        [discriminate Changed | reflexivity]. }
    unfold bind at 1. unfold bind at 1. unfold ui at 1, on_desk at 1.
    unfold latest_event at 1.
    match goal with
    | |- context [_get_latest_event_of_same_type latest ?q] =>
        destruct (_get_latest_event_of_same_type latest q)
          as [latest' queue'']
    end.
    unfold ret. eexists _, _. split; [reflexivity|].
    cbn. rewrite C, U1, <- app_assoc. repeat split; assumption || lia.
  - apply orb_false_elim in Changed. destruct Changed as [Cx Cy].
    apply negb_false_iff in Cx. apply negb_false_iff in Cy.
    unfold bind, ret. eexists _, _. split; [reflexivity|].
    cbn. rewrite Cx, Cy, U1. repeat split; assumption || lia.
Qed.

End Pointer_facts.

Lemma click_flips_one_page_witness :
  button (button_event 1 300 200) = 1 /\
  exists p' w',
    (p1 <- mouse_press_event (button_event 1 300 200) init_pointer ;;
     mouse_release_event prefs_no_flip (button_event 1 300 200) p1)
      (start (protected 2) (desk0 win0 [])) = Done p' w' /\
    calls w' = calls (start (protected 2) (desk0 win0 [])) ++ [NextPage] /\
    handler w' = handler (start (protected 2) (desk0 win0 [])) /\
    page_view (window w') =
      next_page (page_view (window (start (protected 2) (desk0 win0 [])))).
Proof.
  split; [reflexivity|].
  exact (proj1 (@click_flips_one_page Scripted Scripted_Window prefs_no_flip
                  (button_event 1 300 200) (button_event 1 300 200)
                  init_pointer (start (protected 2) (desk0 win0 []))
                  eq_refl eq_refl) eq_refl eq_refl eq_refl).
Defined.

(** A window that accepts one scroll. *)
Lemma wrapped_drag_step_witness :
  button1_mask (drag_to 1 90) = true /\
  exists p' w',
    mouse_move_event true (drag_to 1 90) (with_last init_pointer 100 100)
      (start init (desk0 win_scrolls [])) = Done p' w' /\
    _last_pointer_pos_x p' = 1913 /\
    ui_calls (window w') =
      [SetCursorType GRAB_CURSOR; WarpPointer 1913 90].
Proof.
  split; [reflexivity|].
  assert (Hw : 14 <= 1920) by lia.
  assert (Hh : 14 <= 1080) by lia.
  assert (Hx : 0 <= 1 <= 1920) by lia.
  assert (Hy : 0 <= 90 <= 1080) by lia.
  destruct (@wrapped_drag_step Scripted Scripted_Window (drag_to 1 90)
              (with_last init_pointer 100 100)
              (start init (desk0 win_scrolls [])) 1920 1080
              eq_refl eq_refl eq_refl Hw Hh Hx Hy)
    as (p' & w' & R & X & Y & _ & _ & _ & _ & U).
  exists p', w'. split; [exact R|]. split; [exact X|].
  rewrite U, X, Y. reflexivity.
Defined.

(** * With ['flip with wheel'] off *)

Section Flip_off.

Context {W : Type} `{Window W}.
Variable prefs : Prefs.
Hypothesis flip_off : flip_with_wheel prefs = false.
Variable w0 : World W.

Lemma unflipped_get {A : Type} (f : EventHandler -> A) :
  hoare (unflipped w0) (get f) (fun _ => unflipped w0).
Proof. intros w Hw. eexists _, w. split; [reflexivity | exact Hw]. Qed.

Lemma unflipped_ask {A : Type} (q : W -> A) :
  hoare (unflipped w0) (ask q) (fun _ => unflipped w0).
Proof. intros w Hw. eexists _, w. split; [reflexivity | exact Hw]. Qed.

Lemma unflipped_ret {A : Type} (a : A) :
  hoare (unflipped w0) (ret a) (fun _ => unflipped w0).
Proof. apply hoare_ret. auto. Qed.

Lemma unflipped_smart_steps (small_step : option Z) :
  hoare (unflipped w0) (smart_steps prefs small_step)
    (fun _ => unflipped w0).
Proof. intros w Hw. eexists _, w. split; [reflexivity | exact Hw]. Qed.

Lemma unflipped_set_extra (n : Z) :
  hoare (unflipped w0) (set_extra_scroll_events n) (fun _ => unflipped w0).
Proof. intros w Hw. eexists _, _. split; [reflexivity | exact Hw]. Qed.

Lemma unflipped_set_last (b : bool) :
  hoare (unflipped w0) (set_last_scroll_was_direction_1 b)
    (fun _ => unflipped w0).
Proof. intros w Hw. eexists _, _. split; [reflexivity | exact Hw]. Qed.

Lemma unflipped_set_protection (b : bool) :
  hoare (unflipped w0) (set_scroll_protection b) (fun _ => unflipped w0).
Proof. intros w Hw. eexists _, _. split; [reflexivity | exact Hw]. Qed.

Lemma unflipped_scroll (x y : Z) (bound : option subpage) :
  hoare (unflipped w0) (window_scroll x y bound) (fun _ => unflipped w0).
Proof.
  intros w [N P]. unfold window_scroll.
  destruct (scroll x y bound (window w)) as [r win].
  eexists _, _. split; [reflexivity|].
  split; [rewrite <- N | rewrite <- P]; count_flips.
Qed.

Lemma unflipped_scroll_to_fixed (h : option horiz) (v : option vert) :
  hoare (unflipped w0) (window_scroll_to_fixed h v)
    (fun _ => unflipped w0).
Proof.
  intros w [N P]. unfold window_scroll_to_fixed.
  destruct (scroll_to_fixed h v (window w)) as [r win].
  eexists _, _. split; [reflexivity|].
  split; [rewrite <- N | rewrite <- P]; count_flips.
Qed.

Lemma unflipped_force_single_step (b : bool) :
  hoare (unflipped w0) (window_log (SetForceSingleStep b))
    (fun _ => unflipped w0).
Proof.
  intros w [N P]. eexists _, _. split; [reflexivity|].
  split; [rewrite <- N | rewrite <- P]; count_flips.
Qed.

Lemma unflipped_emit_stop :
  hoare (unflipped w0) (window_log EmitStopByName) (fun _ => unflipped w0).
Proof.
  intros w [N P]. eexists _, _. split; [reflexivity|].
  split; [rewrite <- N | rewrite <- P]; count_flips.
Qed.

Lemma unflipped_next_page_with_protection :
  hoare (unflipped w0) (_next_page_with_protection prefs)
    (fun _ => unflipped w0).
Proof.
  intros w Hw.
  destruct (next_page_cases prefs w) as [[_ R]|[[F _]|[F _]]];
    [|congruence|congruence].
  rewrite R. eexists _, _. split; [reflexivity | exact Hw].
Qed.

Lemma unflipped_previous_page_with_protection :
  hoare (unflipped w0) (_previous_page_with_protection prefs)
    (fun _ => unflipped w0).
Proof.
  intros w Hw.
  destruct (previous_page_cases prefs w) as [[_ R]|[[F _]|[F _]]];
    [|congruence|congruence].
  rewrite R. eexists _, _. split; [reflexivity | exact Hw].
Qed.

End Flip_off.

Create HintDb no_flip.

#[export] Hint Resolve unflipped_get unflipped_ask unflipped_ret
  unflipped_smart_steps unflipped_set_extra unflipped_set_last
  unflipped_set_protection unflipped_scroll unflipped_scroll_to_fixed
  unflipped_force_single_step unflipped_emit_stop
  unflipped_next_page_with_protection
  unflipped_previous_page_with_protection : no_flip.

Section Flip_off_gestures.

Context {W : Type} `{Window W}.
Variable prefs : Prefs.
Hypothesis flip_off : flip_with_wheel prefs = false.

Lemma unflipped_scroll_with_flipping (w0 : World W) (x y : Z) :
  hoare (unflipped w0) (_scroll_with_flipping prefs x y)
    (fun _ => unflipped w0).
Proof. unfold _scroll_with_flipping. hoare_walk no_flip. Qed.

Lemma unflipped_smart_scroll_down (w0 : World W) (small_step : option Z) :
  hoare (unflipped w0) (_smart_scroll_down prefs small_step)
    (fun _ => unflipped w0).
Proof. unfold _smart_scroll_down. hoare_walk no_flip. Qed.

Lemma unflipped_smart_scroll_up (w0 : World W) (small_step : option Z) :
  hoare (unflipped w0) (_smart_scroll_up prefs small_step)
    (fun _ => unflipped w0).
Proof. unfold _smart_scroll_up. hoare_walk no_flip. Qed.

Lemma unflipped_run_callback (w0 : World W) (cb : callback) :
  is_scroll_gesture cb = true ->
  hoare (unflipped w0) (run_callback prefs cb) (fun _ => unflipped w0).
Proof.
  destruct cb; intros G; try discriminate G; cbn [run_callback];
    auto using unflipped_smart_scroll_down, unflipped_smart_scroll_up;
    unfold _scroll_down, _scroll_up, _scroll_right, _scroll_left;
    (eapply hoare_bind;
     [apply unflipped_scroll_with_flipping | intro; apply unflipped_ret]).
Qed.

(** X18.  With ['flip with wheel'] off no scrolling gesture turns the
    page, whatever the window answers and whatever the debounce state: a
    key press bound to an arrow-key scroll or to smart scroll (the space
    key), a vertical wheel tick, and a horizontal wheel tick against the
    reading direction all end without a call of [next_page] or
    [previous_page]. *)
Theorem no_gesture_flips_when_disabled :
  (forall (event : key_event) (cb : callback) (w : World W),
     binding event = Some cb -> is_scroll_gesture cb = true ->
     exists r w',
       key_press_event prefs event w = Done r w' /\
       flips_next w' = flips_next w /\
       flips_previous w' = flips_previous w) /\
  (forall (event : scroll_event) (w : World W),
     advances (direction event) (is_manga_mode (window w)) = false ->
     exists w',
       scroll_wheel_event prefs event w = Done tt w' /\
       flips_next w' = flips_next w /\
       flips_previous w' = flips_previous w).
Proof.
  split.
  - intros event cb w B G.
    assert (K : hoare (unflipped w) (key_press_event prefs event)
                  (fun _ => unflipped w)).
    { unfold key_press_event, manager_execute. rewrite B.
      eapply hoare_bind; [apply unflipped_set_protection | intro].
      eapply hoare_bind; [apply unflipped_run_callback; exact G | intro].
      destruct (is_control event), (kills_signal event);
        hoare_walk no_flip. }
    destruct (K w) as (r & w' & R & N & P); [split; reflexivity|].
    exists r, w'. repeat split; assumption.
  - intros event w A.
    destruct (button2_mask event) eqn:B.
    { exists w. unfold scroll_wheel_event. rewrite B. repeat split. }
    assert (V : forall m : M W unit,
              hoare (unflipped w) m (fun _ => unflipped w) ->
              exists w',
                (set_scroll_protection true ;; m) w = Done tt w' /\
                flips_next w' = flips_next w /\
                flips_previous w' = flips_previous w).
    { intros m Hm.
      assert (K : hoare (unflipped w) (set_scroll_protection true ;; m)
                    (fun _ => unflipped w))
        by (eapply hoare_bind;
            [apply unflipped_set_protection | intro; exact Hm]).
      destruct (K w) as ([] & w' & R & N & P); [split; reflexivity|].
      exists w'. repeat split; assumption. }
    unfold scroll_wheel_event. rewrite B. cbv zeta.
    destruct (direction event); cbn in A.
    + apply V. destruct (smart_scroll prefs);
        [apply unflipped_smart_scroll_up; exact flip_off|].
      eapply hoare_bind;
        [apply unflipped_scroll_with_flipping; exact flip_off
        | intro; apply unflipped_ret].
    + apply V. destruct (smart_scroll prefs);
        [apply unflipped_smart_scroll_down; exact flip_off|].
      eapply hoare_bind;
        [apply unflipped_scroll_with_flipping; exact flip_off
        | intro; apply unflipped_ret].
    + unfold bind at 1. unfold set_scroll_protection at 1.
      unfold bind at 1. unfold ask at 1. cbn [window]. rewrite A.
      cbn [negb].
      match goal with
      | |- context [bind _ _ ?v] =>
          destruct (unflipped_previous_page_with_protection prefs flip_off
                      w v) as (r & w1 & R & N & P); [split; reflexivity|]
      end.
      exists w1. unfold bind, ret. rewrite R. repeat split; assumption.
    + apply negb_false_iff in A.
      unfold bind at 1. unfold set_scroll_protection at 1.
      unfold bind at 1. unfold ask at 1. cbn [window]. rewrite A.
      cbn [negb].
      match goal with
      | |- context [bind _ _ ?v] =>
          destruct (unflipped_previous_page_with_protection prefs flip_off
                      w v) as (r & w1 & R & N & P); [split; reflexivity|]
      end.
      exists w1. unfold bind, ret. rewrite R. repeat split; assumption.
Qed.

End Flip_off_gestures.

(** * The space key at the end of a page *)

Section Free_edge.

Context {W : Type} `{Window W}.
Variable prefs : Prefs.
Variable win : W.

Hypothesis flip_on : flip_with_wheel prefs = true.
Hypothesis refused : forall x y bound, scroll x y bound win = (false, win).
Hypothesis fixed_refused :
  forall h v, scroll_to_fixed h v win = (false, win).

Variable w0 : World W.

Lemma free_get {A : Type} (f : EventHandler -> A) :
  hoare (at_free_edge win w0) (get f) (fun _ => at_free_edge win w0).
Proof. intros w Hw. eexists _, w. split; [reflexivity | exact Hw]. Qed.

Lemma free_ask {A : Type} (q : W -> A) :
  hoare (at_free_edge win w0) (ask q) (fun _ => at_free_edge win w0).
Proof. intros w Hw. eexists _, w. split; [reflexivity | exact Hw]. Qed.

Lemma free_smart_steps (small_step : option Z) :
  hoare (at_free_edge win w0) (smart_steps prefs small_step)
    (fun _ => at_free_edge win w0).
Proof. intros w Hw. eexists _, w. split; [reflexivity | exact Hw]. Qed.

Lemma free_set_last (b : bool) :
  hoare (at_free_edge win w0) (set_last_scroll_was_direction_1 b)
    (fun _ => at_free_edge win w0).
Proof. intros w Hw. eexists _, _. split; [reflexivity | exact Hw]. Qed.

Lemma free_scroll (x y : Z) (bound : option subpage) :
  hoare (at_free_edge win w0) (window_scroll x y bound)
    (fun r v => r = false /\ at_free_edge win w0 v).
Proof.
  intros w (Hw & P & N & B). unfold window_scroll.
  rewrite Hw, refused. eexists _, _. split; [reflexivity|].
  split; [reflexivity|]. unfold at_free_edge. cbn.
  repeat split; try assumption.
  - rewrite <- N. count_flips.
  - rewrite <- B. count_flips.
Qed.

Lemma free_scroll_to_fixed (h : option horiz) (v : option vert) :
  hoare (at_free_edge win w0) (window_scroll_to_fixed h v)
    (fun r v => r = false /\ at_free_edge win w0 v).
Proof.
  intros w (Hw & P & N & B). unfold window_scroll_to_fixed.
  rewrite Hw, fixed_refused. eexists _, _. split; [reflexivity|].
  split; [reflexivity|]. unfold at_free_edge. cbn.
  repeat split; try assumption.
  - rewrite <- N. count_flips.
  - rewrite <- B. count_flips.
Qed.

Lemma free_next_page_with_protection :
  hoare (at_free_edge win w0) (_next_page_with_protection prefs)
    (fun _ => flipped_forward win w0).
Proof.
  intros w (Hw & P & N & B).
  destruct (next_page_cases prefs w) as [[F _]|[[_ [_ R]]|[_ [F _]]]].
  - congruence.
  - rewrite R. eexists _, _. split; [reflexivity|].
    unfold flipped_forward. cbn.
    split; [reflexivity|]. split; [rewrite Hw; reflexivity|].
    split; [rewrite <- N | rewrite <- B]; count_flips.
  - unfold next_flip_now in F. rewrite P in F. discriminate F.
Qed.

Lemma free_kept {A : Type} (a : A) :
  hoare (flipped_forward win w0) (ret a) (fun _ => flipped_forward win w0).
Proof. apply hoare_ret. auto. Qed.

Lemma free_force_single_step (b : bool) :
  hoare (flipped_forward win w0) (window_log (SetForceSingleStep b))
    (fun _ => flipped_forward win w0).
Proof.
  intros w (C & Hw & N & B). eexists _, _. split; [reflexivity|].
  unfold flipped_forward. cbn. repeat split; try assumption.
  - rewrite <- N. count_flips.
  - rewrite <- B. count_flips.
Qed.

Lemma free_emit_stop :
  hoare (flipped_forward win w0) (window_log EmitStopByName)
    (fun _ => flipped_forward win w0).
Proof.
  intros w (C & Hw & N & B). eexists _, _. split; [reflexivity|].
  unfold flipped_forward. cbn. repeat split; try assumption.
  - rewrite <- N. count_flips.
  - rewrite <- B. count_flips.
Qed.

End Free_edge.

Create HintDb free_edge.

#[export] Hint Resolve free_get free_ask free_smart_steps free_set_last
  free_scroll free_scroll_to_fixed free_next_page_with_protection
  free_kept free_force_single_step free_emit_stop : free_edge.

Ltac free_walk :=
  repeat (cbv beta zeta;
    match goal with
    | |- hoare (fun v => ?r = false /\ _) _ _ =>
        apply hoare_pure; intros ->; cbn [negb]
    | |- hoare _ (bind _ _) _ =>
        eapply hoare_bind; [solve [eauto with free_edge] | intro]
    | |- hoare _ (if ?c then _ else _) _ => destruct c
    | |- hoare _ _ _ => solve [eauto with free_edge]
    end).

Section Space_key.

Context {W : Type} `{Window W}.
Variable prefs : Prefs.
Variable win : W.

Hypothesis flip_on : flip_with_wheel prefs = true.
Hypothesis refused : forall x y bound, scroll x y bound win = (false, win).
Hypothesis fixed_refused :
  forall h v, scroll_to_fixed h v win = (false, win).


End Space_key.

Lemma no_gesture_flips_when_disabled_witness :
  flip_with_wheel prefs_no_flip = false /\
  exists r w',
    key_press_event prefs_no_flip space_key_event (start init win0)
      = Done r w' /\
    flips_next w' = flips_next (start init win0) /\
    flips_previous w' = flips_previous (start init win0).
Proof.
  split; [reflexivity|].
  exact (proj1 (@no_gesture_flips_when_disabled Scripted Scripted_Window
                  prefs_no_flip eq_refl)
           space_key_event cb_smart_scroll_down (start init win0)
           eq_refl eq_refl).
Defined.


Lemma scroll_with_flipping_contract_witness :
  fst (scroll 0 40 None (window (start (protected 2) win_scrolls))) = true /\
  exists r w' tail,
    _scroll_with_flipping prefs0 0 40 (start (protected 2) win_scrolls)
      = Done r w' /\
    calls w' = calls (start (protected 2) win_scrolls)
               ++ Scroll 0 40 None :: tail /\
    r = true /\ _extra_scroll_events (handler w') = 0.
Proof.
  split; [reflexivity|].
  destruct (@scroll_with_flipping_contract Scripted Scripted_Window prefs0
              0 40 (start (protected 2) win_scrolls))
    as (r & w' & tail & R & C & _ & S & _).
  exists r, w', tail. split; [exact R|]. split; [exact C|].
  exact (S eq_refl).
Defined.
